(** * dwi_ml batch sampler: a shallow embedding of
      [dwi_ml/training/batch_samplers.py] and the properties of its
      sampling engine.

    The embedding follows the Python source function by function.
    - Python exceptions are an error monad ([result]).
    - numpy arrays are lists; the usage mask [global_unused_streamlines]
      (an array of 0/1 flags) is a [list bool] that is threaded through
      the calls that mutate it in place.
    - Float quantities (streamline lengths in mm, the per-subject budget
      [batch_size / nb_subjects], the sizes of the chunks) are float64
      numbers: each operation rounds its exact result to the nearest
      float, [np.sum] adds pairwise as numpy does and [np.cumsum] adds in
      order.
    - Python ints are unbounded ([Z]); an array holds fewer than [2^52]
      items.
    - The numpy generator [self.np_rng] is an explicit state: a stream of
      raw draws and a position.  Every outcome numpy can produce for
      [choice] is produced by some stream; probabilities are not
      modelled.
    - The generator function [__iter__] is a step machine on its frame
      (its local variables), one step per resumption point.
    - The [params] dict is the list of its items.

    The file also embeds the two checks that [HDF5Creator]
    ([dwi_ml/data/hdf5/hdf5_creation.py]) makes on its arguments without
    reading a file: [_analyse_config_file], on the groups config (the
    dict that [json.load] returns: the list of its groups in the order
    of its keys, each group the JSON value found under its key), and
    [_verify_subjects_list], on the names of the directories of the root
    folder. *)

From Stdlib Require Import ZArith QArith Qround Qpower Lia Lqa String.
From stdpp Require Import base list strings gmap.

Local Open Scope nat_scope.

(** ** Python results *)

Inductive exn :=
| ValueError | KeyError | IndexError | AssertionError | ZeroDivisionError
| OverflowError | MemoryError | TypeError.

(** [Hang]: a [while True] loop that was cut by its fuel. *)
Inductive result (A : Type) :=
| Ok (a : A)
| Raise (e : exn)
| Hang.
Arguments Ok {A} a.
Arguments Raise {A} e.
Arguments Hang {A}.

Definition bind {A B} (r : result A) (k : A -> result B) : result B :=
  match r with
  | Ok a => k a
  | Raise e => Raise e
  | Hang => Hang
  end.

Notation "'do' x <- c ; k" := (bind c (fun x => k))
  (at level 10, x name, c at level 100, k at level 200).
Notation "'do' ' p <- c ; k" := (bind c (fun x => match x with p => k end))
  (at level 10, p pattern, c at level 100, k at level 200).

(** Python truthiness of an optional int: [None] and [0] are falsy. *)
Definition truthy (o : option Z) : bool :=
  match o with
  | None => false
  | Some z => negb (z =? 0)%Z
  end.

(** ** float64

    A Python float and a numpy float64 are IEEE 754 binary64 numbers:
    a finite value [m * 2^e] with a mantissa of at most 53 bits and
    [-1074 <= e], plus or minus infinity, or NaN.  A finite float is
    held as the rational it stands for, in lowest terms; the two zeros
    are one value (they compare equal and add alike).  Each operation
    computes the exact result and rounds it to the nearest float, ties
    to the even mantissa ([round64]). *)

Definition Qltb (x y : Q) : bool := negb (Qle_bool y x).

Inductive float64 :=
| Fin (q : Q)
| Inf (negative : bool)
| NaN.

(** [2^e]. *)
Definition pow2 (e : Z) : Q :=
  if (0 <=? e)%Z then inject_Z (2 ^ e) else 1 # Z.to_pos (2 ^ (- e)).

(** For [x > 0], the [e] with [2^e <= x < 2^(e+1)]. *)
Definition floor_log2 (x : Q) : Z :=
  let e0 := (Z.log2 (Qnum x) - Z.log2 (Zpos (Qden x)))%Z in
  if Qle_bool (pow2 e0) x then e0 else (e0 - 1)%Z.

(** The nearest integer, ties to the even one. *)
Definition rne (y : Q) : Z :=
  let f := Qfloor y in
  match (y - inject_Z f ?= 1 # 2)%Q with
  | Lt => f
  | Gt => (f + 1)%Z
  | Eq => if Z.even f then f else (f + 1)%Z
  end.

(** The exponent of the float nearest to [x > 0]: 53 bits of mantissa,
    and subnormal numbers below [2^-1022]. *)
Definition exponent (x : Q) : Z := Z.max (floor_log2 x - 52) (-1074).

Definition round_val (x : Q) : Q :=
  (inject_Z (rne (x / pow2 (exponent x))) * pow2 (exponent x))%Q.

(** The float nearest to [x > 0]; what rounds to [2^1024] or above
    overflows to infinity. *)
Definition round_pos (x : Q) : float64 :=
  let v := round_val x in
  if Qle_bool (pow2 1024) v then Inf false else Fin (Qred v).

Definition round64 (x : Q) : float64 :=
  let x := Qred x in
  match (x ?= 0)%Q with
  | Eq => Fin 0
  | Gt => round_pos x
  | Lt =>
      match round_pos (- x) with
      | Fin v => Fin (Qred (- v))
      | _ => Inf true
      end
  end.

Definition fadd (a b : float64) : float64 :=
  match a, b with
  | NaN, _ | _, NaN => NaN
  | Inf s, Inf t => if Bool.eqb s t then Inf s else NaN
  | Inf s, Fin _ => Inf s
  | Fin _, Inf t => Inf t
  | Fin x, Fin y => round64 (x + y)
  end.

Definition fsub (a b : float64) : float64 :=
  match a, b with
  | NaN, _ | _, NaN => NaN
  | Inf s, Inf t => if Bool.eqb s t then NaN else Inf s
  | Inf s, Fin _ => Inf s
  | Fin _, Inf t => Inf (negb t)
  | Fin x, Fin y => round64 (x - y)
  end.

(** [a < b]. *)
Definition fltb (a b : float64) : bool :=
  match a, b with
  | NaN, _ | _, NaN => false
  | Inf true, Inf true => false
  | Inf true, _ => true
  | _, Inf true => false
  | Inf false, _ => false
  | Fin _, Inf false => true
  | Fin x, Fin y => Qltb x y
  end.

(** [a <= b]. *)
Definition fleb (a b : float64) : bool :=
  match a, b with
  | NaN, _ | _, NaN => false
  | Inf true, _ => true
  | _, Inf false => true
  | _, Inf true => false
  | Inf false, _ => false
  | Fin x, Fin y => Qle_bool x y
  end.

(** The float of an int that a float holds exactly. *)
Definition of_Z (z : Z) : float64 := Fin (inject_Z z).
Definition of_nat (n : nat) : float64 := of_Z (Z.of_nat n).

(** [a / b] on two Python ints: the float nearest to the quotient;
    OverflowError when the quotient is too large for a float. *)
Definition py_truediv (a b : Z) : result float64 :=
  if (b =? 0)%Z then Raise ZeroDivisionError
  else
    match round64 (inject_Z a / inject_Z b) with
    | Inf _ => Raise OverflowError
    | f => Ok f
    end.

(** ** numpy helpers *)

(** [np.cumsum]: the first entry is the first element, each later entry
    the previous entry plus the next element. *)
Fixpoint cumsum_from (acc : float64) (l : list float64) : list float64 :=
  match l with
  | [] => []
  | x :: l' => fadd acc x :: cumsum_from (fadd acc x) l'
  end.

Definition cumsum (l : list float64) : list float64 :=
  match l with
  | [] => []
  | x :: l' => x :: cumsum_from x l'
  end.

(** The unrolled loop of numpy's pairwise summation: [k] more blocks of
    eight elements are added to eight running sums. *)
Fixpoint add_blocks (r a : list float64) (k : nat)
  : list float64 * list float64 :=
  match k with
  | 0 => (r, a)
  | S k' => add_blocks (zip_with fadd r (take 8 a)) (drop 8 a) k'
  end.

Definition sum8 (r : list float64) : float64 :=
  match r with
  | [r0; r1; r2; r3; r4; r5; r6; r7] =>
      fadd (fadd (fadd r0 r1) (fadd r2 r3)) (fadd (fadd r4 r5) (fadd r6 r7))
  | _ => foldl fadd (Fin 0) r
  end.

(** numpy's summation of a contiguous float64 array (the pairwise sum
    of its add-reduce loop): a plain loop below 8 elements, eight running
    sums up to 128 elements, the two halves above.  [fuel] bounds the
    depth of the halving; the length of the array is enough. *)
Fixpoint pairwise_sum (fuel : nat) (a : list float64) : float64 :=
  let n := length a in
  if n <? 8 then foldl fadd (Fin 0) a
  else if n <=? 128 then
    let '(r, rest) := add_blocks (take 8 a) (drop 8 a) (n / 8 - 1) in
    foldl fadd (sum8 r) rest
  else
    match fuel with
    | 0 => foldl fadd (Fin 0) a
    | S fuel' =>
        let n2 := n / 2 - (n / 2) mod 8 in
        fadd (pairwise_sum fuel' (take n2 a)) (pairwise_sum fuel' (drop n2 a))
    end.

(** [np.sum] of a float64 array. *)
Definition np_sum (a : list float64) : float64 := pairwise_sum (length a) a.

(** Boolean-mask indexing [a[selected]]. *)
Fixpoint bool_index {A} (a : list A) (selected : list bool) : list A :=
  match a, selected with
  | x :: a', b :: s' => if b then x :: bool_index a' s' else bool_index a' s'
  | _, _ => []
  end.

(** A Python [slice(start, stop)]. *)
Definition slice : Type := nat * nat.
Definition slice_start (s : slice) : nat := fst s.

(** [a[s]]: basic slicing clips to the array. *)
Definition get_slice {A} (a : list A) (s : slice) : list A :=
  take (snd s - fst s) (drop (fst s) a).

(** [np.sum] of a 0/1 array. *)
Definition count_ones (l : list bool) : nat := length (filter (fun b => b = true) l).

(** [np.flatnonzero]. *)
Definition flatnonzero (l : list bool) : list nat :=
  filter (fun i => l !! i = Some true) (seq 0 (length l)).

(** [a[ids] = 0] on the usage mask (fancy-index assignment). *)
Definition mask_out (mask : list bool) (ids : list nat) : list bool :=
  foldl (fun m i => <[i := false]> m) mask ids.

(** Fancy indexing [a[ids]]; an id past the end raises IndexError. *)
Fixpoint fancy_index (a : list float64) (ids : list nat)
  : result (list float64) :=
  match ids with
  | [] => Ok []
  | i :: ids' =>
      match a !! i with
      | None => Raise IndexError
      | Some x => do xs <- fancy_index a ids'; Ok (x :: xs)
      end
  end.

(** ** The numpy generator *)

Record RandomState := { raw : nat -> nat; pos : nat }.

Definition next_raw (g : RandomState) : nat * RandomState :=
  (raw g (pos g), {| raw := raw g; pos := S (pos g) |}).

(** [size] independent draws from [a], each one any element of [a]. *)
Fixpoint draw_many (a : list nat) (size : nat) (g : RandomState)
  : list nat * RandomState :=
  match size with
  | 0 => ([], g)
  | S n =>
      let '(r, g1) := next_raw g in
      let '(xs, g2) := draw_many a n g1 in
      (nth (r mod length a) a 0 :: xs, g2)
  end.

(** The arrays numpy can allocate hold fewer than [2^52] eight-byte
    items: [2^55] bytes are more than the address space of a process.
    Below this bound an allocation is taken to succeed: the memory of
    the machine is not bounded any further. *)
Definition max_array_length : Z := 2 ^ 52.

(** [np_rng.choice(a, size)]: draws with replacement (numpy's default).
    A size that does not fit a C long is refused with OverflowError, an
    array of [2^60] items or more with ValueError, and one that cannot be
    allocated with MemoryError. *)
Definition choice (a : list nat) (size : Z) (g : RandomState)
  : result (list nat * RandomState) :=
  if (size <? 0)%Z then Raise ValueError
  else if bool_decide (a = []) && (0 <? size)%Z then Raise ValueError
  else if (2 ^ 63 <=? size)%Z then Raise OverflowError
  else if (2 ^ 60 <=? size)%Z then Raise ValueError
  else if (max_array_length <=? size)%Z then Raise MemoryError
  else Ok (draw_many a (Z.to_nat size) g).

(** [size] successive draws among [cands], each draw removed from the
    candidates. *)
Fixpoint draw_distinct (cands : list nat) (size : nat) (g : RandomState)
  : list nat * RandomState :=
  match size with
  | 0 => ([], g)
  | S n =>
      match cands with
      | [] => ([], g)
      | _ :: _ =>
          let '(r, g1) := next_raw g in
          let i := r mod length cands in
          let '(xs, g2) := draw_distinct (delete i cands) n g1 in
          (nth i cands 0 :: xs, g2)
      end
  end.

Definition Qnonzero (w : Q) : bool := negb (Qeq_bool w 0).

Definition count_nonzero (p : list Q) : nat :=
  length (filter (fun w => Qnonzero w = true) p).

(** [np_rng.choice(np.arange(n), size=size, replace=False, p=p)]: [size]
    distinct indices, each of nonzero probability. *)
Definition choice_p (n : nat) (size : Z) (p : list Q) (g : RandomState)
  : result (list nat * RandomState) :=
  if (size <? 0)%Z then Raise ValueError
  else if negb (length p =? n) then Raise ValueError
  else if (Z.of_nat (count_nonzero p) <? size)%Z then Raise ValueError
  else
    let cands := filter (fun i => Qnonzero (nth i p 0%Q) = true) (seq 0 n) in
    Ok (draw_distinct cands (Z.to_nat size) g).

(** ** The dataset, as the sampler reads it *)

(** Modelled from the spec: the class [MultisubjectSubset] (module
    dwi_ml.data.dataset.multi_subject_containers) is not among the
    sources; these are the attributes the sampler reads, one entry per
    streamline group.  [streamline_ids_per_subj[g]] maps the subjects
    [0 .. n-1], in this order, to their contiguous slice of global ids;
    [streamline_lengths_mm[g]] gives a length per global id, in a
    float64 array (the lengths that [HDF5Creator] stores are the float64
    lengths that dipy computes). *)
Record MultisubjectSubset := {
  streamline_groups : list string;
  total_nb_streamlines : list nat;
  streamline_ids_per_subj : list (list slice);
  streamline_lengths_mm : list (list float64);
  subjs_data_list : nat   (* len(subjs_data_list) *)
}.

(** [list.index(x)]. *)
Fixpoint list_index (x : string) (l : list string) : result nat :=
  match l with
  | [] => Raise ValueError
  | y :: l' => if String.eqb y x then Ok 0 else do i <- list_index x l'; Ok (S i)
  end.

(** [a[i]] on a Python list. *)
Definition getitem {A} (a : list A) (i : nat) : result A :=
  match a !! i with
  | Some x => Ok x
  | None => Raise IndexError
  end.

(** ** The sampler object *)

Record DWIMLBatchSampler := {
  dataset : MultisubjectSubset;
  streamline_group_name : string;
  nb_subjects_per_batch : option Z;
  cycles : option Z;
  nb_streamlines_per_chunk : Z;
  batch_size : Z;
  batch_size_units : string;
  streamline_group_idx : nat;
  rng : Z;
  np_rng : RandomState
}.

(** Process-wide state touched by the constructor: torch's global seed
    and the records sent to the root logger. *)
Record process := {
  torch_seed : option Z;
  root_log : list string
}.

Definition torch_manual_seed (seed : Z) (w : process) : process :=
  {| torch_seed := Some seed; root_log := root_log w |}.

Definition logging_warning (msg : string) (w : process) : process :=
  {| torch_seed := torch_seed w; root_log := root_log w ++ [msg] |}.

Definition chunk_ignored_warning : string :=
  "With a max_batch_size computed in terms of number of streamlines, the chunk size is not used. Ignored".

(** The generator at the start of the raw stream [mt seed]. *)
Definition seeded (mt : Z -> nat -> nat) (seed : Z) : RandomState :=
  {| raw := mt seed; pos := 0 |}.

(** [np.random.RandomState(seed)] on an int: the seed must be between 0
    and [2^32 - 1]; [mt] gives the raw stream of a seed. *)
Definition np_random_RandomState (mt : Z -> nat -> nat) (seed : Z)
  : result RandomState :=
  if (seed <? 0)%Z || (2 ^ 32 <=? seed)%Z then Raise ValueError
  else Ok (seeded mt seed).

(** [DWIMLBatchSampler.__init__].  [batch_size] is typed [int], so the
    [isinstance] test holds. *)
Definition __init__ (mt : Z -> nat -> nat) (dataset : MultisubjectSubset)
    (streamline_group_name : string) (batch_size : Z)
    (batch_size_units : string) (nb_streamlines_per_chunk : Z)
    (rng : Z) (nb_subjects_per_batch cycles : option Z) (w : process)
  : result DWIMLBatchSampler * process :=
  if (batch_size <=? 0)%Z then (Raise ValueError, w)
  else if negb (String.eqb batch_size_units "nb_streamlines"
                || String.eqb batch_size_units "length_mm")
  then (Raise ValueError, w)
  else
    let w1 :=
      if String.eqb batch_size_units "nb_streamlines"
         && negb (nb_streamlines_per_chunk =? batch_size)%Z
      then logging_warning chunk_ignored_warning w else w in
    if truthy cycles && negb (truthy nb_subjects_per_batch)
    then (Raise ValueError, w1)
    else
      match list_index streamline_group_name (streamline_groups dataset) with
      | Ok idx =>
          match np_random_RandomState mt rng with
          | Ok np_rng =>
              (Ok {| dataset := dataset;
                     streamline_group_name := streamline_group_name;
                     nb_subjects_per_batch := nb_subjects_per_batch;
                     cycles := cycles;
                     nb_streamlines_per_chunk :=
                       if String.eqb batch_size_units "nb_streamlines"
                       then batch_size else nb_streamlines_per_chunk;
                     batch_size := batch_size;
                     batch_size_units := batch_size_units;
                     streamline_group_idx := idx;
                     rng := rng;
                     np_rng := np_rng |},
               torch_manual_seed rng w1)
          | Raise e => (Raise e, w1)
          | Hang => (Hang, w1)
          end
      | Raise e => (Raise e, w1)
      | Hang => (Hang, w1)
      end.

(** ** Sampling *)

(** [_compute_and_adjust_batch_size]: the cost of each chosen id, a
    float64 array: the lengths of the ids, or [np.ones]. *)
Definition _compute_and_adjust_batch_size (self : DWIMLBatchSampler)
    (chosen_global_ids : list nat) : result (list float64) :=
  if String.eqb (batch_size_units self) "length_mm" then
    do l_mm <- getitem (streamline_lengths_mm (dataset self))
                       (streamline_group_idx self);
    fancy_index l_mm chosen_global_ids
  else Ok (replicate (length chosen_global_ids) (Fin 1)).

(** What [_get_a_chunk_of_streamlines] returns: the early return has
    four components, the final one five. *)
Inductive chunk_return :=
| Return4 (chosen_global_ids chosen_relative_ids : list nat)
          (no_streamlines_remaining reached_max_heaviness : bool)
| Return5 (chosen_global_ids chosen_relative_ids : list nat)
          (computed_chunk_size : float64)
          (no_streamlines_remaining reached_max_heaviness : bool).

Definition _get_a_chunk_of_streamlines (self : DWIMLBatchSampler)
    (subj_slice : slice) (global_unused_streamlines : list bool)
    (current_subbatch_size max_subbatch_size : float64) (g : RandomState)
  : result (chunk_return * RandomState) :=
  let subj_unused_ids_in_global :=
    fmap (fun i => i + slice_start subj_slice)
        (flatnonzero (get_slice global_unused_streamlines subj_slice)) in
  if length subj_unused_ids_in_global =? 0 then
    Ok (Return4 [] [] true false, g)
  else
    do '(chosen_global_ids, g1) <-
      choice subj_unused_ids_in_global (nb_streamlines_per_chunk self) g;
    do size_per_streamline <-
      _compute_and_adjust_batch_size self chosen_global_ids;
    let computed_chunk_size := np_sum size_per_streamline in
    let '(chosen_global_ids, size_per_streamline, reached_max_heaviness) :=
      if fleb max_subbatch_size
              (fadd current_subbatch_size computed_chunk_size)
      then
        let cumulative_sum := cumsum size_per_streamline in
        let selected :=
          fmap (fun c => fltb c (fsub max_subbatch_size current_subbatch_size))
              cumulative_sum in
        (bool_index chosen_global_ids selected,
         bool_index size_per_streamline selected, true)
      else (chosen_global_ids, size_per_streamline, false) in
    let computed_chunk_size := np_sum size_per_streamline in
    let chosen_relative_ids :=
      fmap (fun i => i - slice_start subj_slice) chosen_global_ids in
    Ok (Return5 chosen_global_ids chosen_relative_ids computed_chunk_size
                false reached_max_heaviness, g1).

(** The [while True] loop of [_sample_streamlines_for_subj].  The caller
    unpacks five names: the four-component return raises ValueError. *)
Fixpoint subj_loop (fuel : nat) (self : DWIMLBatchSampler) (subj_slice : slice)
    (global_unused_streamlines : list bool) (max_batch_size_per_subj : float64)
    (total_subj_batch_size : float64) (sampled_ids : list nat) (g : RandomState)
  : result (list nat * list bool * RandomState) :=
  match fuel with
  | 0 => Hang
  | S fuel' =>
      do '(ret, g1) <-
        _get_a_chunk_of_streamlines self subj_slice global_unused_streamlines
          total_subj_batch_size max_batch_size_per_subj g;
      match ret with
      | Return4 _ _ _ _ => Raise ValueError
      | Return5 subbatch_global_ids subbatch_rel_ids subj_subbatch_size
                no_streamlines_left reached_max =>
          if no_streamlines_left then
            Ok (sampled_ids, global_unused_streamlines, g1)
          else
            let mask' := mask_out global_unused_streamlines subbatch_global_ids in
            let sampled_ids' := sampled_ids ++ subbatch_rel_ids in
            if reached_max then Ok (sampled_ids', mask', g1)
            else subj_loop fuel' self subj_slice mask' max_batch_size_per_subj
                   (fadd total_subj_batch_size subj_subbatch_size) sampled_ids' g1
      end
  end.

(** [ids_per_subjs[subj]]. *)
Definition dict_getitem (ids_per_subjs : list slice) (subj : nat) : result slice :=
  match ids_per_subjs !! subj with
  | Some s => Ok s
  | None => Raise KeyError
  end.

(** [_sample_streamlines_for_subj]: the ids sampled for the subject, with
    the usage mask and the generator as the call leaves them. *)
Definition _sample_streamlines_for_subj (fuel : nat) (self : DWIMLBatchSampler)
    (subj : nat) (ids_per_subjs : list slice)
    (global_unused_streamlines : list bool) (max_batch_size_per_subj : float64)
    (g : RandomState) : result (list nat * list bool * RandomState) :=
  do subj_slice <- dict_getitem ids_per_subjs subj;
  subj_loop fuel self subj_slice global_unused_streamlines
    max_batch_size_per_subj (Fin 0) [] g.

(** ** The generator [__iter__] *)

Definition batch : Type := list (nat * list nat).

(** [for subj in sampled_subjs: ...; batch_ids_per_subj.append(...)].
    A subject's loop runs at most once per unused id plus once, when a
    chunk holds an id. *)
Fixpoint for_subjs (self : DWIMLBatchSampler) (ids_per_subjs : list slice)
    (max_batch_size_per_subj : float64) (sampled_subjs : list nat)
    (global_unused_streamlines : list bool) (g : RandomState)
    (batch_ids_per_subj : batch) : result (batch * list bool * RandomState) :=
  match sampled_subjs with
  | [] => Ok (batch_ids_per_subj, global_unused_streamlines, g)
  | subj :: rest =>
      do '(sampled_ids, mask1, g1) <-
        _sample_streamlines_for_subj (S (length global_unused_streamlines))
          self subj ids_per_subjs global_unused_streamlines
          max_batch_size_per_subj g;
      for_subjs self ids_per_subjs max_batch_size_per_subj rest mask1 g1
        (batch_ids_per_subj ++ [(subj, sampled_ids)])
  end.

(** The frame of the generator at its two loop heads: the [while True]
    that selects subjects, and the [for _ in iterator] over cycles
    ([iterator] is what is left of [range(cycles)], or [None] for
    [iter(int, 1)], which never ends). *)
Inductive frame :=
| AtSelect (ids_per_subjs : list slice) (global_unused_streamlines : list bool)
| AtCycle (ids_per_subjs : list slice) (global_unused_streamlines : list bool)
          (sampled_subjs : list nat) (max_batch_size_per_subj : float64)
          (iterator : option nat).

Inductive step_result :=
| Yield (b : batch) (fr : frame) (g : RandomState)
| Continue (fr : frame) (g : RandomState)
| StopIteration
| Raises (e : exn)
| Hangs.

Definition QofNat (n : nat) : Q := inject_Z (Z.of_nat n).

(** The head of the [while True] loop, up to the cycle loop.  The counts
    are sums of an int array.  A weight is only tested for being zero,
    which the float64 quotient of two counts is when the exact quotient
    is: the weights are held as the exact quotients.
    [self.batch_size / nb_subjects] divides two ints. *)
Definition select_subjects (self : DWIMLBatchSampler)
    (ids_per_subjs : list slice) (mask : list bool) (g : RandomState)
  : step_result :=
  let streamlines_per_subj :=
    fmap (fun s => count_ones (get_slice mask s)) ids_per_subjs in
  if negb (sum_list streamlines_per_subj =? count_ones mask) then
    Raises AssertionError
  else if sum_list streamlines_per_subj =? 0 then StopIteration
  else
    let selection :=
      if truthy (nb_subjects_per_batch self) then
        let weights :=
          fmap (fun c => (QofNat c / QofNat (sum_list streamlines_per_subj))%Q)
              streamlines_per_subj in
        let nb_subjects :=
          Z.min (default 0%Z (nb_subjects_per_batch self))
                (Z.of_nat (count_nonzero weights)) in
        do '(sampled_subjs, g1) <-
          choice_p (subjs_data_list (dataset self)) nb_subjects weights g;
        Ok (sampled_subjs, nb_subjects, g1)
      else
        Ok (seq 0 (length ids_per_subjs), Z.of_nat (length ids_per_subjs), g) in
    match selection with
    | Ok (sampled_subjs, nb_subjects, g1) =>
        match py_truediv (batch_size self) nb_subjects with
        | Ok max_batch_size_per_subj =>
            let iterator :=
              if truthy (cycles self)
              then Some (Z.to_nat (default 0%Z (cycles self))) else None in
            Continue (AtCycle ids_per_subjs mask sampled_subjs
                              max_batch_size_per_subj iterator) g1
        | Raise e => Raises e
        | Hang => Hangs
        end
    | Raise e => Raises e
    | Hang => Hangs
    end.

(** One pass of the cycle loop: the subject loop, then break or yield. *)
Definition one_cycle (self : DWIMLBatchSampler) (ids_per_subjs : list slice)
    (mask : list bool) (sampled_subjs : list nat)
    (max_batch_size_per_subj : float64)
    (iterator : option nat) (g : RandomState) : step_result :=
  match iterator with
  | Some 0 => Continue (AtSelect ids_per_subjs mask) g
  | _ =>
      match for_subjs self ids_per_subjs max_batch_size_per_subj
                      sampled_subjs mask g [] with
      | Ok (batch_ids_per_subj, mask1, g1) =>
          if length batch_ids_per_subj =? 0
          then Continue (AtSelect ids_per_subjs mask1) g1
          else Yield batch_ids_per_subj
                 (AtCycle ids_per_subjs mask1 sampled_subjs
                          max_batch_size_per_subj (pred <$> iterator)) g1
      | Raise e => Raises e
      | Hang => Hangs
      end
  end.

Definition step (self : DWIMLBatchSampler) (fr : frame) (g : RandomState)
  : step_result :=
  match fr with
  | AtSelect ids_per_subjs mask => select_subjects self ids_per_subjs mask g
  | AtCycle ids_per_subjs mask sampled_subjs max_batch_size_per_subj iterator =>
      one_cycle self ids_per_subjs mask sampled_subjs max_batch_size_per_subj
                iterator g
  end.

(** How an iteration stands after some steps. *)
Inductive status :=
| Exhausted             (* the generator returned: StopIteration *)
| Failed (e : exn)      (* an exception left the generator *)
| Diverged              (* a subject loop never ended *)
| Suspended.            (* still running *)

Fixpoint run (fuel : nat) (self : DWIMLBatchSampler) (fr : frame)
    (g : RandomState) : list batch * status :=
  match fuel with
  | 0 => ([], Suspended)
  | S fuel' =>
      match step self fr g with
      | Yield b fr' g' =>
          let '(bs, s) := run fuel' self fr' g' in (b :: bs, s)
      | Continue fr' g' => run fuel' self fr' g'
      | StopIteration => ([], Exhausted)
      | Raises e => ([], Failed e)
      | Hangs => ([], Diverged)
      end
  end.

(** The locals set before the [while True] loop. *)
Definition iter_start (self : DWIMLBatchSampler) : result frame :=
  do total <- getitem (total_nb_streamlines (dataset self))
                      (streamline_group_idx self);
  do ids_per_subjs <- getitem (streamline_ids_per_subj (dataset self))
                              (streamline_group_idx self);
  Ok (AtSelect ids_per_subjs (replicate total true)).

(** [__iter__], run for [fuel] steps: the batches yielded so far and how
    the iteration stands. *)
Definition __iter__ (fuel : nat) (self : DWIMLBatchSampler)
  : list batch * status :=
  match iter_start self with
  | Ok fr => run fuel self fr (np_rng self)
  | Raise e => ([], Failed e)
  | Hang => ([], Diverged)
  end.

(** ** [DWIMLBatchSampler.params] *)

(** The values of the [params] dict. *)
Inductive pyval :=
| PyStr (s : string)
| PyInt (z : Z)
| PyNone
| PyType (name : string).

Definition py_optional_int (o : option Z) : pyval :=
  match o with
  | Some z => PyInt z
  | None => PyNone
  end.

(** The [params] property: the dict, in the order of its literal. *)
Definition params (self : DWIMLBatchSampler) : list (string * pyval) :=
  [("streamline_group_name"%string, PyStr (streamline_group_name self));
   ("batch_size"%string, PyInt (batch_size self));
   ("batch_size_units"%string, PyStr (batch_size_units self));
   ("nb_streamlines_per_chunk"%string, PyInt (nb_streamlines_per_chunk self));
   ("rng"%string, PyInt (rng self));
   ("nb_subjects_per_batch"%string,
    py_optional_int (nb_subjects_per_batch self));
   ("cycles"%string, py_optional_int (cycles self));
   ("type"%string, PyType "DWIMLBatchSampler")].

(** ** [HDF5Creator], the checks of its configuration
    (dwi_ml/data/hdf5/hdf5_creation.py) *)

(** A value that [json.load] gives: [None], a bool, a number (an int
    or a float), a str, a list or a dict. *)
#[warnings="-register-all"]
Inductive json :=
| JNull
| JBool (b : bool)
| JNum (q : Q)
| JStr (s : string)
| JArr (l : list json)
| JObj (m : gmap string json).

(** [v == s] for a str [s]: only a str equals a str. *)
Definition json_is (v : json) (s : string) : bool :=
  match v with
  | JStr t => String.eqb t s
  | _ => false
  end.

(** [sub in s] on two strs: [sub] occurs in [s]. *)
Fixpoint str_contains (sub s : string) : bool :=
  String.prefix sub s
  || match s with
     | EmptyString => false
     | String _ s' => str_contains sub s'
     end.

(** [key in v] for a str [key]: a key of a dict, a substring of a str,
    an element of a list; the other values are not iterable. *)
Definition json_contains (key : string) (v : json) : result bool :=
  match v with
  | JObj m => Ok (bool_decide (is_Some (m !! key)))
  | JStr s => Ok (str_contains key s)
  | JArr l => Ok (existsb (fun x => json_is x key) l)
  | JNull | JBool _ | JNum _ => Raise TypeError
  end.

(** [v[key]] for a str [key]: only a dict is indexed by a str. *)
Definition json_getitem (v : json) (key : string) : result json :=
  match v with
  | JObj m =>
      match m !! key with
      | Some x => Ok x
      | None => Raise KeyError
      end
  | _ => Raise TypeError
  end.

Definition std_choices : list string :=
  ["all"; "independent"; "per_file"; "none"]%string.

(** The loop of [_analyse_config_file] over the groups of the config, in
    the order of its keys.  [groups_config] is documented as a dict; a
    dict has each key once, so [self.groups_config[group]] is the entry
    paired with [group], whatever JSON value it is. *)
Fixpoint analyse_groups (groups : list (string * json))
    (volume_groups streamline_groups : list string)
  : result (list string * list string) :=
  match groups with
  | [] => Ok (volume_groups, streamline_groups)
  | (group, cfg) :: rest =>
      do has_type <- json_contains "type" cfg;
      if negb has_type then Raise KeyError
      else
        do has_files <- json_contains "files" cfg;
        if negb has_files then Raise KeyError
        else
          do ty <- json_getitem cfg "type";
          if json_is ty "volume" then
            do has_std <- json_contains "standardization" cfg;
            if negb has_std then Raise KeyError
            else
              do std <- json_getitem cfg "standardization";
              if negb (existsb (json_is std) std_choices)
              then Raise KeyError
              else analyse_groups rest (volume_groups ++ [group])
                                  streamline_groups
          else
            do ty <- json_getitem cfg "type";
            if json_is ty "streamlines" then
              analyse_groups rest volume_groups (streamline_groups ++ [group])
            else Raise ValueError
  end.

(** [HDF5Creator._analyse_config_file]. *)
Definition _analyse_config_file (groups_config : list (string * json))
  : result (list string * list string) :=
  analyse_groups groups_config [] [].

(** [HDF5Creator._verify_subjects_list].  [root_dirs] are the names of
    the directories of the root folder; [self_all_subjs] is the
    attribute [self.all_subjs].  In the method the local list
    [all_subjs] is the one both comprehensions read.  The result is the
    list of subjects reported as ignored. *)
Definition _verify_subjects_list (root_dirs : list string)
    (self_all_subjs : list string) : result (list string) :=
  let all_subjs := root_dirs in
  if length all_subjs =? 0 then Raise ValueError
  else
    let non_existing_subjs := filter (fun s => s ∉ all_subjs) all_subjs in
    if 0 <? length non_existing_subjs then Raise ValueError
    else
      let ignored_subj := filter (fun s => s ∉ all_subjs) all_subjs in
      Ok ignored_subj.

(** * Notions used by the properties *)

(** Global id [x] is still available. *)
Definition avail (mask : list bool) (x : nat) : Prop := mask !! x = Some true.

(** [mask'] is [mask] with some more ids used. *)
Definition mask_le (mask' mask : list bool) : Prop :=
  length mask' = length mask ∧ ∀ x, avail mask' x → avail mask x.

(** A rational that a float holds: [m * 2^e] with a mantissa [m] of at
    most 53 bits. *)
Definition representable (v : Q) : Prop :=
  ∃ m e, (v == inject_Z m * pow2 e)%Q ∧ (0 < m < 2 ^ 53)%Z ∧ (-1074 <= e)%Z.

(** A float that is zero, positive or plus infinity. *)
Definition nonneg_float (f : float64) : Prop :=
  match f with
  | Fin v => (0 <= v)%Q ∧ round64 v = Fin v
  | Inf negative => negative = false
  | NaN => False
  end.

(** The cost of a global id in the sampler's unit. *)
Definition cost (self : DWIMLBatchSampler) (x : nat) : float64 :=
  if String.eqb (batch_size_units self) "length_mm" then
    nth x (nth (streamline_group_idx self)
               (streamline_lengths_mm (dataset self)) []) (Fin 0)
  else Fin 1.

(** The lengths of the sampler's group are physical lengths. *)
Definition lengths_nonneg (self : DWIMLBatchSampler) : Prop :=
  Forall nonneg_float
    (nth (streamline_group_idx self) (streamline_lengths_mm (dataset self)) []).

(** The exact value of a finite float. *)
Definition exact (f : float64) : Q :=
  match f with
  | Fin v => v
  | _ => 0
  end.

(** The exact sum of the values of floats. *)
Definition exact_sum (l : list float64) : Q := foldr Qplus 0%Q (exact <$> l).

(** The selection [cumulative_sum < allowance]. *)
Definition selected (allowance : float64) (sums : list float64) : list bool :=
  (fun c => fltb c allowance) <$> sums.

Definition unused_ids (mask : list bool) (s : slice) : list nat :=
  (fun i => i + slice_start s) <$> flatnonzero (get_slice mask s).

(** A pair of a batch, with its relative ids mapped back to global ids. *)
Definition pair_global_ids (ids_per_subjs : list slice) (p : nat * list nat)
  : list nat :=
  match ids_per_subjs !! p.1 with
  | Some s => (fun r => r + slice_start s) <$> p.2
  | None => []
  end.

(** The global ids of a batch. *)
Definition batch_global_ids (ids_per_subjs : list slice) (b : batch) : list nat :=
  b ≫= pair_global_ids ids_per_subjs.

Definition frame_ids (fr : frame) : list slice :=
  match fr with
  | AtSelect ids _ => ids
  | AtCycle ids _ _ _ _ => ids
  end.

Definition frame_mask (fr : frame) : list bool :=
  match fr with
  | AtSelect _ mask => mask
  | AtCycle _ mask _ _ _ => mask
  end.

(** The subject has unused streamlines left. *)
Definition has_supply (ids : list slice) (mask : list bool) (subj : nat) : Prop :=
  ∃ s, ids !! subj = Some s ∧ unused_ids mask s ≠ [].

(** What a frame promises about the cycle it is in: the per-subject
    budget is the batch size over the number of selected subjects. *)
Definition budget_split (self : DWIMLBatchSampler) (fr : frame) : Prop :=
  match fr with
  | AtSelect _ _ => True
  | AtCycle _ _ subjs mx _ =>
      subjs ≠ []
      ∧ py_truediv (batch_size self) (Z.of_nat (length subjs)) = Ok mx
  end.

(** The global ids that the subject loop gathers under the budget [mx],
    from the running total [total] on: whole chunks, each of which
    leaves the running total strictly below the budget, then what is
    kept of the last chunk, each of whose running sums is strictly below
    what is left of the budget.  Totals, sums and comparisons are the
    float64 ones of the code. *)
Inductive gathered (self : DWIMLBatchSampler) (mx : float64)
  : float64 → list nat → Prop :=
| gathered_kept total kept :
    length kept ≤ Z.to_nat (nb_streamlines_per_chunk self) →
    Forall (fun c => fltb c (fsub mx total) = true)
           (cumsum (cost self <$> kept)) →
    gathered self mx total kept
| gathered_chunk total chunk rest :
    length chunk = Z.to_nat (nb_streamlines_per_chunk self) →
    fltb (fadd total (np_sum (cost self <$> chunk))) mx = true →
    gathered self mx (fadd total (np_sum (cost self <$> chunk))) rest →
    gathered self mx total (chunk ++ rest).

(** Each pair of the batch names a known subject, and its ids are
    gathered under the per-subject budget of the batch. *)
Definition within_budget (self : DWIMLBatchSampler) (ids : list slice)
    (b : batch) : Prop :=
  ∃ mx,
    py_truediv (batch_size self) (Z.of_nat (length b)) = Ok mx
    ∧ Forall (fun p =>
                is_Some (ids !! p.1)
                ∧ gathered self mx (Fin 0) (pair_global_ids ids p))
             b.

Record scenario_A_config (self : DWIMLBatchSampler) : Prop := {
  scA_units : batch_size_units self = "nb_streamlines"%string;
  scA_batch : batch_size self = 5%Z;
  scA_chunk : nb_streamlines_per_chunk self = 5%Z;
  scA_subjects : nb_subjects_per_batch self = Some 1%Z;
  scA_cycles : cycles self = Some 1%Z
}.

Definition scenario_A_frame (fr : frame) : Prop :=
  match fr with
  | AtSelect _ _ => True
  | AtCycle _ _ subjs mx it =>
      it = Some 0
      ∨ (it = Some 1 ∧ mx = Fin 5 ∧ length subjs = 1)
  end.

Definition one_subject_four_ids (b : batch) : Prop :=
  ∃ subj rel, b = [(subj, rel)] ∧ length rel = 4.

(** A dataset with the single group "streamlines". *)
Definition single_group (slices : list slice) (total : nat)
    (lengths : list float64) : MultisubjectSubset :=
  {| streamline_groups := ["streamlines"%string];
     total_nb_streamlines := [total];
     streamline_ids_per_subj := [slices];
     streamline_lengths_mm := [lengths];
     subjs_data_list := length slices |}.

(** A generator whose raw draws are the given list, then zeros. *)
Definition stream_of (l : list nat) : Z → nat → nat := fun _ i => nth i l 0.

Definition fresh_process : process := {| torch_seed := None; root_log := [] |}.

(** The sampler that [__init__] builds on a single-group dataset. *)
Definition sampler_on (mt : Z → nat → nat) (d : MultisubjectSubset)
    (batch_size : Z) (units : string) (chunk : Z) (nb_subjects cycles : option Z)
  : DWIMLBatchSampler :=
  {| dataset := d; streamline_group_name := "streamlines";
     nb_subjects_per_batch := nb_subjects; cycles := cycles;
     nb_streamlines_per_chunk := chunk; batch_size := batch_size;
     batch_size_units := units; streamline_group_idx := 0;
     rng := 1234; np_rng := seeded mt 1234 |}.

Definition scenario_A_dataset : MultisubjectSubset :=
  single_group [(0, 10); (10, 15)] 15 [].

Definition scenario_A_sampler (mt : Z → nat → nat) : DWIMLBatchSampler :=
  sampler_on mt scenario_A_dataset 5 "nb_streamlines" 5 (Some 1%Z) (Some 1%Z).

(** Lengths [50, 60, 5] for one subject; budget in mm. *)
Definition scenario_C_dataset : MultisubjectSubset :=
  single_group [(0, 3)] 3 [Fin 50; Fin 60; Fin 5].

Definition scenario_C_sampler (mt : Z → nat → nat) (budget : Z)
  : DWIMLBatchSampler :=
  sampler_on mt scenario_C_dataset budget "length_mm" 3 None None.

(** The draws of scenario C: the chunk comes out as [0, 1, 2]. *)
Definition scenario_C_draws : Z → nat → nat := stream_of [0; 1; 2].

(** One subject with one streamline, and a budget of one streamline. *)
Definition tiny_budget_sampler (mt : Z → nat → nat) : DWIMLBatchSampler :=
  sampler_on mt (single_group [(0, 1)] 1 []) 1 "nb_streamlines" 1 None None.

(** One subject whose only streamline is longer than the budget. *)
Definition long_streamline_sampler (mt : Z → nat → nat) : DWIMLBatchSampler :=
  sampler_on mt (single_group [(0, 1)] 1 [Fin 200]) 100 "length_mm" 1 None None.

(** Two streamlines, count budget 3, draws that repeat an id. *)
Definition repeated_draw_sampler : DWIMLBatchSampler :=
  sampler_on (stream_of []) (single_group [(0, 2)] 2 []) 3 "nb_streamlines" 3
             None None.

(** The number of leading running sums that are strictly below
    [allowance]. *)
Fixpoint longest_prefix_below (allowance : float64) (sums : list float64)
  : nat :=
  match sums with
  | [] => 0
  | c :: sums' =>
      if fltb c allowance then S (longest_prefix_below allowance sums') else 0
  end.

(** Ten streamlines of 0.1 mm (the float nearest to 0.1) for one
    subject, under a budget of 1 mm, in one chunk of ten draws. *)
Definition tenth : float64 := round64 (1 # 10).

Definition ten_tenths_sampler : DWIMLBatchSampler :=
  sampler_on (stream_of [0; 1; 2; 3; 4; 5; 6; 7; 8; 9])
             (single_group [(0, 10)] 10 (replicate 10 tenth))
             1 "length_mm" 10 None None.

(** One streamline of [2^53] mm, fifteen of 1 mm and one of 4 mm for one
    subject, under a budget of [2^53 + 2] mm, in one chunk of seventeen
    draws. *)
Definition long_and_short_sampler : DWIMLBatchSampler :=
  sampler_on (stream_of (seq 0 17))
             (single_group [(0, 17)] 17
                (of_Z (2 ^ 53) :: replicate 15 (Fin 1) ++ [Fin 4]))
             (2 ^ 53 + 2) "length_mm" 17 None None.

(** ** Notions used by the determinism of the sampler *)

(** Two generators that stand at the same position of streams giving
    the same raw draws. *)
Definition same_draws (g g' : RandomState) : Prop :=
  pos g = pos g' ∧ ∀ i, raw g i = raw g' i.




(** ** Notions used by the further properties *)

(** ** Notions used by the properties of the constructor *)

(** [d[key]] on a dict given by its items. *)
Fixpoint dict_get (d : list (string * pyval)) (key : string) : option pyval :=
  match d with
  | [] => None
  | (k, v) :: d' => if String.eqb k key then Some v else dict_get d' key
  end.

(** The arguments that pass the checks of [__init__]. *)
Definition valid_arguments (d : MultisubjectSubset) (name : string) (bs : Z)
    (units : string) (seed : Z) (nsub cyc : option Z) : Prop :=
  (0 < bs)%Z
  ∧ (units = "nb_streamlines"%string ∨ units = "length_mm"%string)
  ∧ (truthy cyc = true → truthy nsub = true)
  ∧ name ∈ streamline_groups d
  ∧ (0 <= seed < 2 ^ 32)%Z.

(** ** Notions used by the properties of the config checks *)

(** The entry [key] of a group that is a dict. *)
Definition group_entry (g : string * json) (key : string) : option json :=
  match g.2 with
  | JObj m => m !! key
  | _ => None
  end.

(** Whether the group is a dict whose type is the string [ty]. *)
Definition group_has_type (ty : string) (g : string * json) : bool :=
  match group_entry g "type" with
  | Some v => json_is v ty
  | None => false
  end.

(** The names of the groups of type [ty], in the order of the config. *)
Definition groups_of_type (ty : string) (groups : list (string * json))
  : list string :=
  (filter (fun g => group_has_type ty g = true) groups).*1.

(** A group as the doc describes it: a dict with files, and either type
    'streamlines', or type 'volume' with one of the four
    standardizations. *)
Definition well_formed_group (g : string * json) : Prop :=
  is_Some (group_entry g "files")
  ∧ (group_has_type "streamlines" g = true
     ∨ (group_has_type "volume" g = true
        ∧ ∃ std, group_entry g "standardization" = Some (JStr std)
                 ∧ std ∈ std_choices)).

(** The group is a JSON value that cannot be tested for a key: a
    number, a bool or null. *)
Definition not_iterable (g : string * json) : Prop :=
  match g.2 with
  | JNull | JBool _ | JNum _ => True
  | _ => False
  end.

(** The group is a str or a list that holds both 'type' and 'files' (as
    a substring, as an element): it passes the two tests and cannot be
    indexed by 'type'. *)
Definition holds_both_names (g : string * json) : Prop :=
  match g.2 with
  | JStr s => str_contains "type" s = true ∧ str_contains "files" s = true
  | JArr l =>
      existsb (fun x => json_is x "type") l = true
      ∧ existsb (fun x => json_is x "files") l = true
  | _ => False
  end.

(** The group has no 'type' or no 'files': a dict without the key, a
    str without the substring, a list without the element. *)
Definition lacks_name (g : string * json) : Prop :=
  json_contains "type" g.2 = Ok false
  ∨ json_contains "files" g.2 = Ok false.

(** Why a group makes the loop raise [e]. *)
Definition raises_for (e : exn) (g : string * json) : Prop :=
  match e with
  | KeyError =>
      lacks_name g
      ∨ (group_has_type "volume" g = true
         ∧ ¬ ∃ std, group_entry g "standardization" = Some (JStr std)
                    ∧ std ∈ std_choices)
  | ValueError =>
      is_Some (group_entry g "type") ∧ is_Some (group_entry g "files")
      ∧ group_has_type "volume" g = false
      ∧ group_has_type "streamlines" g = false
  | TypeError => not_iterable g ∨ holds_both_names g
  | _ => False
  end.

(** The subjects of a cycle frame are all the subjects, in order. *)
Definition all_subjects_frame (fr : frame) : Prop :=
  match fr with
  | AtSelect _ _ => True
  | AtCycle ids _ subjs _ _ => subjs = seq 0 (length ids)
  end.

(** The subjects of a cycle frame are at most [k], distinct and known. *)
Definition few_subjects_frame (k : Z) (fr : frame) : Prop :=
  match fr with
  | AtSelect _ _ => True
  | AtCycle ids _ subjs _ _ =>
      (Z.of_nat (length subjs) <= k)%Z ∧ NoDup subjs
      ∧ Forall (fun subj => subj < length ids) subjs
  end.

(** Every relative id of the batch lies in the slice of its subject, and
    the global id it stands for is below [total]. *)
Definition ids_in_range (ids : list slice) (total : nat) (b : batch) : Prop :=
  Forall (fun p =>
            ∃ s, ids !! p.1 = Some s
                 ∧ Forall (fun r => r + fst s < snd s ∧ r + fst s < total) p.2)
         b.

(** The length of [a[s]] for an array of [total] entries. *)
Definition slice_length (total : nat) (s : slice) : nat :=
  (snd s - fst s) `min` (total - fst s).

(** The slices follow one another from [start] and end at [total]. *)
Fixpoint partition_from (start total : nat) (slices : list slice) : Prop :=
  match slices with
  | [] => start = total
  | s :: rest =>
      fst s = start ∧ fst s ≤ snd s ∧ partition_from (snd s) total rest
  end.

(** The frame is inside a cycle loop that never ends by itself. *)
Definition endless_cycle_frame (fr : frame) : Prop :=
  match fr with
  | AtSelect _ _ => False
  | AtCycle _ _ subjs _ it => subjs ≠ [] ∧ it = None
  end.

(** The sampler counts its budget in streamlines, draws chunks of
    [batch_size] ids, selects at most [k] subjects with [0 < k <
    batch_size], and keeps them for [c > 0] cycles. *)
Record counted_config (self : DWIMLBatchSampler) (k c : Z) : Prop := {
  cc_units : batch_size_units self = "nb_streamlines"%string;
  cc_chunk : nb_streamlines_per_chunk self = batch_size self;
  cc_subjects : nb_subjects_per_batch self = Some k;
  cc_cycles : cycles self = Some c;
  cc_k : (0 < k < batch_size self)%Z;
  cc_c : (0 < c)%Z
}.

(** A frame whose cycles each consume: some subject is selected, the
    budget is split among fewer subjects than it has streamlines, and
    the cycles are counted. *)
Definition consuming_frame (self : DWIMLBatchSampler) (fr : frame) : Prop :=
  match fr with
  | AtSelect _ _ => True
  | AtCycle _ _ subjs mx it =>
      subjs ≠ [] ∧ (Z.of_nat (length subjs) < batch_size self)%Z
      ∧ py_truediv (batch_size self) (Z.of_nat (length subjs)) = Ok mx
      ∧ is_Some it
  end.

(** The steps a frame can still take before the epoch ends. *)
Definition steps_left (fr : frame) : nat :=
  match fr with
  | AtSelect _ mask => 3 * count_ones mask + 2
  | AtCycle _ mask _ _ (Some 0) => 3 * count_ones mask + 3
  | AtCycle _ mask _ _ _ => 3 * count_ones mask + 1
  end.

(** The epoch is over: the generator returned or an exception left it. *)
Definition finished (st : status) : Prop :=
  st = Exhausted ∨ ∃ e, st = Failed e.

(** A frame of an epoch that selects subjects for one cycle at a time:
    the subjects of a cycle still to run are distinct and each has
    unused streamlines. *)
Definition single_cycle_frame (self : DWIMLBatchSampler) (total : nat)
    (fr : frame) : Prop :=
  length (frame_mask fr) = total
  ∧ match fr with
    | AtSelect _ _ => True
    | AtCycle ids mask subjs mx it =>
        it = Some 0
        ∨ (it = Some 1 ∧ NoDup subjs ∧ Forall (has_supply ids mask) subjs
           ∧ subjs ≠ []
           ∧ py_truediv (batch_size self) (Z.of_nat (length subjs)) = Ok mx)
    end.

(** ** Concrete samplers and configs *)

(** Scenario A's dataset sampled from all subjects, without cycles. *)
Definition all_subjects_sampler : DWIMLBatchSampler :=
  sampler_on (stream_of []) scenario_A_dataset 5 "nb_streamlines" 5 None None.

(** Slices [0,2) and [3,4) of a group of 4 streamlines: id 2 belongs to
    no subject. *)
Definition gapped_sampler : DWIMLBatchSampler :=
  sampler_on (stream_of []) (single_group [(0, 2); (3, 4)] 4 []) 5
             "nb_streamlines" 5 None None.

(** A group without subjects nor streamlines. *)
Definition empty_group_sampler : DWIMLBatchSampler :=
  sampler_on (stream_of []) (single_group [] 0 []) 5 "nb_streamlines" 5
             None None.

(** A config with a volume group and a streamline group, as in the doc. *)
Definition example_groups_config : list (string * json) :=
  [("input"%string,
    JObj {[ "type"%string := JStr "volume";
            "files"%string := JArr [JStr "dwi.nii.gz"];
            "standardization"%string := JStr "all" ]});
   ("target"%string,
    JObj {[ "type"%string := JStr "streamlines";
            "files"%string := JArr [JStr "bundle.trk"] ]})].

(** A group whose type is neither 'volume' nor 'streamlines'. *)
Definition mask_group : string * json :=
  ("wm_mask"%string,
   JObj {[ "type"%string := JStr "mask";
           "files"%string := JArr [JStr "wm.nii.gz"] ]}).

(** A group given as the name of its type instead of a dict. *)
Definition bare_number_group : string * json := ("input"%string, JNum 5).

(** * Lemmas *)

(** Closes a goal that assumes a batch among no batches. *)
Ltac no_batch :=
  let H := fresh in intros H; by apply elem_of_nil in H.

(** ** Comparisons of rationals *)

Lemma Qltb_true x y : Qltb x y = true ↔ (x < y)%Q.
Proof.
  unfold Qltb. rewrite negb_true_iff, <- not_true_iff_false, Qle_bool_iff.
  split; [apply Qnot_le_lt | apply Qlt_not_le].
Qed.

Lemma Qltb_false x y : Qltb x y = false ↔ (y <= x)%Q.
Proof. unfold Qltb. rewrite negb_false_iff. apply Qle_bool_iff. Qed.

Lemma Qle_bool_false x y : Qle_bool x y = false ↔ (y < x)%Q.
Proof.
  rewrite <- not_true_iff_false, Qle_bool_iff.
  split; [apply Qnot_le_lt | apply Qlt_not_le].
Qed.

(** ** Powers of two *)

Lemma pow2_Qpower e : (pow2 e == 2 ^ e)%Q.
Proof.
  unfold pow2. destruct (0 <=? e)%Z eqn:E.
  - apply Z.leb_le in E. by apply (Zpower_Qpower 2 e).
  - apply Z.leb_gt in E.
    replace e with (- (- e))%Z at 2 by lia. rewrite Qpower_opp.
    rewrite <- (Zpower_Qpower 2 (- e)) by lia.
    assert (0 < 2 ^ (- e))%Z as Hp by (apply Z.pow_pos_nonneg; lia).
    destruct (2 ^ (- e))%Z as [|p|p] eqn:Ep; try lia. reflexivity.
Qed.

Lemma pow2_pos e : (0 < pow2 e)%Q.
Proof. rewrite pow2_Qpower. by apply Qpower_0_lt. Qed.

Lemma pow2_add a b : (pow2 (a + b) == pow2 a * pow2 b)%Q.
Proof. rewrite !pow2_Qpower. by apply Qpower_plus. Qed.

Lemma pow2_le a b : (a ≤ b)%Z → (pow2 a <= pow2 b)%Q.
Proof. intros H. rewrite !pow2_Qpower. by apply Qpower_le_compat_l. Qed.

Lemma pow2_lt a b : (a < b)%Z → (pow2 a < pow2 b)%Q.
Proof. intros H. rewrite !pow2_Qpower. by apply Qpower_lt_compat_l. Qed.

Lemma pow2_lt_inv a b : (pow2 a < pow2 b)%Q → (a < b)%Z.
Proof. rewrite !pow2_Qpower. intros H. by apply Qpower_lt_compat_l_inv in H. Qed.

Lemma pow2_nonneg_Z e : (0 ≤ e)%Z → pow2 e = inject_Z (2 ^ e).
Proof. intros H. unfold pow2. by apply Z.leb_le in H as ->. Qed.

Lemma Q_num_den (x : Q) : (x * inject_Z (Zpos (Qden x)) == inject_Z (Qnum x))%Q.
Proof. destruct x as [n d]. unfold Qeq, Qmult, inject_Z. cbn. lia. Qed.

Lemma Qnum_pos (x : Q) : (0 < x)%Q → (0 < Qnum x)%Z.
Proof. destruct x as [n d]. unfold Qlt. cbn. lia. Qed.

Lemma inject_Z_pow2 e : (0 ≤ e)%Z → (inject_Z (2 ^ e) == pow2 e)%Q.
Proof. intros H. by rewrite pow2_nonneg_Z. Qed.

Lemma floor_log2_spec x :
  (0 < x)%Q → (pow2 (floor_log2 x) <= x)%Q ∧ (x < pow2 (floor_log2 x + 1))%Q.
Proof.
  intros Hx. unfold floor_log2.
  set (n := Qnum x). set (d := Zpos (Qden x)).
  set (a := Z.log2 n). set (b := Z.log2 d).
  assert (0 < n)%Z as Hn by (by apply Qnum_pos).
  assert (0 < d)%Z as Hd by done.
  pose proof (Z.log2_spec n Hn) as [Ha1 Ha2]. fold a in Ha1, Ha2.
  pose proof (Z.log2_spec d Hd) as [Hb1 Hb2]. fold b in Hb1, Hb2.
  pose proof (Z.log2_nonneg n) as Ha0. pose proof (Z.log2_nonneg d) as Hb0.
  fold a in Ha0. fold b in Hb0.
  pose proof (Q_num_den x) as Hxd. fold n d in Hxd.
  rewrite Zle_Qle in Ha1, Hb1. rewrite Zlt_Qlt in Ha2, Hb2.
  rewrite <- Z.add_1_r in Ha2, Hb2.
  rewrite inject_Z_pow2 in Ha1, Ha2, Hb1, Hb2 by lia.
  rewrite pow2_add in Ha2, Hb2.
  change (pow2 1) with 2%Q in Ha2, Hb2.
  pose proof (pow2_pos a) as Hpa. pose proof (pow2_pos b) as Hpb.
  assert (pow2 (a - b) * pow2 b == pow2 a)%Q as Hab.
  { rewrite <- pow2_add. by replace (a - b + b)%Z with a by lia. }
  pose proof (pow2_pos (a - b)) as Hpab.
  assert (pow2 (a - b - 1) * 2 == pow2 (a - b))%Q as Hab1.
  { change 2%Q with (pow2 1). rewrite <- pow2_add.
    by replace (a - b - 1 + 1)%Z with (a - b)%Z by lia. }
  assert (pow2 (a - b + 1) == pow2 (a - b) * 2)%Q as Hab2.
  { by rewrite pow2_add. }
  set (X := x) in *. set (D := inject_Z d) in *. set (N := inject_Z n) in *.
  set (Pa := pow2 a) in *. set (Pb := pow2 b) in *.
  set (Y := pow2 (a - b)) in *.
  assert (Y < 2 * X)%Q as Hlo.
  { apply Qnot_le_lt. intros Hc. nra. }
  assert (X < 2 * Y)%Q as Hhi.
  { apply Qnot_le_lt. intros Hc. nra. }
  destruct (Qle_bool Y X) eqn:E.
  - apply Qle_bool_iff in E. split; [done|]. rewrite Hab2. lra.
  - assert (X < Y)%Q as E'.
    { apply Qnot_le_lt. intros Hc. apply Qle_bool_iff in Hc. congruence. }
    replace (a - b - 1 + 1)%Z with (a - b)%Z by lia. fold Y.
    split; [|done]. set (Z1 := pow2 (a - b - 1)) in *. lra.
Qed.

Lemma floor_log2_unique x e :
  (pow2 e <= x)%Q → (x < pow2 (e + 1))%Q → floor_log2 x = e.
Proof.
  intros H1 H2.
  assert (0 < x)%Q as Hx by (pose proof (pow2_pos e); lra).
  destruct (floor_log2_spec x Hx) as [H3 H4].
  assert (pow2 e < pow2 (floor_log2 x + 1))%Q as Ha by lra.
  assert (pow2 (floor_log2 x) < pow2 (e + 1))%Q as Hb by lra.
  apply pow2_lt_inv in Ha, Hb. lia.
Qed.

Lemma floor_log2_mono x y :
  (0 < x)%Q → (x <= y)%Q → (floor_log2 x ≤ floor_log2 y)%Z.
Proof.
  intros Hx Hxy.
  destruct (floor_log2_spec x Hx) as [H1 _].
  destruct (floor_log2_spec y) as [_ H2]; [lra|].
  assert (pow2 (floor_log2 x) < pow2 (floor_log2 y + 1))%Q as H by lra.
  apply pow2_lt_inv in H. lia.
Qed.

(** ** Rounding to the nearest integer, ties to even *)

Lemma rne_Z z : rne (inject_Z z) = z.
Proof.
  unfold rne. rewrite Qfloor_Z.
  assert ((inject_Z z - inject_Z z ?= 1 # 2)%Q = Lt) as ->; [|done].
  apply (proj1 (Qlt_alt _ _)). lra.
Qed.

Lemma rne_bounds y : (Qfloor y ≤ rne y ≤ Qfloor y + 1)%Z.
Proof.
  unfold rne. destruct (_ ?= _)%Q; [destruct (Z.even _)|..]; lia.
Qed.

Lemma rne_mono y1 y2 : (y1 <= y2)%Q → (rne y1 ≤ rne y2)%Z.
Proof.
  intros Hy. pose proof (Qfloor_resp_le _ _ Hy) as Hf.
  pose proof (rne_bounds y1). pose proof (rne_bounds y2).
  destruct (decide (Qfloor y1 = Qfloor y2)) as [E|E]; [|lia].
  unfold rne. rewrite <- E. set (f := Qfloor y1).
  destruct (y1 - inject_Z f ?= 1 # 2)%Q eqn:E1;
    destruct (y2 - inject_Z f ?= 1 # 2)%Q eqn:E2;
    try (destruct (Z.even f)); try lia.
  all: first [apply Qeq_alt in E1 | apply Qlt_alt in E1 | apply Qgt_alt in E1].
  all: first [apply Qeq_alt in E2 | apply Qlt_alt in E2 | apply Qgt_alt in E2].
  all: exfalso; lra.
Qed.

Lemma rne_comp y1 y2 : (y1 == y2)%Q → rne y1 = rne y2.
Proof.
  intros H. apply Z.le_antisymm; apply rne_mono; lra.
Qed.

Lemma rne_le y k : (y <= inject_Z k)%Q → (rne y ≤ k)%Z.
Proof. intros H%rne_mono. by rewrite rne_Z in H. Qed.

Lemma rne_ge y k : (inject_Z k <= y)%Q → (k ≤ rne y)%Z.
Proof. intros H%rne_mono. by rewrite rne_Z in H. Qed.

(** ** Rounding to binary64 *)

Lemma exponent_mono x y :
  (0 < x)%Q → (x <= y)%Q → (exponent x ≤ exponent y)%Z.
Proof. intros Hx Hxy. pose proof (floor_log2_mono x y Hx Hxy). unfold exponent. lia. Qed.

Lemma scaled_lt x : (0 < x)%Q → (x / pow2 (exponent x) < inject_Z (2 ^ 53))%Q.
Proof.
  intros Hx. destruct (floor_log2_spec x Hx) as [_ H].
  pose proof (pow2_pos (exponent x)) as Hp.
  apply Qlt_shift_div_r; [done|].
  rewrite inject_Z_pow2 by lia. rewrite <- pow2_add.
  eapply Qlt_le_trans; [exact H|]. apply pow2_le. unfold exponent. lia.
Qed.

Lemma scaled_ge x :
  (0 < x)%Q → (-1074 < exponent x)%Z →
  (inject_Z (2 ^ 52) <= x / pow2 (exponent x))%Q.
Proof.
  intros Hx He. destruct (floor_log2_spec x Hx) as [H _].
  pose proof (pow2_pos (exponent x)) as Hp.
  apply Qle_shift_div_l; [done|].
  rewrite inject_Z_pow2 by lia. rewrite <- pow2_add.
  eapply Qle_trans; [|exact H]. apply pow2_le. unfold exponent in *. lia.
Qed.

Lemma round_val_nonneg x : (0 < x)%Q → (0 <= round_val x)%Q.
Proof.
  intros Hx. unfold round_val. pose proof (pow2_pos (exponent x)) as Hp.
  assert (0 ≤ rne (x / pow2 (exponent x)))%Z as Hm.
  { apply rne_ge. apply Qle_shift_div_l; [done|].
    change (inject_Z 0) with 0%Q. lra. }
  rewrite Zle_Qle in Hm. change (inject_Z 0) with 0%Q in Hm. nra.
Qed.

Lemma round_val_mono x y :
  (0 < x)%Q → (x <= y)%Q → (round_val x <= round_val y)%Q.
Proof.
  intros Hx Hxy. assert (0 < y)%Q as Hy by lra.
  pose proof (exponent_mono x y Hx Hxy) as He.
  pose proof (pow2_pos (exponent x)) as Hpx.
  pose proof (pow2_pos (exponent y)) as Hpy.
  unfold round_val.
  destruct (decide (exponent x = exponent y)) as [E|E].
  - rewrite E. apply Qmult_le_compat_r; [|lra].
    rewrite <- Zle_Qle. apply rne_mono.
    apply Qle_shift_div_l; [done|].
    assert (x / pow2 (exponent y) * pow2 (exponent y) == x)%Q as ->; [|done].
    field. lra.
  - assert (rne (x / pow2 (exponent x)) ≤ 2 ^ 53)%Z as Hm.
    { apply rne_le. apply Qlt_le_weak. by apply scaled_lt. }
    assert (2 ^ 52 ≤ rne (y / pow2 (exponent y)))%Z as Hm'.
    { apply rne_ge. apply scaled_ge; [done|]. unfold exponent in *. lia. }
    rewrite Zle_Qle in Hm, Hm'.
    assert (pow2 (exponent x) * 2 <= pow2 (exponent y))%Q as Hp.
    { change 2%Q with (pow2 1). rewrite <- pow2_add. apply pow2_le. lia. }
    change (inject_Z (2 ^ 53)) with (inject_Z (2 ^ 52) * 2)%Q in Hm.
    assert (0 < inject_Z (2 ^ 52))%Q as H52 by done.
    set (mx := inject_Z (rne (x / pow2 (exponent x)))) in *.
    set (my := inject_Z (rne (y / pow2 (exponent y)))) in *.
    set (px := pow2 (exponent x)) in *. set (py := pow2 (exponent y)) in *.
    set (c := inject_Z (2 ^ 52)) in *.
    apply Qle_trans with (c * 2 * px)%Q; [nra|].
    apply Qle_trans with (c * py)%Q; nra.
Qed.

Lemma round_val_fixed v : representable v → (round_val v == v)%Q.
Proof.
  intros (m & e & Hv & Hm & He).
  pose proof (pow2_pos e) as Hpe.
  assert (0 < inject_Z m)%Q as Hm0 by (change 0%Q with (inject_Z 0); rewrite <- Zlt_Qlt; lia).
  assert (0 < v)%Q as Hpos by (rewrite Hv; nra).
  assert (exponent v ≤ e)%Z as Hle.
  { assert (floor_log2 v < e + 53)%Z; [|unfold exponent; lia].
    destruct (floor_log2_spec v Hpos) as [H1 _].
    apply pow2_lt_inv. eapply Qle_lt_trans; [exact H1|].
    rewrite Hv, Z.add_comm, pow2_add.
    apply Qmult_lt_compat_r; [done|].
    rewrite <- inject_Z_pow2 by lia. rewrite <- Zlt_Qlt. lia. }
  unfold round_val. set (ex := exponent v) in *.
  pose proof (pow2_pos ex) as Hpx.
  assert (v / pow2 ex == inject_Z (m * 2 ^ (e - ex)))%Q as Hs.
  { rewrite inject_Z_mult, inject_Z_pow2 by lia.
    rewrite Hv. replace e with ((e - ex) + ex)%Z at 1 by lia.
    rewrite pow2_add. field. lra. }
  rewrite (rne_comp _ _ Hs), rne_Z, inject_Z_mult, inject_Z_pow2 by lia.
  rewrite Hv. replace e with ((e - ex) + ex)%Z at 2 by lia.
  rewrite pow2_add. ring.
Qed.

Lemma round_val_representable x :
  (0 < x)%Q → (round_val x == 0)%Q ∨ representable (round_val x).
Proof.
  intros Hx. unfold round_val.
  set (ex := exponent x). set (m := rne _).
  assert (0 ≤ m)%Z as Hm0.
  { apply rne_ge. pose proof (pow2_pos ex). apply Qle_shift_div_l; [done|].
    change (inject_Z 0) with 0%Q. lra. }
  assert (m ≤ 2 ^ 53)%Z as Hm1.
  { apply rne_le. apply Qlt_le_weak. by apply scaled_lt. }
  destruct (decide (m = 0%Z)) as [E|Hne]; [left; rewrite E; ring|right].
  destruct (decide (m = 2 ^ 53)%Z) as [E|Hne'].
  - rewrite E. exists (2 ^ 52)%Z, (ex + 1)%Z. split; [|split; [lia|unfold ex, exponent; lia]].
    rewrite pow2_add. change (pow2 1) with 2%Q.
    change (inject_Z (2 ^ 53)) with (inject_Z (2 ^ 52) * 2)%Q. ring.
  - exists m, ex. split; [done|]. split; [lia|unfold ex, exponent; lia].
Qed.

Lemma floor_log2_comp x y : (0 < x)%Q → (x == y)%Q → floor_log2 x = floor_log2 y.
Proof.
  intros Hx Hxy. destruct (floor_log2_spec x Hx) as [H1 H2].
  symmetry. apply floor_log2_unique; lra.
Qed.

Lemma round_val_comp x y : (0 < x)%Q → (x == y)%Q → (round_val x == round_val y)%Q.
Proof.
  intros Hx Hxy. unfold round_val, exponent.
  rewrite <- (floor_log2_comp x y Hx Hxy).
  set (e := Z.max _ _). pose proof (pow2_pos e).
  assert (x / pow2 e == y / pow2 e)%Q as Hs by (by rewrite Hxy).
  by rewrite (rne_comp _ _ Hs).
Qed.

(** ** The operations of float64 *)

Lemma round64_comp x y : (x == y)%Q → round64 x = round64 y.
Proof. intros H. unfold round64. by rewrite (Qred_complete _ _ H). Qed.

Lemma round64_0 : round64 0 = Fin 0.
Proof. done. Qed.

Lemma round64_pos x :
  (0 < x)%Q →
  round64 x
  = if Qle_bool (pow2 1024) (round_val x) then Inf false
    else Fin (Qred (round_val x)).
Proof.
  intros Hx. unfold round64.
  assert (0 < Qred x)%Q as Hr by (by rewrite Qred_correct).
  apply Qgt_alt in Hr. rewrite Hr. unfold round_pos.
  assert (round_val (Qred x) == round_val x)%Q as Hv.
  { apply round_val_comp; [by rewrite Qred_correct|apply Qred_correct]. }
  assert (Qle_bool (pow2 1024) (round_val (Qred x))
          = Qle_bool (pow2 1024) (round_val x)) as ->.
  { destruct (Qle_bool (pow2 1024) (round_val x)) eqn:E.
    - apply Qle_bool_iff. apply Qle_bool_iff in E. by rewrite Hv.
    - apply Qle_bool_false. apply Qle_bool_false in E. by rewrite Hv. }
  by rewrite (Qred_complete _ _ Hv).
Qed.

Lemma round64_fixed v :
  representable v → (v < pow2 1024)%Q → round64 v = Fin (Qred v).
Proof.
  intros Hr Hlt. pose proof (round_val_fixed v Hr) as Hv.
  assert (0 < v)%Q as Hpos.
  { destruct Hr as (m & e & -> & Hm & _). pose proof (pow2_pos e).
    assert (0 < inject_Z m)%Q
      by (change 0%Q with (inject_Z 0); rewrite <- Zlt_Qlt; lia). nra. }
  rewrite round64_pos by done.
  assert (Qle_bool (pow2 1024) (round_val v) = false) as ->.
  { apply Qle_bool_false. by rewrite Hv. }
  by rewrite (Qred_complete _ _ Hv).
Qed.

Lemma round64_nonneg x : (0 <= x)%Q → nonneg_float (round64 x).
Proof.
  intros Hx. destruct (Qlt_le_dec 0 x) as [Hpos|Hle].
  - rewrite round64_pos by done.
    destruct (Qle_bool _ _) eqn:E; [done|]. apply Qle_bool_false in E.
    cbn. split; [rewrite Qred_correct; by apply round_val_nonneg|].
    destruct (round_val_representable x Hpos) as [H0|Hr].
    + rewrite (Qred_complete _ _ H0). done.
    + rewrite (round64_comp _ _ (Qred_correct _)).
      rewrite round64_fixed by done. done.
  - rewrite (round64_comp x 0) by lra. done.
Qed.

Lemma fleb_refl f : nonneg_float f → fleb f f = true.
Proof.
  destruct f as [v|[]|]; cbn; try done. intros _. apply Qle_bool_iff. lra.
Qed.

Lemma round64_mono x y :
  (0 <= x)%Q → (x <= y)%Q → fleb (round64 x) (round64 y) = true.
Proof.
  intros Hx Hxy. destruct (Qlt_le_dec 0 x) as [Hpos|Hle].
  - pose proof (round_val_mono x y Hpos Hxy) as Hm.
    rewrite !round64_pos by lra.
    destruct (Qle_bool (pow2 1024) (round_val x)) eqn:E1;
      destruct (Qle_bool (pow2 1024) (round_val y)) eqn:E2; cbn; try done.
    + apply Qle_bool_iff in E1. apply Qle_bool_false in E2. lra.
    + apply Qle_bool_iff. by rewrite !Qred_correct.
  - rewrite (round64_comp x 0) by lra. cbn [round64_0].
    pose proof (round64_nonneg y ltac:(lra)) as Hy.
    change (round64 0) with (Fin 0).
    destruct (round64 y) as [v|[]|]; cbn in *; try done.
    apply Qle_bool_iff. tauto.
Qed.

(** Adding a non-negative length to a non-negative float gives a
    non-negative float that is not smaller. *)
Lemma fadd_nonneg a w :
  nonneg_float a → (0 <= w)%Q →
  nonneg_float (fadd a (Fin w)) ∧ fleb a (fadd a (Fin w)) = true.
Proof.
  destruct a as [v|[]|]; cbn [nonneg_float fadd]; try done.
  intros [Hv Hfix] Hw. split; [apply round64_nonneg; lra|].
  rewrite <- Hfix at 1. apply round64_mono; lra.
Qed.

Lemma fltb_fleb_trans a b c :
  fleb a b = true → fltb b c = true → fltb a c = true.
Proof.
  destruct a as [x|[]|], b as [y|[]|], c as [z|[]|]; cbn; try done.
  rewrite !Qltb_true, Qle_bool_iff. lra.
Qed.

Lemma fleb_trans a b c :
  fleb a b = true → fleb b c = true → fleb a c = true.
Proof.
  destruct a as [x|[]|], b as [y|[]|], c as [z|[]|]; cbn; try done.
  rewrite !Qle_bool_iff. lra.
Qed.

(** ** Integers in float64 *)

Lemma Qred_inject_Z z : Qred (inject_Z z) = inject_Z z.
Proof.
  unfold Qred, inject_Z.
  pose proof (Z.ggcd_gcd z 1) as Hg. pose proof (Z.ggcd_correct_divisors z 1) as Hd.
  destruct (Z.ggcd z 1) as [g [a b]]. cbn in *.
  rewrite Z.gcd_1_r in Hg. subst g. destruct Hd as [-> Hb].
  assert (b = 1%Z) as -> by lia. f_equal. lia.
Qed.

Lemma representable_Z n : (0 < n ≤ 2 ^ 53)%Z → representable (inject_Z n).
Proof.
  intros Hn. destruct (decide (n = 2 ^ 53)%Z) as [->|Hne].
  - exists (2 ^ 52)%Z, 1%Z. split; [done|]. lia.
  - exists n, 0%Z. split; [|lia]. change (pow2 0) with 1%Q. ring.
Qed.

Lemma round64_Z n : (0 ≤ n ≤ 2 ^ 53)%Z → round64 (inject_Z n) = of_Z n.
Proof.
  intros Hn. destruct (decide (n = 0%Z)) as [->|Hne]; [done|].
  rewrite round64_fixed.
  - by rewrite Qred_inject_Z.
  - apply representable_Z. lia.
  - rewrite <- inject_Z_pow2 by lia. rewrite <- Zlt_Qlt.
    assert (2 ^ 53 < 2 ^ 1024)%Z by (by apply Z.pow_lt_mono_r). lia.
Qed.

Lemma fadd_Z a b :
  (0 ≤ a)%Z → (0 ≤ b)%Z → (a + b ≤ 2 ^ 53)%Z →
  fadd (of_Z a) (of_Z b) = of_Z (a + b).
Proof.
  intros Ha Hb Hab. unfold of_Z. cbn [fadd].
  rewrite <- inject_Z_plus. apply round64_Z. lia.
Qed.

Lemma nonneg_of_Z n : (0 ≤ n ≤ 2 ^ 53)%Z → nonneg_float (of_Z n).
Proof.
  intros Hn. cbn. split; [|by apply round64_Z].
  change 0%Q with (inject_Z 0). rewrite <- Zle_Qle. lia.
Qed.

(** ** Python's [a / b] on ints *)

Lemma Qdiv_pos_Z (a b : Z) :
  (0 < a)%Z → (0 < b)%Z → (0 < inject_Z a / inject_Z b)%Q.
Proof.
  intros Ha Hb. apply Qlt_shift_div_l.
  - change 0%Q with (inject_Z 0). rewrite <- Zlt_Qlt. lia.
  - rewrite Qmult_0_l. change 0%Q with (inject_Z 0). rewrite <- Zlt_Qlt. lia.
Qed.

Lemma Qdiv_Z_lt (a b i : Z) :
  (0 < b)%Z → (inject_Z i < inject_Z a / inject_Z b)%Q ↔ (i * b < a)%Z.
Proof.
  intros Hb.
  assert (0 < inject_Z b)%Q as Hb'
    by (change 0%Q with (inject_Z 0); rewrite <- Zlt_Qlt; lia).
  rewrite Zlt_Qlt, inject_Z_mult.
  assert (inject_Z a / inject_Z b * inject_Z b == inject_Z a)%Q as Hq
    by (field; lra).
  set (q := (inject_Z a / inject_Z b)%Q) in *.
  split; intros H.
  - rewrite <- Hq. by apply Qmult_lt_compat_r.
  - rewrite <- Hq in H. by apply Qmult_lt_r in H.
Qed.

Lemma Qdiv_Z_le (a b i : Z) :
  (0 < b)%Z → (inject_Z a / inject_Z b <= inject_Z i)%Q ↔ (a ≤ i * b)%Z.
Proof.
  intros Hb. pose proof (Qdiv_Z_lt a b i Hb) as H.
  split.
  - intros H1. apply Z.le_ngt. intros H2%H. lra.
  - intros H1. apply Qnot_lt_le. intros H2%H. lia.
Qed.

(** The quotient of two ints below 2^52 and an int compare in float64
    as they do exactly. *)
Lemma truediv_lt (bs nb i : Z) mx :
  (0 < nb)%Z → (0 < bs ≤ 2 ^ 52)%Z → (1 ≤ i ≤ 2 ^ 53)%Z →
  py_truediv bs nb = Ok mx →
  fltb (of_Z i) mx = true ↔ (i * nb < bs)%Z.
Proof.
  intros Hnb Hbs Hi. unfold py_truediv.
  assert ((nb =? 0)%Z = false) as -> by lia.
  set (q := (inject_Z bs / inject_Z nb)%Q).
  assert (0 < q)%Q as Hq by (apply Qdiv_pos_Z; lia).
  pose proof (round64_nonneg q ltac:(lra)) as Hnn.
  assert (fleb (round64 q) (of_Z bs) = true) as Hle.
  { rewrite <- (round64_Z bs) by lia. apply round64_mono; [lra|].
    apply Qdiv_Z_le; [done|]. nia. }
  destruct (round64 q) as [v|s|] eqn:Ev; try done. intros [= <-].
  cbn [of_Z fltb]. rewrite Qltb_true. rewrite <- (Qdiv_Z_lt bs nb i Hnb).
  fold q. split.
  - (* i < v, so q <= i is impossible *)
    intros Hiv. apply Qnot_le_lt. intros Hqi.
    pose proof (round64_mono q (inject_Z i) ltac:(lra) Hqi) as Hm.
    rewrite Ev, round64_Z in Hm by lia. cbn in Hm.
    apply Qle_bool_iff in Hm. lra.
  - (* i < q: a float lies between i and q *)
    intros Hiq. unfold q in Hiq.
    apply (proj1 (Qdiv_Z_lt bs nb i Hnb)) in Hiq.
    set (F := (bs / nb)%Z).
    pose proof (Z.div_mod bs nb ltac:(lia)) as Hdm.
    pose proof (Z.mod_pos_bound bs nb Hnb) as Hmod. fold F in Hdm.
    assert (i ≤ F)%Z as HiF.
    { assert (i * nb < (F + 1) * nb)%Z as H by lia.
      apply Z.mul_lt_mono_pos_r in H; lia. }
    destruct (decide (bs mod nb = 0)%Z) as [E0|E0].
    + (* the quotient is the int F *)
      assert (q == inject_Z F)%Q as HqF.
      { unfold q. rewrite Hdm, E0, Z.add_0_r, inject_Z_mult. field.
        change 0%Q with (inject_Z 0). rewrite inject_Z_injective. lia. }
      assert (F ≤ 2 ^ 52)%Z by nia.
      rewrite (round64_comp _ _ HqF), round64_Z in Ev by lia.
      injection Ev as <-. rewrite <- Zlt_Qlt.
      assert (i * nb < F * nb)%Z by lia. nia.
    + set (j := Z.log2_up nb).
      assert (1 < nb)%Z as Hnb1.
      { destruct (decide (nb = 1%Z)) as [->|]; [|lia].
        rewrite Z.mod_1_r in E0. done. }
      pose proof (Z.log2_up_spec nb Hnb1) as [Hj1 Hj2]. fold j in Hj1, Hj2.
      assert (0 < j)%Z as Hj0 by (apply Z.log2_up_pos; lia).
      assert (2 ^ j ≤ 2 * nb - 2)%Z as Hj3.
      { replace j with (Z.succ (Z.pred j)) by lia.
        rewrite Z.pow_succ_r by lia. lia. }
      assert (1 ≤ F)%Z as HF1 by lia.
      assert (F * 2 ^ j + 1 < 2 ^ 53)%Z as Hmant.
      { assert (F * nb ≤ bs)%Z by nia.
        assert (F * 2 ^ j ≤ F * (2 * nb - 2))%Z
          by (apply Z.mul_le_mono_nonneg_l; lia).
        change (2 ^ 53)%Z with (2 * 2 ^ 52)%Z. lia. }
      set (f := (inject_Z (F * 2 ^ j + 1) * pow2 (- j))%Q).
      assert (representable f) as Hrep.
      { exists (F * 2 ^ j + 1)%Z, (- j)%Z. split; [done|]. split; [nia|].
        assert (j ≤ 53)%Z; [|lia].
        apply Z.log2_up_le_pow2; [lia|].
        assert (nb ≤ bs)%Z by nia.
        assert (2 ^ 52 < 2 ^ 53)%Z by (by apply Z.pow_lt_mono_r). lia. }
      assert (pow2 j * pow2 (- j) == 1)%Q as Hinv.
      { rewrite <- pow2_add. by replace (j + - j)%Z with 0%Z by lia. }
      pose proof (pow2_pos (- j)) as Hpj.
      pose proof (pow2_pos j) as Hpj'.
      assert (f == inject_Z F + pow2 (- j))%Q as Hf.
      { unfold f. rewrite inject_Z_plus, inject_Z_mult, inject_Z_pow2 by lia.
        change (inject_Z 1) with 1%Q.
        transitivity (inject_Z F * (pow2 j * pow2 (- j)) + pow2 (- j))%Q;
          [ring|]. rewrite Hinv. ring. }
      assert (f <= q)%Q as Hfq.
      { rewrite Hf. unfold q.
        assert (0 < inject_Z nb)%Q as Hnb'
          by (change 0%Q with (inject_Z 0); rewrite <- Zlt_Qlt; lia).
        apply Qle_shift_div_l; [done|].
        rewrite Zle_Qle, inject_Z_pow2 in Hj2 by lia.
        assert (inject_Z bs == inject_Z nb * inject_Z F + inject_Z (bs mod nb))%Q
          as Hbs'.
        { rewrite <- inject_Z_mult, <- inject_Z_plus. by rewrite <- Hdm. }
        assert (1 <= inject_Z (bs mod nb))%Q as Hm1.
        { change 1%Q with (inject_Z 1). rewrite <- Zle_Qle. lia. }
        rewrite Hbs'.
        assert (pow2 (- j) * inject_Z nb <= 1)%Q; [|lra].
        rewrite <- Hinv. rewrite (Qmult_comm (pow2 j)).
        apply Qmult_le_l; [done|]. done. }
      assert (f < pow2 1024)%Q as Hf1024.
      { eapply Qle_lt_trans; [exact Hfq|].
        assert (q <= inject_Z bs)%Q as Hqbs
          by (apply Qdiv_Z_le; [done|]; nia).
        eapply Qle_lt_trans; [exact Hqbs|].
        rewrite <- inject_Z_pow2 by lia. rewrite <- Zlt_Qlt.
        assert (2 ^ 52 < 2 ^ 1024)%Z by (by apply Z.pow_lt_mono_r). lia. }
      assert (0 <= f)%Q as Hf0.
      { rewrite Hf. assert (0 <= inject_Z F)%Q
          by (change 0%Q with (inject_Z 0); rewrite <- Zle_Qle; lia). lra. }
      pose proof (round64_mono f q Hf0 Hfq) as Hm.
      rewrite Ev, round64_fixed in Hm by done. cbn in Hm.
      apply Qle_bool_iff in Hm. rewrite Qred_correct, Hf in Hm.
      assert (inject_Z i <= inject_Z F)%Q by (by rewrite <- Zle_Qle).
      lra.
Qed.

Lemma truediv_nonneg (bs nb : Z) mx :
  (0 < nb)%Z → (0 < bs)%Z → py_truediv bs nb = Ok mx →
  nonneg_float mx ∧ fleb mx (round64 (inject_Z bs)) = true
  ∧ ∃ v, mx = Fin v.
Proof.
  intros Hnb Hbs. unfold py_truediv.
  assert ((nb =? 0)%Z = false) as -> by lia.
  set (q := (inject_Z bs / inject_Z nb)%Q).
  assert (0 < q)%Q as Hq by (apply Qdiv_pos_Z; lia).
  pose proof (round64_nonneg q ltac:(lra)) as Hnn.
  assert (fleb (round64 q) (round64 (inject_Z bs)) = true) as Hle.
  { apply round64_mono; [lra|]. apply Qdiv_Z_le; [done|]. nia. }
  destruct (round64 q) as [v|s|] eqn:Ev; try done. intros [= <-]. eauto.
Qed.

Lemma truediv_ok (bs nb : Z) :
  (0 < nb)%Z → (0 < bs ≤ 2 ^ 52)%Z → ∃ v, py_truediv bs nb = Ok (Fin v).
Proof.
  intros Hnb Hbs. unfold py_truediv.
  assert ((nb =? 0)%Z = false) as -> by lia.
  set (q := (inject_Z bs / inject_Z nb)%Q).
  assert (0 < q)%Q as Hq by (apply Qdiv_pos_Z; lia).
  pose proof (round64_nonneg q ltac:(lra)) as Hnn.
  assert (fleb (round64 q) (of_Z bs) = true) as Hle.
  { rewrite <- (round64_Z bs) by lia. apply round64_mono; [lra|].
    apply Qdiv_Z_le; [done|]. nia. }
  destruct (round64 q) as [v|[]|] eqn:Ev; try done. eauto.
Qed.

(** ** numpy's sums of ones *)

Lemma fadd_nat a b :
  (Z.of_nat (a + b) ≤ 2 ^ 53)%Z → fadd (of_nat a) (of_nat b) = of_nat (a + b).
Proof.
  intros H. unfold of_nat. rewrite fadd_Z by lia. f_equal. lia.
Qed.

Lemma foldl_fadd_ones a n :
  (Z.of_nat (a + n) ≤ 2 ^ 53)%Z →
  foldl fadd (of_nat a) (replicate n (of_nat 1)) = of_nat (a + n).
Proof.
  revert a. induction n as [|n IH]; intros a Ha; cbn [replicate foldl].
  - by rewrite Nat.add_0_r.
  - rewrite fadd_nat by lia. rewrite IH by lia. f_equal. lia.
Qed.

Lemma cumsum_from_ones a n :
  (Z.of_nat (a + n) ≤ 2 ^ 53)%Z →
  cumsum_from (of_nat a) (replicate n (of_nat 1)) = of_nat <$> seq (S a) n.
Proof.
  revert a. induction n as [|n IH]; intros a Ha; cbn [replicate cumsum_from];
    [done|].
  rewrite fadd_nat by lia. replace (a + 1) with (S a) by lia.
  rewrite IH by lia. done.
Qed.

Lemma cumsum_ones n :
  (Z.of_nat n ≤ 2 ^ 53)%Z →
  cumsum (replicate n (of_nat 1)) = of_nat <$> seq 1 n.
Proof.
  intros Hn. destruct n as [|n]; [done|]. cbn [replicate cumsum].
  rewrite cumsum_from_ones by lia. done.
Qed.

Lemma take_replicate_le {A} (x : A) n m :
  m ≤ n → take m (replicate n x) = replicate m x.
Proof. intros H. rewrite take_replicate. f_equal. lia. Qed.

Lemma zip_with_fadd_replicate k a b :
  (Z.of_nat (a + b) ≤ 2 ^ 53)%Z →
  zip_with fadd (replicate k (of_nat a)) (replicate k (of_nat b))
  = replicate k (of_nat (a + b)).
Proof.
  intros H. induction k as [|k IH]; [done|]. cbn [replicate zip_with].
  by rewrite fadd_nat, IH.
Qed.

Lemma add_blocks_ones c m k :
  8 * k ≤ m → (Z.of_nat (c + k) ≤ 2 ^ 53)%Z →
  add_blocks (replicate 8 (of_nat c)) (replicate m (of_nat 1)) k
  = (replicate 8 (of_nat (c + k)), replicate (m - 8 * k) (of_nat 1)).
Proof.
  revert c m. induction k as [|k IH]; intros c m Hm Hc; cbn [add_blocks].
  - by rewrite Nat.add_0_r, Nat.sub_0_r.
  - rewrite take_replicate_le, drop_replicate by lia.
    rewrite zip_with_fadd_replicate by lia.
    rewrite IH by lia.
    replace (c + 1 + k) with (c + S k) by lia.
    by replace (m - 8 - 8 * k) with (m - 8 * S k) by lia.
Qed.

Lemma sum8_ones c :
  (Z.of_nat (8 * c) ≤ 2 ^ 53)%Z → sum8 (replicate 8 (of_nat c)) = of_nat (8 * c).
Proof.
  intros H. cbn [replicate sum8].
  rewrite !fadd_nat by lia. f_equal. lia.
Qed.

Lemma pairwise_sum_ones fuel n :
  n ≤ fuel → (Z.of_nat n ≤ 2 ^ 53)%Z →
  pairwise_sum fuel (replicate n (of_nat 1)) = of_nat n.
Proof.
  revert n. induction fuel as [|fuel IH]; intros n Hf Hn.
  - assert (n = 0) as -> by lia. done.
  - cbn [pairwise_sum]. rewrite length_replicate.
    destruct (n <? 8) eqn:E8.
    { apply (foldl_fadd_ones 0). lia. }
    apply Nat.ltb_ge in E8.
    destruct (n <=? 128) eqn:E128.
    { apply Nat.leb_le in E128.
      rewrite take_replicate_le, drop_replicate by lia.
      pose proof (Nat.div_mod_eq n 8) as Hdm.
      pose proof (Nat.mod_upper_bound n 8 ltac:(lia)) as Hmod.
      rewrite (add_blocks_ones 1) by lia.
      rewrite sum8_ones by lia. rewrite foldl_fadd_ones by lia.
      f_equal. lia. }
    apply Nat.leb_gt in E128.
    set (n2 := n / 2 - (n / 2) mod 8).
    pose proof (Nat.div_mod_eq n 2) as Hdm.
    pose proof (Nat.mod_upper_bound n 2 ltac:(lia)) as Hmod.
    pose proof (Nat.mod_upper_bound (n / 2) 8 ltac:(lia)) as Hmod8.
    assert (n2 ≤ n / 2) as Hn2 by (unfold n2; lia).
    assert (0 < n2) as Hn2' by (unfold n2; lia).
    rewrite take_replicate_le, drop_replicate by lia.
    rewrite !IH by lia. rewrite fadd_nat by lia. f_equal. lia.
Qed.

Lemma np_sum_replicate_ones n :
  (Z.of_nat n ≤ 2 ^ 53)%Z → np_sum (replicate n (of_nat 1)) = of_nat n.
Proof.
  intros H. unfold np_sum. rewrite length_replicate.
  by apply pairwise_sum_ones.
Qed.

(** ** The usage mask *)

Section mask_facts.
Implicit Types (mask : list bool) (ids : list nat) (x : nat).

Lemma mask_out_length mask ids : length (mask_out mask ids) = length mask.
Proof.
  unfold mask_out. revert mask.
  induction ids as [|i ids IH]; intros mask; simpl; [done|].
  by rewrite IH, length_insert.
Qed.

Lemma mask_out_avail mask ids x :
  avail (mask_out mask ids) x → avail mask x ∧ x ∉ ids.
Proof.
  unfold mask_out, avail. revert mask.
  induction ids as [|i ids IH]; intros mask H; simpl in *.
  - split; [done|]. apply not_elem_of_nil.
  - apply IH in H as [H Hni].
    destruct (decide (i = x)) as [->|Hne].
    + apply list_lookup_insert_Some in H as [(_ & ? & _)|(? & _)]; done.
    + rewrite list_lookup_insert_ne in H by done.
      split; [done|]. rewrite elem_of_cons. intros [?|?]; congruence.
Qed.

Lemma mask_out_used mask ids x :
  x ∈ ids → x < length mask → mask_out mask ids !! x = Some false.
Proof.
  intros Hin Hlt.
  destruct (mask_out mask ids !! x) as [[]|] eqn:E.
  - apply mask_out_avail in E as [_ E]. done.
  - done.
  - apply lookup_ge_None in E. rewrite mask_out_length in E. lia.
Qed.
End mask_facts.

Lemma mask_le_refl mask : mask_le mask mask.
Proof. by split. Qed.

Lemma mask_le_trans m3 m2 m1 : mask_le m3 m2 → mask_le m2 m1 → mask_le m3 m1.
Proof. intros [L1 H1] [L2 H2]. split; [congruence|]. eauto. Qed.

Lemma mask_le_out mask ids : mask_le (mask_out mask ids) mask.
Proof.
  split; [apply mask_out_length|].
  intros x H. by apply mask_out_avail in H as [? _].
Qed.

Lemma mask_le_used m' m x : mask_le m' m → m !! x = Some false → m' !! x = Some false.
Proof.
  intros [L H] Hx.
  destruct (m' !! x) as [[]|] eqn:E.
  - apply H in E. unfold avail in E. congruence.
  - done.
  - apply lookup_ge_None in E. apply lookup_lt_Some in Hx. lia.
Qed.

(** The unused ids of a slice are available ids at or after its start. *)
Lemma elem_of_unused (mask : list bool) (s : slice) (x : nat) :
  x ∈ (fun i => i + slice_start s) <$> flatnonzero (get_slice mask s) →
  avail mask x ∧ slice_start s ≤ x.
Proof.
  intros (i & -> & Hi)%list_elem_of_fmap.
  unfold flatnonzero in Hi. apply list_elem_of_filter in Hi as [Hi _].
  unfold get_slice in Hi. apply lookup_take_Some in Hi as [Hi _].
  rewrite lookup_drop in Hi. unfold avail, slice_start.
  split; [|lia]. by rewrite Nat.add_comm.
Qed.

(** ** Draws *)

Lemma draw_many_spec (a : list nat) (size : nat) (g : RandomState) :
  a ≠ [] →
  length (draw_many a size g).1 = size ∧ ∀ x, x ∈ (draw_many a size g).1 → x ∈ a.
Proof.
  intros Ha. revert g. induction size as [|n IH]; intros g; simpl.
  - split; [done|]. intros x Hx. by apply elem_of_nil in Hx.
  - destruct (draw_many a n _) as [xs g2] eqn:E. simpl.
    specialize (IH {| raw := raw g; pos := S (pos g) |}). rewrite E in IH.
    destruct IH as [IH1 IH2]. split; [simpl in *; lia|].
    intros x [->|Hx]%elem_of_cons; [|by apply IH2].
    apply nth_elem_of. apply Nat.mod_upper_bound. by destruct a.
Qed.

Lemma draw_many_zero_size a g : draw_many a 0 g = ([], g).
Proof. done. Qed.

Lemma choice_size a size g chosen g1 :
  choice a size g = Ok (chosen, g1) →
  (0 <= size < max_array_length)%Z
  ∧ (chosen, g1) = draw_many a (Z.to_nat size) g.
Proof.
  unfold choice. destruct (size <? 0)%Z eqn:E1; [done|].
  destruct (_ && _); [done|].
  destruct (2 ^ 63 <=? size)%Z; [done|].
  destruct (2 ^ 60 <=? size)%Z; [done|].
  destruct (max_array_length <=? size)%Z eqn:E2; [done|].
  intros [= <-]. split; [lia|done].
Qed.

Lemma choice_spec a size g chosen g1 :
  choice a size g = Ok (chosen, g1) →
  length chosen = Z.to_nat size ∧ ∀ x, x ∈ chosen → x ∈ a.
Proof.
  intros H. pose proof (choice_size _ _ _ _ _ H) as [Hsz Hd].
  unfold choice in H. destruct (size <? 0)%Z eqn:E1; [done|].
  destruct (bool_decide (a = [])) eqn:E2; cbn [andb] in H.
  - destruct (0 <? size)%Z eqn:E3; [done|].
    assert (size = 0%Z) as -> by lia. cbn in Hd. injection Hd as -> ->.
    split; [done|]. intros x Hx. by apply elem_of_nil in Hx.
  - apply bool_decide_eq_false in E2.
    pose proof (draw_many_spec a (Z.to_nat size) g E2) as [H1 H2].
    rewrite <- Hd in H1, H2. done.
Qed.

Lemma bool_index_elem {A} (a : list A) sel x : x ∈ bool_index a sel → x ∈ a.
Proof.
  revert sel. induction a as [|y a IH]; intros [|[] sel] Hx; simpl in Hx;
    try (by apply elem_of_nil in Hx).
  - apply elem_of_cons in Hx as [->|Hx]; [left|right; eauto].
  - right; eauto.
Qed.

(** ** Floats that are not negative *)

Lemma nonneg_float_0 : nonneg_float (Fin 0).
Proof. split; [lra|reflexivity]. Qed.

Lemma nonneg_float_1 : nonneg_float (Fin 1).
Proof. split; [lra|]. by vm_compute. Qed.

Lemma round64_not_nan x : round64 x ≠ NaN.
Proof.
  unfold round64, round_pos. destruct (Qred x ?= 0)%Q; [done| |].
  - by destruct (Qle_bool _ _).
  - by destruct (Qle_bool _ _).
Qed.

Lemma fadd_nonneg_float a b :
  nonneg_float a → nonneg_float b →
  nonneg_float (fadd a b) ∧ fleb a (fadd a b) = true.
Proof.
  intros Ha Hb. destruct b as [w|[]|]; try done.
  - apply fadd_nonneg; [done|]. apply Hb.
  - by destruct a as [v|[]|].
Qed.

Lemma fadd_nonneg_1 a b :
  nonneg_float a → nonneg_float b → nonneg_float (fadd a b).
Proof. intros Ha Hb. by apply fadd_nonneg_float. Qed.

Lemma fadd_0_l a : nonneg_float a → fadd (Fin 0) a = a.
Proof.
  destruct a as [v|[]|]; try done. intros [_ H]. cbn [fadd].
  rewrite (round64_comp (0 + v) v) by ring. done.
Qed.

Lemma fsub_0_r a : nonneg_float a → fsub a (Fin 0) = a.
Proof.
  destruct a as [v|[]|]; try done. intros [_ H]. cbn [fsub].
  rewrite (round64_comp (v - 0) v) by ring. done.
Qed.

Lemma fleb_false_fltb a mx :
  nonneg_float a → mx ≠ NaN → fleb mx a = false → fltb a mx = true.
Proof.
  destruct a as [y|[]|], mx as [x|[]|]; cbn; try done.
  intros _ _ H. unfold Qltb. by rewrite H.
Qed.

Lemma foldl_fadd_nonneg l acc :
  nonneg_float acc → Forall nonneg_float l → nonneg_float (foldl fadd acc l).
Proof.
  revert acc. induction l as [|x l IH]; intros acc Ha Hl; [done|].
  apply Forall_cons in Hl as [Hx Hl]. cbn [foldl].
  apply IH; [by apply fadd_nonneg_1|done].
Qed.

Lemma zip_with_fadd_nonneg r a :
  Forall nonneg_float r → Forall nonneg_float a →
  Forall nonneg_float (zip_with fadd r a).
Proof.
  intros Hr. revert a. induction Hr as [|x r Hx Hr IH]; intros [|y a] Ha;
    cbn [zip_with]; try constructor.
  - apply Forall_cons in Ha as [Hy _]. by apply fadd_nonneg_1.
  - apply Forall_cons in Ha as [_ Ha]. by apply IH.
Qed.

Lemma add_blocks_nonneg k r a :
  Forall nonneg_float r → Forall nonneg_float a →
  Forall nonneg_float (add_blocks r a k).1
  ∧ Forall nonneg_float (add_blocks r a k).2.
Proof.
  revert r a. induction k as [|k IH]; intros r a Hr Ha; cbn [add_blocks];
    [done|].
  apply IH; [|by apply Forall_drop].
  apply zip_with_fadd_nonneg; [done|by apply Forall_take].
Qed.

Lemma sum8_nonneg r : Forall nonneg_float r → nonneg_float (sum8 r).
Proof.
  intros Hr. unfold sum8.
  destruct r as [|r0 [|r1 [|r2 [|r3 [|r4 [|r5 [|r6 [|r7 [|r8 r]]]]]]]]];
    try (apply foldl_fadd_nonneg; [apply nonneg_float_0|done]).
  repeat (apply Forall_cons in Hr as [? Hr]).
  repeat apply fadd_nonneg_1; done.
Qed.

Lemma pairwise_sum_nonneg fuel a :
  Forall nonneg_float a → nonneg_float (pairwise_sum fuel a).
Proof.
  revert a. induction fuel as [|fuel IH]; intros a Ha; cbn [pairwise_sum].
  - destruct (_ <? 8); [by apply foldl_fadd_nonneg; [apply nonneg_float_0|]|].
    destruct (_ <=? 128); [|by apply foldl_fadd_nonneg; [apply nonneg_float_0|]].
    pose proof (add_blocks_nonneg (length a / 8 - 1) (take 8 a) (drop 8 a)
                  (Forall_take _ _ _ Ha) (Forall_drop _ _ _ Ha)) as [H1 H2].
    destruct (add_blocks _ _ _) as [r rest]. cbn [fst snd] in *.
    apply foldl_fadd_nonneg; [by apply sum8_nonneg|done].
  - destruct (_ <? 8); [by apply foldl_fadd_nonneg; [apply nonneg_float_0|]|].
    destruct (_ <=? 128).
    + pose proof (add_blocks_nonneg (length a / 8 - 1) (take 8 a) (drop 8 a)
                    (Forall_take _ _ _ Ha) (Forall_drop _ _ _ Ha)) as [H1 H2].
      destruct (add_blocks _ _ _) as [r rest]. cbn [fst snd] in *.
      apply foldl_fadd_nonneg; [by apply sum8_nonneg|done].
    + apply fadd_nonneg_1; apply IH; [by apply Forall_take|by apply Forall_drop].
Qed.

Lemma np_sum_nonneg a : Forall nonneg_float a → nonneg_float (np_sum a).
Proof. apply pairwise_sum_nonneg. Qed.

(** The running sums of lengths never decrease. *)
Lemma cumsum_from_above acc sizes :
  nonneg_float acc → Forall nonneg_float sizes →
  Forall (fun c => nonneg_float c ∧ fleb acc c = true) (cumsum_from acc sizes).
Proof.
  intros Ha Hs. revert acc Ha.
  induction Hs as [|x sizes Hx Hs IH]; intros acc Ha; cbn [cumsum_from];
    [constructor|].
  destruct (fadd_nonneg_float acc x Ha Hx) as [Hn Hle].
  constructor; [done|].
  eapply Forall_impl; [exact (IH _ Hn)|]. intros c [Hc Hle'].
  split; [done|]. by eapply fleb_trans.
Qed.

Lemma cumsum_from_not_below acc allowance sizes :
  nonneg_float acc → Forall nonneg_float sizes →
  fltb acc allowance = false →
  Forall (fun c => fltb c allowance = false) (cumsum_from acc sizes).
Proof.
  intros Ha Hs Hacc.
  eapply Forall_impl; [exact (cumsum_from_above acc sizes Ha Hs)|].
  intros c [_ Hle]. destruct (fltb c allowance) eqn:E; [|done].
  by rewrite (fltb_fleb_trans _ _ _ Hle E) in Hacc.
Qed.

Lemma cumsum_from_length acc l : length (cumsum_from acc l) = length l.
Proof.
  revert acc. induction l as [|x l IH]; intros acc; cbn; [done|].
  by rewrite IH.
Qed.

Lemma cumsum_length l : length (cumsum l) = length l.
Proof. destruct l; cbn; [done|]. by rewrite cumsum_from_length. Qed.

Lemma cumsum_from_take acc k l :
  cumsum_from acc (take k l) = take k (cumsum_from acc l).
Proof.
  revert acc k. induction l as [|x l IH]; intros acc [|k]; cbn; try done.
  by rewrite IH.
Qed.

Lemma cumsum_take k l : cumsum (take k l) = take k (cumsum l).
Proof.
  destruct l as [|x l], k as [|k]; cbn; try done.
  by rewrite cumsum_from_take.
Qed.

(** ** Costs *)

Lemma fancy_index_spec a ids xs :
  fancy_index a ids = Ok xs → xs = (fun i => nth i a (Fin 0)) <$> ids.
Proof.
  revert xs. induction ids as [|i ids IH]; intros xs; simpl.
  - by intros [= <-].
  - destruct (a !! i) as [x|] eqn:E; [|done].
    destruct (fancy_index a ids) as [ys| |]; simpl; [|done..].
    intros [= <-]. rewrite (IH ys eq_refl). f_equal.
    symmetry. by apply nth_lookup_Some with (d := Fin 0) in E.
Qed.

Lemma compute_spec self chosen sizes :
  _compute_and_adjust_batch_size self chosen = Ok sizes →
  sizes = cost self <$> chosen.
Proof.
  unfold _compute_and_adjust_batch_size, cost, getitem.
  destruct (String.eqb _ _).
  - destruct (streamline_lengths_mm (dataset self) !! _) as [l|] eqn:E;
      simpl; [|done].
    intros H%fancy_index_spec. subst sizes.
    by rewrite (nth_lookup_Some _ _ [] _ E).
  - intros [= <-]. induction chosen; simpl; [done|]. by f_equal.
Qed.

Lemma cost_nonneg self x : lengths_nonneg self → nonneg_float (cost self x).
Proof.
  unfold lengths_nonneg, cost. intros H.
  destruct (String.eqb _ _); [|apply nonneg_float_1].
  set (l := nth _ _ _) in *.
  destruct (decide (x < length l)) as [Hlt|Hge].
  - rewrite Forall_forall in H. apply H. by apply nth_elem_of.
  - rewrite nth_overflow by lia. apply nonneg_float_0.
Qed.

Lemma costs_nonneg self (l : list nat) :
  lengths_nonneg self → Forall nonneg_float (cost self <$> l).
Proof.
  intros H. apply Forall_fmap, Forall_forall. intros x _.
  by apply cost_nonneg.
Qed.

Lemma cost_count self x :
  batch_size_units self = "nb_streamlines"%string → cost self x = Fin 1.
Proof. unfold cost. by intros ->. Qed.

Lemma cost_ones self (l : list nat) :
  batch_size_units self = "nb_streamlines"%string →
  cost self <$> l = replicate (length l) (of_nat 1).
Proof.
  intros Hu. induction l as [|x l IH]; [done|].
  cbn [fmap list_fmap length replicate]. rewrite (cost_count self x Hu).
  f_equal. exact IH.
Qed.

Lemma bool_index_fmap {A B} (f : A → B) (a : list A) sel :
  bool_index (f <$> a) sel = f <$> bool_index a sel.
Proof.
  revert sel. induction a as [|x a IH]; intros [|[] sel]; simpl; try done.
  - by rewrite IH.
Qed.

(** ** Trimming keeps a prefix *)

Lemma selected_none {A} (a : list A) allowance sums :
  Forall (fun c => fltb c allowance = false) sums →
  bool_index a (selected allowance sums) = [].
Proof.
  intros Hs. revert a. induction Hs as [|c sums Hc Hs IH]; intros [|y a];
    cbn; try done.
  rewrite Hc. apply IH.
Qed.

Lemma bool_index_prefix_from {A} (a : list A) acc allowance sizes :
  nonneg_float acc → Forall nonneg_float sizes →
  bool_index a (selected allowance (cumsum_from acc sizes))
  = take (longest_prefix_below allowance (cumsum_from acc sizes)) a.
Proof.
  intros Ha Hs. revert a acc Ha.
  induction Hs as [|x sizes Hx Hs IH]; intros a acc Ha.
  - by destruct a.
  - cbn [cumsum_from selected fmap list_fmap longest_prefix_below].
    pose proof (fadd_nonneg_1 acc x Ha Hx) as Hn.
    destruct (fltb (fadd acc x) allowance) eqn:E;
      destruct a as [|y a]; cbn [bool_index take]; try done.
    + f_equal. by apply IH.
    + apply selected_none. by apply cumsum_from_not_below.
Qed.

Lemma bool_index_prefix {A} (a : list A) allowance sizes :
  Forall nonneg_float sizes →
  bool_index a (selected allowance (cumsum sizes))
  = take (longest_prefix_below allowance (cumsum sizes)) a.
Proof.
  intros Hs. destruct Hs as [|x sizes Hx Hs]; [by destruct a|].
  cbn [cumsum selected fmap list_fmap longest_prefix_below].
  destruct (fltb x allowance) eqn:E; destruct a as [|y a];
    cbn [bool_index take]; try done.
  - f_equal. by apply bool_index_prefix_from.
  - apply selected_none. by apply cumsum_from_not_below.
Qed.

Lemma prefix_below allowance sums j c :
  j < longest_prefix_below allowance sums →
  sums !! j = Some c → fltb c allowance = true.
Proof.
  revert j. induction sums as [|x sums IH]; intros j; cbn; [lia|].
  destruct (fltb x allowance) eqn:E; [|lia].
  destruct j as [|j]; cbn.
  - by intros _ [= <-].
  - intros Hj. apply IH. lia.
Qed.

Lemma prefix_longest allowance sums c :
  sums !! longest_prefix_below allowance sums = Some c →
  fltb c allowance = false.
Proof.
  induction sums as [|x sums IH]; cbn; [done|].
  destruct (fltb x allowance) eqn:E; cbn; [exact IH|].
  by intros [= <-].
Qed.

Lemma longest_prefix_le allowance sums :
  longest_prefix_below allowance sums ≤ length sums.
Proof.
  induction sums as [|x sums IH]; cbn; [done|].
  destruct (fltb x allowance); lia.
Qed.

Lemma prefix_all_below allowance sums :
  Forall (fun c => fltb c allowance = true)
         (take (longest_prefix_below allowance sums) sums).
Proof.
  induction sums as [|x sums IH]; cbn; [constructor|].
  destruct (fltb x allowance) eqn:E; cbn; [|constructor].
  by constructor.
Qed.

(** ** One chunk *)

Lemma get_a_chunk_empty self s mask cur mx g :
  unused_ids mask s = [] →
  _get_a_chunk_of_streamlines self s mask cur mx g
  = Ok (Return4 [] [] true false, g).
Proof.
  unfold unused_ids, _get_a_chunk_of_streamlines. by intros ->.
Qed.

Lemma get_a_chunk_inv self s mask cur mx g ret g1 :
  _get_a_chunk_of_streamlines self s mask cur mx g = Ok (ret, g1) →
  (unused_ids mask s = [] ∧ ret = Return4 [] [] true false ∧ g1 = g)
  ∨ ∃ chosen,
      unused_ids mask s ≠ [] ∧
      choice (unused_ids mask s) (nb_streamlines_per_chunk self) g
        = Ok (chosen, g1) ∧
      _compute_and_adjust_batch_size self chosen = Ok (cost self <$> chosen) ∧
      let sel := selected (fsub mx cur) (cumsum (cost self <$> chosen)) in
      if fleb mx (fadd cur (np_sum (cost self <$> chosen))) then
        ret = Return5 (bool_index chosen sel)
                ((fun i => i - slice_start s) <$> bool_index chosen sel)
                (np_sum (cost self <$> bool_index chosen sel)) false true
      else
        ret = Return5 chosen ((fun i => i - slice_start s) <$> chosen)
                (np_sum (cost self <$> chosen)) false false.
Proof.
  unfold _get_a_chunk_of_streamlines. fold (unused_ids mask s).
  destruct (unused_ids mask s) as [|u us] eqn:Eu; simpl.
  - intros [= <- <-]. by left.
  - rewrite <- Eu.
    destruct (choice _ _ _) as [[chosen g1']| |] eqn:Ec; simpl; [|done..].
    destruct (_compute_and_adjust_batch_size self chosen)
      as [sizes| |] eqn:Es; simpl; [|done..].
    pose proof (compute_spec _ _ _ Es) as ->.
    intros H. right. exists chosen.
    split; [by rewrite Eu|].
    destruct (fleb _ _) eqn:Eq; simplify_eq; (split; [done|split; [done|]]);
      [|done].
    unfold selected. by rewrite bool_index_fmap.
Qed.

(** ** One subject *)

Lemma gathered_trimmed self mx total chosen :
  lengths_nonneg self →
  length chosen = Z.to_nat (nb_streamlines_per_chunk self) →
  gathered self mx total
    (bool_index chosen
       (selected (fsub mx total) (cumsum (cost self <$> chosen)))).
Proof.
  intros Hnn Hlen.
  rewrite (bool_index_prefix chosen _ _ (costs_nonneg self chosen Hnn)).
  set (k := longest_prefix_below _ _). apply gathered_kept.
  - rewrite length_take. lia.
  - rewrite fmap_take, cumsum_take. apply prefix_all_below.
Qed.

Lemma subj_loop_spec fuel self s mask mx total sampled g sampled' mask' g' :
  subj_loop fuel self s mask mx total sampled g = Ok (sampled', mask', g') →
  ∃ gids,
    sampled' = sampled ++ ((fun i => i - slice_start s) <$> gids)
    ∧ Forall (fun x => avail mask x ∧ slice_start s ≤ x) gids
    ∧ Forall (fun x => mask' !! x = Some false) gids
    ∧ mask_le mask' mask
    ∧ (lengths_nonneg self → mx ≠ NaN → nonneg_float total →
       gathered self mx total gids).
Proof.
  revert mask total sampled g.
  induction fuel as [|fuel IH]; intros mask total sampled g; [done|].
  cbn [subj_loop].
  destruct (_get_a_chunk_of_streamlines self s mask total mx g)
    as [[ret g1]| |] eqn:E; cbn [bind]; [|done..].
  apply get_a_chunk_inv in E
    as [(_ & -> & ->)|(chosen & Hne & Hc & _ & Hret)]; [done|].
  apply choice_spec in Hc as [Hlen Hc].
  assert (Hchosen : Forall (fun x => avail mask x ∧ slice_start s ≤ x) chosen).
  { apply Forall_forall. intros x Hx. by apply elem_of_unused, Hc. }
  cbv zeta in Hret. destruct (fleb _ _) eqn:Eq; subst ret; cbn.
  - intros [= <- <- <-]. eexists. split; [done|].
    set (gids := bool_index chosen _).
    assert (Hg : Forall (fun x => avail mask x ∧ slice_start s ≤ x) gids).
    { apply Forall_forall. intros x Hx%bool_index_elem.
      rewrite Forall_forall in Hchosen. auto. }
    split; [done|]. split; [|split; [apply mask_le_out|]].
    + apply Forall_forall. intros x Hx. apply mask_out_used; [done|].
      rewrite Forall_forall in Hg. destruct (Hg x Hx) as [Ha _].
      by apply lookup_lt_Some in Ha.
    + intros Hnn _ _. by apply gathered_trimmed.
  - intros H. apply IH in H as (gids2 & -> & Ha2 & Hu2 & Hle2 & Hc2).
    exists (chosen ++ gids2).
    split; [by rewrite fmap_app, app_assoc|].
    pose proof (mask_le_out mask chosen) as Hle1.
    split; [|split; [|split; [by eapply mask_le_trans|]]].
    + apply Forall_app. split; [done|].
      eapply Forall_impl; [exact Ha2|]. intros x [Hx ?].
      split; [by apply Hle1|done].
    + apply Forall_app. split; [|done].
      apply Forall_forall. intros x Hx.
      apply (mask_le_used _ _ _ Hle2). apply mask_out_used; [done|].
      rewrite Forall_forall in Hchosen. destruct (Hchosen x Hx) as [Ha _].
      by apply lookup_lt_Some in Ha.
    + intros Hnn Hmx Ht.
      assert (nonneg_float (fadd total (np_sum (cost self <$> chosen)))) as Hn.
      { apply fadd_nonneg_1; [done|]. by apply np_sum_nonneg, costs_nonneg. }
      apply gathered_chunk; [done| |by apply Hc2].
      by apply fleb_false_fltb.
Qed.

Lemma sample_spec fuel self subj ids mask mx g sampled mask' g' :
  _sample_streamlines_for_subj fuel self subj ids mask mx g
    = Ok (sampled, mask', g') →
  Forall (fun x => avail mask x ∧ mask' !! x = Some false)
         (pair_global_ids ids (subj, sampled))
  ∧ mask_le mask' mask
  ∧ is_Some (ids !! subj)
  ∧ (lengths_nonneg self → mx ≠ NaN →
     gathered self mx (Fin 0) (pair_global_ids ids (subj, sampled))).
Proof.
  unfold _sample_streamlines_for_subj, dict_getitem, pair_global_ids.
  cbn [fst snd]. destruct (ids !! subj) as [s|]; cbn [bind]; [|done].
  intros (gids & -> & Ha & Hu & Hle & Hc)%subj_loop_spec.
  cbn [app]. rewrite <- list_fmap_compose.
  assert (((fun r => r + slice_start s) ∘ (fun i => i - slice_start s)) <$> gids
          = gids) as ->.
  { rewrite <- (list_fmap_id gids) at 2. apply Forall_fmap_ext.
    eapply Forall_impl; [exact Ha|]. intros x [_ ?]. cbn. lia. }
  split; [|split; [done|split; [done|]]].
  - apply Forall_forall. intros x Hx. rewrite Forall_forall in Ha, Hu.
    split; [by apply Ha|by apply Hu].
  - intros Hnn Hmx. apply Hc; [done..|apply nonneg_float_0].
Qed.

(** ** The subject loop of a cycle *)

Lemma for_subjs_spec self ids mx subjs mask g b b' mask' g' :
  for_subjs self ids mx subjs mask g b = Ok (b', mask', g') →
  ∃ newb,
    b' = b ++ newb
    ∧ newb.*1 = subjs
    ∧ Forall (fun x => avail mask x ∧ mask' !! x = Some false)
             (batch_global_ids ids newb)
    ∧ mask_le mask' mask
    ∧ Forall (fun p => is_Some (ids !! p.1)) newb
    ∧ (lengths_nonneg self → mx ≠ NaN →
       Forall (fun p => gathered self mx (Fin 0) (pair_global_ids ids p))
              newb).
Proof.
  revert mask g b. induction subjs as [|subj rest IH]; intros mask g b; cbn.
  - intros [= <- <- <-]. exists []. rewrite app_nil_r.
    repeat split; done.
  - destruct (_sample_streamlines_for_subj _ _ _ _ _ _ _)
      as [[[sampled mask1] g1]| |] eqn:E; cbn [bind]; [|done..].
    apply sample_spec in E as (Hs & Hle1 & Hk1 & Hc1).
    intros (newb & -> & Hsub & Hb & Hle2 & Hk2 & Hc2)%IH.
    exists ((subj, sampled) :: newb).
    split; [by rewrite <- app_assoc|]. split; [by cbn; f_equal|].
    split; [|split; [by eapply mask_le_trans|split; [by constructor|]]].
    + unfold batch_global_ids. cbn. apply Forall_app. split.
      * eapply Forall_impl; [exact Hs|]. intros x [? Hx].
        split; [done|]. by apply (mask_le_used _ _ _ Hle2).
      * eapply Forall_impl; [exact Hb|]. intros x [Hx ?].
        split; [by apply Hle1|done].
    + intros Hnn Hmx. constructor; [by apply Hc1|by apply Hc2].
Qed.

(** ** Steps of the generator *)

Lemma select_subjects_inv self ids mask g :
  match select_subjects self ids mask g with
  | Yield _ _ _ => False
  | Continue fr' _ =>
      ∃ subjs mx it, fr' = AtCycle ids mask subjs mx it
  | _ => True
  end.
Proof.
  unfold select_subjects.
  destruct (negb _); [done|]. destruct (_ =? 0); [done|].
  destruct (truthy (nb_subjects_per_batch self)).
  - destruct (choice_p _ _ _ _) as [[subjs g1]| |]; cbn [bind]; [|done..].
    destruct (py_truediv _ _); [eauto|done..].
  - destruct (py_truediv _ _); [eauto|done..].
Qed.

Lemma step_spec self fr g :
  match step self fr g with
  | Yield b fr' _ =>
      frame_ids fr' = frame_ids fr
      ∧ mask_le (frame_mask fr') (frame_mask fr)
      ∧ Forall (fun x => avail (frame_mask fr) x
                         ∧ frame_mask fr' !! x = Some false)
               (batch_global_ids (frame_ids fr) b)
  | Continue fr' _ =>
      frame_ids fr' = frame_ids fr ∧ mask_le (frame_mask fr') (frame_mask fr)
  | _ => True
  end.
Proof.
  destruct fr as [ids mask|ids mask subjs mx it]; cbn [step].
  - pose proof (select_subjects_inv self ids mask g) as H.
    destruct (select_subjects self ids mask g); try done.
    destruct H as (? & ? & ? & ->). split; [done|apply mask_le_refl].
  - unfold one_cycle.
    assert (match for_subjs self ids mx subjs mask g [] with
            | Ok (b, mask1, g1) =>
                mask_le mask1 mask
                ∧ Forall (fun x => avail mask x ∧ mask1 !! x = Some false)
                         (batch_global_ids ids b)
            | _ => True
            end) as H.
    { destruct (for_subjs _ _ _ _ _ _ _) as [[[b mask1] g1]| |] eqn:E; [|done..].
      apply for_subjs_spec in E as (newb & -> & _ & Hb & Hle & _ & _). done. }
    destruct (for_subjs _ _ _ _ _ _ _) as [[[b mask1] g1]| |].
    2,3: by destruct it as [[|?]|]; [split; [|apply mask_le_refl]|..].
    destruct H as [Hle Hb].
    destruct it as [[|n]|]; cbn [frame_ids frame_mask].
    + split; [done|apply mask_le_refl].
    + destruct (length b =? 0); cbn [frame_ids frame_mask]; done.
    + destruct (length b =? 0); cbn [frame_ids frame_mask]; done.
Qed.

(** ** Runs of the generator *)

Lemma run_avail self fuel fr g b x :
  b ∈ (run fuel self fr g).1 →
  x ∈ batch_global_ids (frame_ids fr) b →
  avail (frame_mask fr) x.
Proof.
  revert fr g. induction fuel as [|fuel IH]; intros fr g; cbn [run].
  - no_batch.
  - pose proof (step_spec self fr g) as Hs.
    destruct (step self fr g) as [b0 fr' g'|fr' g'| | |]; try no_batch.
    + destruct Hs as (Hids & Hle & Hb).
      destruct (run fuel self fr' g') as [bs st] eqn:E. cbn [fst].
      intros [->|Hin]%elem_of_cons Hx.
      * rewrite Forall_forall in Hb. by apply Hb.
      * apply Hle. apply (IH fr' g'); rewrite ?E, ?Hids; done.
    + destruct Hs as (Hids & Hle). intros Hin Hx.
      apply Hle. apply (IH fr' g'); rewrite ?Hids; done.
Qed.

Lemma run_disjoint self fuel fr g i j bi bj x :
  i < j →
  (run fuel self fr g).1 !! i = Some bi →
  (run fuel self fr g).1 !! j = Some bj →
  x ∈ batch_global_ids (frame_ids fr) bi →
  x ∉ batch_global_ids (frame_ids fr) bj.
Proof.
  revert fr g i j. induction fuel as [|fuel IH]; intros fr g i j Hij;
    cbn [run]; [done|].
  pose proof (step_spec self fr g) as Hs.
  destruct (step self fr g) as [b0 fr' g'|fr' g'| | |]; try done.
  - destruct Hs as (Hids & Hle & Hb).
    pose proof (run_avail self fuel fr' g') as Hav.
    specialize (IH fr' g').
    destruct (run fuel self fr' g') as [bs st]. cbn [fst] in *.
    destruct j as [|j]; [lia|]. destruct i as [|i]; cbn.
    + intros [= <-] Hj Hx Hx'.
      rewrite Forall_forall in Hb. destruct (Hb x Hx) as [_ Hu].
      rewrite <- Hids in Hx'.
      apply list_elem_of_lookup_2 in Hj.
      specialize (Hav bj x Hj Hx'). unfold avail in Hav. congruence.
    + rewrite <- Hids. apply IH. lia.
  - destruct Hs as (Hids & _). rewrite <- Hids. by apply IH.
Qed.

Lemma iter_start_inv self fr :
  iter_start self = Ok fr →
  ∃ total ids,
    getitem (total_nb_streamlines (dataset self)) (streamline_group_idx self)
      = Ok total
    ∧ getitem (streamline_ids_per_subj (dataset self))
              (streamline_group_idx self) = Ok ids
    ∧ fr = AtSelect ids (replicate total true).
Proof.
  unfold iter_start.
  destruct (getitem (total_nb_streamlines _) _) as [total| |]; cbn; [|done..].
  destruct (getitem (streamline_ids_per_subj _) _) as [ids| |]; cbn; [|done..].
  intros [= <-]. eauto.
Qed.

(** ** Selecting subjects *)

Lemma draw_distinct_spec cands size g :
  length (draw_distinct cands size g).1 = size `min` length cands
  ∧ ∀ x, x ∈ (draw_distinct cands size g).1 → x ∈ cands.
Proof.
  revert cands g. induction size as [|n IH]; intros cands g;
    cbn [draw_distinct].
  - split; [done|]. intros x Hx. by apply elem_of_nil in Hx.
  - destruct cands as [|c cs].
    { split; [done|]. intros x Hx. by apply elem_of_nil in Hx. }
    unfold next_raw. cbv beta iota zeta. set (cands := c :: cs).
    assert (Hlen : 0 < length cands) by (cbn; lia).
    set (i := raw g (pos g) mod length cands).
    assert (Hi : i < length cands) by (apply Nat.mod_upper_bound; lia).
    specialize (IH (delete i cands) {| raw := raw g; pos := S (pos g) |}).
    destruct (draw_distinct (delete i cands) n _) as [xs g2].
    cbn [fst length] in *. destruct IH as [IH1 IH2].
    rewrite length_delete in IH1 by (by apply lookup_lt_is_Some).
    split; [lia|].
    intros x [->|Hx]%elem_of_cons.
    + by apply nth_elem_of.
    + eapply list_elem_of_delete_inv. eauto.
Qed.

Lemma list_filter_iff_in {A} (P1 P2 : A → Prop)
    `{∀ x, Decision (P1 x)} `{∀ x, Decision (P2 x)} (l : list A) :
  (∀ x, x ∈ l → (P1 x ↔ P2 x)) → filter P1 l = filter P2 l.
Proof.
  induction l as [|x l IH]; intros Hl; [done|].
  rewrite !filter_cons.
  rewrite IH by (intros y Hy; apply Hl; by right).
  pose proof (Hl x ltac:(by left)) as Hx.
  destruct (decide (P1 x)), (decide (P2 x)); tauto.
Qed.

Lemma nonzero_indices_length (p : list Q) :
  length (filter (fun i => Qnonzero (nth i p 0%Q) = true) (seq 0 (length p)))
  = count_nonzero p.
Proof.
  unfold count_nonzero. induction p as [|w p IH] using rev_ind; [done|].
  rewrite length_app, Nat.add_comm. cbn [length Nat.add].
  rewrite seq_S, !filter_app, !length_app. cbn [Nat.add].
  f_equal.
  - rewrite <- IH. f_equal. apply list_filter_iff_in.
    intros i [_ Hi]%elem_of_seq. rewrite app_nth1; [done|lia].
  - rewrite !filter_cons, !filter_nil. cbn [Nat.add]. rewrite nth_middle.
    by destruct (decide (Qnonzero w = true)).
Qed.

Lemma choice_p_spec n size p g subjs g1 :
  choice_p n size p g = Ok (subjs, g1) →
  length subjs = Z.to_nat size
  ∧ Forall (fun i => i < length p ∧ Qnonzero (nth i p 0%Q) = true) subjs.
Proof.
  unfold choice_p. destruct (size <? 0)%Z eqn:E1; [done|].
  destruct (length p =? n) eqn:E2; cbn [negb]; [|done].
  destruct (Z.of_nat (count_nonzero p) <? size)%Z eqn:E3; [done|].
  apply Nat.eqb_eq in E2. subst n. intros [= H].
  pose proof (draw_distinct_spec
    (filter (fun i => Qnonzero (nth i p 0%Q) = true) (seq 0 (length p)))
    (Z.to_nat size) g) as [H1 H2].
  rewrite H in H1, H2. cbn [fst] in *.
  rewrite nonzero_indices_length in H1. split; [lia|].
  apply Forall_forall. intros i Hi%H2.
  apply list_elem_of_filter in Hi as [Hi Hs]. apply elem_of_seq in Hs.
  split; [lia|done].
Qed.

Lemma count_ones_unused mask s :
  count_ones (get_slice mask s) ≠ 0 → unused_ids mask s ≠ [].
Proof.
  unfold count_ones, unused_ids. intros Hc Hu.
  apply fmap_nil_inv in Hu.
  destruct (filter _ (get_slice mask s)) as [|b bs] eqn:E; [done|].
  assert (b ∈ filter (fun b => b = true) (get_slice mask s)) as Hb
    by (rewrite E; left).
  apply list_elem_of_filter in Hb as [-> Hb].
  apply list_elem_of_lookup_1 in Hb as [i Hi].
  assert (i ∈ flatnonzero (get_slice mask s)) as Hin.
  { unfold flatnonzero. apply list_elem_of_filter. split; [done|].
    apply elem_of_seq. apply lookup_lt_Some in Hi. lia. }
  rewrite Hu in Hin. by apply elem_of_nil in Hin.
Qed.

Lemma weight_nonzero c tot :
  Qnonzero (QofNat c / QofNat tot) = true → c ≠ 0.
Proof.
  intros H ->. unfold Qnonzero in H. apply negb_true_iff in H.
  apply Qeq_bool_neq in H. apply H. unfold QofNat at 1. cbn.
  unfold Qdiv. apply Qmult_0_l.
Qed.

(** Closes a goal on a division that cannot give what is assumed. *)
Ltac by_truediv :=
  unfold py_truediv; destruct (_ =? _)%Z; [done|]; by destruct (round64 _).

Lemma py_truediv_inv a b mx :
  py_truediv a b = Ok mx → b ≠ 0%Z ∧ mx ≠ NaN.
Proof.
  unfold py_truediv. destruct (b =? 0)%Z eqn:E; [done|].
  pose proof (round64_not_nan (inject_Z a / inject_Z b)) as Hn.
  destruct (round64 _); [|done..]. intros [= <-]. split; [lia|done].
Qed.

Lemma select_subjects_spec self ids mask g fr' g' :
  select_subjects self ids mask g = Continue fr' g' →
  ∃ subjs nb mx,
    fr' = AtCycle ids mask subjs mx
            (if truthy (cycles self)
             then Some (Z.to_nat (default 0%Z (cycles self))) else None)
    ∧ py_truediv (batch_size self) nb = Ok mx
    ∧ nb ≠ 0%Z
    ∧ Z.of_nat (length subjs) = nb
    ∧ if truthy (nb_subjects_per_batch self)
      then (nb <= default 0 (nb_subjects_per_batch self))%Z
           ∧ Forall (has_supply ids mask) subjs
      else subjs = seq 0 (length ids).
Proof.
  unfold select_subjects.
  destruct (negb _); [done|]. destruct (_ =? 0); [done|].
  destruct (truthy (nb_subjects_per_batch self)).
  - destruct (choice_p _ _ _ _) as [[subjs g1]| |] eqn:E; cbn [bind]; [|done..].
    destruct (py_truediv _ _) as [mx| |] eqn:E0; [|done..]. intros [= <- <-].
    pose proof (py_truediv_inv _ _ _ E0) as [Hnb _].
    pose proof E as Hnn. unfold choice_p in Hnn.
    destruct (_ <? 0)%Z eqn:Eneg in Hnn; [done|]. clear Hnn.
    apply choice_p_spec in E as [Hlen Hs].
    eexists _, _, _. split; [done|]. split; [done|]. split; [done|].
    split; [lia|]. split; [lia|].
    eapply Forall_impl; [exact Hs|]. intros i [Hi Hw].
    rewrite !length_fmap in Hi.
    destruct (lookup_lt_is_Some_2 ids i Hi) as [s Hsl].
    exists s. split; [done|]. apply count_ones_unused.
    apply (list_lookup_fmap_Some_2
             (fun s => count_ones (get_slice mask s))) in Hsl.
    eapply list_lookup_fmap_Some_2 in Hsl.
    rewrite (nth_lookup_Some _ _ _ _ Hsl) in Hw.
    by apply weight_nonzero in Hw.
  - destruct (py_truediv _ _) as [mx| |] eqn:E0; [|done..]. intros [= <- <-].
    pose proof (py_truediv_inv _ _ _ E0) as [Hnb _].
    eexists _, _, _. split; [done|]. split; [done|].
    split; [done|]. split; [by rewrite length_seq|done].
Qed.

Lemma step_budget_split self fr g :
  budget_split self fr →
  match step self fr g with
  | Yield _ fr' _ | Continue fr' _ => budget_split self fr'
  | _ => True
  end.
Proof.
  destruct fr as [ids mask|ids mask subjs mx it]; cbn [step]; intros Hfr.
  - destruct (select_subjects self ids mask g) as [| fr' g'| | |] eqn:E; try done.
    + pose proof (select_subjects_inv self ids mask g) as H. by rewrite E in H.
    + apply select_subjects_spec in E
        as (subjs & nb & mx & -> & Hmx & Hnb & Hlen & _).
      cbn. split; [|by rewrite Hlen]. intros ->. cbn in Hlen. lia.
  - unfold one_cycle.
    destruct (for_subjs _ _ _ _ _ _ _) as [[[b mask1] g1]| |];
      destruct it as [[|n]|]; try done.
    + by destruct (length b =? 0).
    + by destruct (length b =? 0).
Qed.

(** ** Invariants of a run *)

(** A property of frames kept by every step, with a property of the
    batches it yields, holds of every batch of a run. *)
Lemma run_invariant self (I : frame → Prop) (P : batch → Prop) :
  (∀ fr g, I fr →
     match step self fr g with
     | Yield b fr' _ => P b ∧ I fr'
     | Continue fr' _ => I fr'
     | _ => True
     end) →
  ∀ fuel fr g, I fr → Forall P (run fuel self fr g).1.
Proof.
  intros Hstep. induction fuel as [|fuel IH]; intros fr g Hfr; cbn [run].
  - constructor.
  - specialize (Hstep fr g Hfr).
    destruct (step self fr g) as [b fr' g'|fr' g'| | |]; try constructor.
    + destruct Hstep as [Hb Hfr']. specialize (IH fr' g' Hfr').
      destruct (run fuel self fr' g') as [bs st]. by constructor.
    + by apply IH.
Qed.

Lemma iter_invariant self (I : frame → Prop) (P : batch → Prop) :
  (∀ fr g, I fr →
     match step self fr g with
     | Yield b fr' _ => P b ∧ I fr'
     | Continue fr' _ => I fr'
     | _ => True
     end) →
  (∀ fr, iter_start self = Ok fr → I fr) →
  ∀ fuel, Forall P (__iter__ fuel self).1.
Proof.
  intros Hstep Hstart fuel. unfold __iter__.
  destruct (iter_start self) as [fr| |] eqn:E; try constructor.
  eapply run_invariant; eauto.
Qed.

(** What one pass of the cycle loop yields: a pair per subject of the
    frame, in order. *)
Lemma one_cycle_yield self ids mask subjs mx it g b fr' g' :
  one_cycle self ids mask subjs mx it g = Yield b fr' g' →
  b.*1 = subjs ∧ b ≠ []
  ∧ ∃ mask1 it', fr' = AtCycle ids mask1 subjs mx it'
      ∧ for_subjs self ids mx subjs mask g [] = Ok (b, mask1, g').
Proof.
  unfold one_cycle.
  destruct (for_subjs _ _ _ _ _ _ _) as [[[b0 mask1] g1]| |] eqn:E.
  2,3: by destruct it as [[|?]|].
  pose proof E as (newb & -> & Hsub & _)%for_subjs_spec.
  destruct it as [[|n]|]; [done|..];
    (destruct (length _ =? 0) eqn:El; [done|]); intros [= <- <- <-];
    (split; [done|]); (split; [by intros ->|]); eauto.
Qed.

Lemma one_cycle_continue self ids mask subjs mx it g fr' g' :
  one_cycle self ids mask subjs mx it g = Continue fr' g' →
  ∃ mask1, fr' = AtSelect ids mask1.
Proof.
  unfold one_cycle.
  destruct it as [[|n]|]; [intros [= <- _]; eauto|..];
    (destruct (for_subjs _ _ _ _ _ _ _) as [[[b0 mask1] g1]| |]; [|done..]);
    (destruct (length _ =? 0); [|done]); intros [= <- _]; eauto.
Qed.

Lemma select_never_yields self ids mask g b fr' g' :
  select_subjects self ids mask g ≠ Yield b fr' g'.
Proof.
  intros E. pose proof (select_subjects_inv self ids mask g) as H.
  by rewrite E in H.
Qed.

(** ** Budgets counted in streamlines *)

Lemma Qlt_inject_ceiling (z : Z) (A : Q) :
  (inject_Z z < A)%Q ↔ (z < Qceiling A)%Z.
Proof.
  split.
  - intros H. rewrite Zlt_Qlt. pose proof (Qle_ceiling A). lra.
  - intros H. pose proof (Qceiling_lt A) as Hc.
    assert (inject_Z z <= inject_Z (Qceiling A - 1))%Q
      by (rewrite <- Zle_Qle; lia).
    lra.
Qed.

Lemma Qceiling_quotient (bs nb : Z) :
  (0 < nb)%Z → (0 < bs)%Z →
  (1 <= Qceiling (inject_Z bs / inject_Z nb) <= bs)%Z.
Proof.
  intros Hnb Hbs. split.
  - pose proof (proj1 (Qlt_inject_ceiling 0 (inject_Z bs / inject_Z nb))) as H.
    change (inject_Z 0) with 0%Q in H.
    specialize (H (Qdiv_pos_Z bs nb Hbs Hnb)). lia.
  - rewrite <- (Qceiling_Z bs) at 2. apply Qceiling_resp_le.
    apply Qdiv_Z_le; [done|]. nia.
Qed.

(** Counted in streamlines, the running sums 1, 2, 3, ... of a chunk
    are below the budget of a subject up to [ceil (bs / nb) - 1]. *)
Lemma longest_prefix_count mx bs nb a m :
  (0 < nb)%Z → (0 < bs <= 2 ^ 52)%Z → py_truediv bs nb = Ok mx →
  1 ≤ a → (Z.of_nat (a + m) <= 2 ^ 53)%Z →
  longest_prefix_below mx (of_nat <$> seq a m)
  = m `min` Z.to_nat (Qceiling (inject_Z bs / inject_Z nb) - Z.of_nat a).
Proof.
  intros Hnb Hbs Hmx. revert a. induction m as [|m IH]; intros a Ha Ham;
    [done|].
  cbn [seq fmap list_fmap longest_prefix_below].
  pose proof (truediv_lt bs nb (Z.of_nat a) mx Hnb Hbs ltac:(lia) Hmx) as Hlt.
  rewrite <- Qdiv_Z_lt, Qlt_inject_ceiling in Hlt by done.
  fold (of_nat a) in Hlt.
  destruct (fltb (of_nat a) mx).
  - assert (Z.of_nat a < Qceiling (inject_Z bs / inject_Z nb))%Z
      by (by apply Hlt).
    change (list_fmap nat float64 of_nat (seq (S a) m))
      with (of_nat <$> seq (S a) m).
    rewrite IH by lia. lia.
  - assert (¬ (Z.of_nat a < Qceiling (inject_Z bs / inject_Z nb))%Z)
      by (intros H%Hlt; done).
    lia.
Qed.

(** With a budget counted in streamlines, a subject with streamlines left
    gets the chunk of [batch_size] draws cut to [ceil (bs / nb) - 1]
    ids. *)
Lemma count_subj_loop self s mask mx nb fuel g sampled mask' g' :
  batch_size_units self = "nb_streamlines"%string →
  nb_streamlines_per_chunk self = batch_size self →
  (0 < nb)%Z → (0 < batch_size self)%Z →
  py_truediv (batch_size self) nb = Ok mx →
  subj_loop (S fuel) self s mask mx (Fin 0) [] g = Ok (sampled, mask', g') →
  Z.of_nat (length sampled)
  = (Qceiling (inject_Z (batch_size self) / inject_Z nb) - 1)%Z.
Proof.
  intros Hu Hchunk Hnb Hbs Hmx. cbn [subj_loop].
  destruct (_get_a_chunk_of_streamlines _ _ _ _ _ _)
    as [[ret g1]| |] eqn:E; cbn [bind]; [|done..].
  apply get_a_chunk_inv in E
    as [(_ & -> & ->)|(chosen & _ & Hc & _ & Hret)]; [done|].
  pose proof (choice_size _ _ _ _ _ Hc) as [Hsz _].
  apply choice_spec in Hc as [Hlen _]. rewrite Hchunk in Hlen, Hsz.
  unfold max_array_length in Hsz.
  destruct (truediv_nonneg _ _ _ Hnb Hbs Hmx) as (Hnn & Hle & v & ->).
  rewrite round64_Z in Hle by lia.
  rewrite (cost_ones self _ Hu) in Hret. cbv zeta in Hret.
  rewrite np_sum_replicate_ones in Hret by lia.
  rewrite fadd_0_l in Hret by (apply nonneg_of_Z; lia).
  assert (of_nat (length chosen) = of_Z (batch_size self)) as Hn.
  { unfold of_nat. by rewrite Hlen, Z2Nat.id by lia. }
  rewrite Hn, Hle in Hret.
  rewrite fsub_0_r in Hret by done.
  rewrite bool_index_prefix in Hret
    by (apply Forall_replicate, nonneg_of_Z; lia).
  rewrite cumsum_ones in Hret by lia.
  rewrite (longest_prefix_count (Fin v) (batch_size self) nb 1) in Hret
    by (done || lia).
  subst ret. cbv iota beta.
  intros [= <- _ _]. rewrite length_fmap, length_take.
  pose proof (Qceiling_quotient (batch_size self) nb Hnb Hbs). lia.
Qed.

Lemma count_for_subjs self ids mx nb subjs mask g b b' mask' g' :
  batch_size_units self = "nb_streamlines"%string →
  nb_streamlines_per_chunk self = batch_size self →
  (0 < nb)%Z → (0 < batch_size self)%Z →
  py_truediv (batch_size self) nb = Ok mx →
  for_subjs self ids mx subjs mask g b = Ok (b', mask', g') →
  Forall (fun p => Z.of_nat (length p.2)
                   = (Qceiling (inject_Z (batch_size self) / inject_Z nb) - 1)%Z)
         b →
  Forall (fun p => Z.of_nat (length p.2)
                   = (Qceiling (inject_Z (batch_size self) / inject_Z nb) - 1)%Z)
         b'.
Proof.
  intros Hu Hchunk Hnb Hbs Hmx. revert mask g b.
  induction subjs as [|subj rest IH]; intros mask g b; cbn.
  - by intros [= <- <- <-].
  - destruct (_sample_streamlines_for_subj _ _ _ _ _ _ _)
      as [[[sampled mask1] g1]| |] eqn:E; cbn [bind]; [|done..].
    intros H Hb. apply IH in H; [done|].
    apply Forall_app. split; [done|]. constructor; [|constructor].
    unfold _sample_streamlines_for_subj in E.
    destruct (dict_getitem ids subj) as [s| |]; cbn [bind] in E; [|done..].
    by eapply count_subj_loop in E.
Qed.

Lemma count_step self fr g :
  batch_size_units self = "nb_streamlines"%string →
  nb_streamlines_per_chunk self = batch_size self →
  (0 < batch_size self)%Z →
  budget_split self fr →
  match step self fr g with
  | Yield b fr' _ =>
      Forall (fun p =>
                Z.of_nat (length p.2)
                = (Qceiling (inject_Z (batch_size self)
                             / inject_Z (Z.of_nat (length b))) - 1)%Z) b
      ∧ budget_split self fr'
  | Continue fr' _ => budget_split self fr'
  | _ => True
  end.
Proof.
  intros Hu Hchunk Hbs Hfr.
  pose proof (step_budget_split self fr g Hfr) as Hnext.
  destruct (step self fr g) as [b fr' g'|fr' g'| | |] eqn:E; try done.
  split; [|done].
  destruct fr as [ids mask|ids mask subjs mx it]; cbn [step] in E.
  { by apply select_never_yields in E. }
  destruct Hfr as [Hne Hmx].
  apply one_cycle_yield in E as (Hb & _ & mask1 & it' & _ & E).
  assert (length b = length subjs) as -> by (by rewrite <- Hb, length_fmap).
  assert (0 < length subjs) by (destruct subjs; [done|cbn; lia]).
  eapply count_for_subjs in E; try done. lia.
Qed.

(** ** Budgets along a run *)

Lemma step_within_budget self fr g b fr' g' :
  lengths_nonneg self → budget_split self fr →
  step self fr g = Yield b fr' g' →
  within_budget self (frame_ids fr) b.
Proof.
  intros Hnn Hfr.
  destruct fr as [ids mask|ids mask subjs mx it]; cbn [step].
  - intros E. pose proof (select_subjects_inv self ids mask g) as H.
    by rewrite E in H.
  - unfold one_cycle. destruct Hfr as [Hne Hmx].
    destruct (for_subjs _ _ _ _ _ _ _) as [[[b0 mask1] g1]| |] eqn:E.
    2,3: by destruct it as [[|?]|].
    apply for_subjs_spec in E as (newb & -> & Hsub & _ & _ & Hk & Hc).
    assert (Hlen : length newb = length subjs)
      by (by rewrite <- Hsub, length_fmap).
    specialize (Hc Hnn (proj2 (py_truediv_inv _ _ _ Hmx))).
    assert (within_budget self ids newb) as Hw.
    { exists mx. rewrite Hlen. split; [done|]. apply Forall_and. by split. }
    destruct it as [[|n]|]; [done|..];
      (destruct (length _ =? 0); [done|]); by intros [= <- _ _].
Qed.

Lemma run_within_budget self fuel fr g b :
  lengths_nonneg self → budget_split self fr →
  b ∈ (run fuel self fr g).1 →
  within_budget self (frame_ids fr) b.
Proof.
  intros Hnn. revert fr g.
  induction fuel as [|fuel IH]; intros fr g Hfr; cbn [run].
  - intros H. by apply elem_of_nil in H.
  - pose proof (step_spec self fr g) as Hs.
    pose proof (step_budget_split self fr g Hfr) as Hnext.
    pose proof (step_within_budget self fr g) as Hy.
    destruct (step self fr g) as [b0 fr' g'|fr' g'| | |];
      try no_batch.
    + destruct Hs as (Hids & _). specialize (IH fr' g' Hnext).
      destruct (run fuel self fr' g') as [bs st]. cbn [fst] in *.
      intros [->|Hin]%elem_of_cons; [by eapply Hy|].
      rewrite <- Hids. by apply IH.
    + destruct Hs as (Hids & _). rewrite <- Hids. by apply IH.
Qed.

(** ** Scenario A: count budget 5, one subject per batch, one cycle *)

Lemma scenario_A_chunk self sl mask fuel g sampled mask' g' :
  scenario_A_config self →
  subj_loop (S fuel) self sl mask (Fin 5) (Fin 0) [] g
    = Ok (sampled, mask', g') →
  length sampled = 4.
Proof.
  intros [Hu Hbs Hchunk _ _] E.
  apply (count_subj_loop self sl mask (Fin 5) 1) in E;
    rewrite ?Hbs; try done.
  rewrite Hbs in E. apply Nat2Z.inj. by rewrite E.
Qed.

Lemma scenario_A_step self fr g :
  scenario_A_config self → scenario_A_frame fr →
  match step self fr g with
  | Yield b fr' _ => one_subject_four_ids b ∧ scenario_A_frame fr'
  | Continue fr' _ => scenario_A_frame fr'
  | _ => True
  end.
Proof.
  intros Hcfg Hfr. pose proof Hcfg as [Hu Hbs Hchunk Hsub Hcyc].
  destruct fr as [ids mask|ids mask subjs mx it]; cbn [step].
  - destruct (select_subjects self ids mask g) as [| fr' g'| | |] eqn:E; try done.
    + pose proof (select_subjects_inv self ids mask g) as H. by rewrite E in H.
    + apply select_subjects_spec in E
        as (subjs & nb & mx & -> & Hmx & Hnb & Hlen & Hsel).
      rewrite Hsub in Hsel. cbn in Hsel. destruct Hsel as [Hle _].
      rewrite Hcyc. cbn. right.
      assert (nb = 1%Z) as -> by lia. rewrite Hbs in Hmx.
      injection Hmx as <-. split; [done|]. split; [done|]. lia.
  - unfold one_cycle. destruct Hfr as [->|(-> & -> & Hlen)]; [done|].
    destruct subjs as [|s [|]]; try done. cbn [for_subjs].
    unfold _sample_streamlines_for_subj at 1.
    destruct (dict_getitem ids s) as [sl| |]; cbn [bind]; [|done..].
    destruct (subj_loop _ _ _ _ _ _ _ _) as [[[sampled mask1] g1]| |] eqn:E;
      cbn [bind]; [|done..].
    apply scenario_A_chunk in E; [|done]. cbn.
    split; [|by left]. by exists s, sampled.
Qed.

Lemma scenario_A_run self fuel fr g b :
  scenario_A_config self → scenario_A_frame fr →
  b ∈ (run fuel self fr g).1 → one_subject_four_ids b.
Proof.
  intros Hcfg. revert fr g.
  induction fuel as [|fuel IH]; intros fr g Hfr; cbn [run].
  - intros H. by apply elem_of_nil in H.
  - pose proof (scenario_A_step self fr g Hcfg Hfr) as Hs.
    destruct (step self fr g) as [b0 fr' g'|fr' g'| | |];
      try no_batch.
    + destruct Hs as [Hb Hfr']. specialize (IH fr' g' Hfr').
      destruct (run fuel self fr' g') as [bs st]. cbn [fst] in *.
      intros [->|Hin]%elem_of_cons; [done|by apply IH].
    + by apply IH.
Qed.

(** ** The constructor *)

Lemma init_ok_inv mt d name bs units chunk seed nsub cyc w s w' :
  __init__ mt d name bs units chunk seed nsub cyc w = (Ok s, w') →
  (0 < bs)%Z
  ∧ dataset s = d
  ∧ batch_size s = bs
  ∧ batch_size_units s = units
  ∧ nb_subjects_per_batch s = nsub
  ∧ cycles s = cyc
  ∧ nb_streamlines_per_chunk s
    = (if String.eqb units "nb_streamlines" then bs else chunk)
  ∧ list_index name (streamline_groups d) = Ok (streamline_group_idx s)
  ∧ rng s = seed
  ∧ np_random_RandomState mt seed = Ok (np_rng s)
  ∧ torch_seed w' = Some seed.
Proof.
  unfold __init__. destruct (bs <=? 0)%Z eqn:E1; [done|].
  destruct (negb _); [done|]. destruct (truthy cyc && _); [done|].
  destruct (list_index name _) as [idx| |]; [|done..].
  destruct (np_random_RandomState mt seed) as [g| |]; [|done..].
  intros [= <- <-]. cbn. repeat split; try done. lia.
Qed.

Lemma RandomState_inv mt seed g :
  np_random_RandomState mt seed = Ok g →
  (0 <= seed < 2 ^ 32)%Z ∧ g = seeded mt seed.
Proof.
  unfold np_random_RandomState.
  destruct (seed <? 0)%Z eqn:E1; [done|].
  destruct (2 ^ 32 <=? seed)%Z eqn:E2; [done|].
  intros [= <-]. split; [lia|done].
Qed.

Lemma init_result_independent mt d name bs units chunk seed nsub cyc w1 w2 :
  (__init__ mt d name bs units chunk seed nsub cyc w1).1
  = (__init__ mt d name bs units chunk seed nsub cyc w2).1.
Proof.
  unfold __init__. destruct (bs <=? 0)%Z; [done|].
  destruct (negb _); [done|]. destruct (truthy cyc && _); [done|].
  destruct (list_index name _); [|done..].
  by destruct (np_random_RandomState mt seed).
Qed.

(** ** The subject loop ends when a chunk holds an id *)

Lemma count_ones_insert mask x :
  count_ones (<[x := false]> mask) ≤ count_ones mask
  ∧ (avail mask x → count_ones (<[x := false]> mask) < count_ones mask).
Proof.
  unfold count_ones, avail. revert x.
  induction mask as [|b mask IH]; intros x; [done|].
  destruct x as [|x]; [|specialize (IH x)];
    cbn [list_insert insert lookup list_lookup] in *.
  - rewrite !filter_cons. repeat case_decide; try done; cbn [length].
    + split; [lia|]. intros _. lia.
    + split; [lia|]. intros [= ->]. done.
  - rewrite !filter_cons.
    destruct IH as [IH1 IH2].
    case_decide; cbn [length]; [|exact (conj IH1 IH2)].
    split; [exact (le_n_S _ _ IH1)|].
    intros Hx. exact (proj1 (Nat.succ_lt_mono _ _) (IH2 Hx)).
Qed.

Lemma count_ones_mask_out mask ids :
  count_ones (mask_out mask ids) ≤ count_ones mask.
Proof.
  unfold mask_out. revert mask.
  induction ids as [|i ids IH]; intros mask; cbn [foldl]; [done|].
  etrans; [apply IH|]. apply count_ones_insert.
Qed.

Lemma count_ones_mask_out_lt mask x ids :
  avail mask x → count_ones (mask_out mask (x :: ids)) < count_ones mask.
Proof.
  intros Hx. unfold mask_out. cbn [foldl].
  eapply Nat.le_lt_trans; [apply count_ones_mask_out|].
  by apply count_ones_insert.
Qed.

Lemma get_a_chunk_no_hang self s mask cur mx g :
  _get_a_chunk_of_streamlines self s mask cur mx g ≠ Hang.
Proof.
  unfold _get_a_chunk_of_streamlines. destruct (_ =? 0); [done|].
  unfold choice. destruct (_ <? 0)%Z; [done|]. destruct (_ && _); [done|].
  destruct (2 ^ 63 <=? _)%Z; [done|]. destruct (2 ^ 60 <=? _)%Z; [done|].
  destruct (max_array_length <=? _)%Z; [done|].
  cbn [bind]. destruct (draw_many _ _ _) as [chosen g1].
  assert (_compute_and_adjust_batch_size self chosen ≠ Hang) as Hc.
  { unfold _compute_and_adjust_batch_size, getitem.
    destruct (String.eqb _ _); [|done].
    destruct (_ !! _) as [l|]; [|done]. cbn [bind].
    induction chosen as [|i chosen IH]; cbn; [done|].
    destruct (l !! i); [|done]. by destruct (fancy_index l chosen). }
  destruct (_compute_and_adjust_batch_size self chosen); [|done..].
  cbn [bind]. by destruct (fleb _ _).
Qed.

Lemma subj_loop_terminates self s mx fuel mask total sampled g :
  (0 < nb_streamlines_per_chunk self)%Z →
  count_ones mask < fuel →
  subj_loop fuel self s mask mx total sampled g ≠ Hang.
Proof.
  intros Hchunk. revert mask total sampled g.
  induction fuel as [|fuel IH]; intros mask total sampled g Hfuel; [lia|].
  cbn [subj_loop].
  pose proof (get_a_chunk_no_hang self s mask total mx g) as Hn.
  destruct (_get_a_chunk_of_streamlines self s mask total mx g)
    as [[ret g1]| |] eqn:E; cbn [bind]; [|done..].
  apply get_a_chunk_inv in E
    as [(_ & -> & ->)|(chosen & _ & Hc & _ & Hret)]; [done|].
  apply choice_spec in Hc as [Hlen Hc].
  cbv zeta in Hret. destruct (fleb _ _); subst ret; [done|].
  destruct chosen as [|x chosen]; [cbn in Hlen; lia|].
  apply IH. assert (avail mask x) as Hx.
  { apply (elem_of_unused mask s). apply Hc. by left. }
  pose proof (count_ones_mask_out_lt mask x chosen Hx). lia.
Qed.

Lemma count_ones_le_length mask : count_ones mask ≤ length mask.
Proof. unfold count_ones. apply length_filter. Qed.

(** With a chunk of at least one id, no step of the generator is cut by
    the fuel of a subject loop. *)
Lemma step_never_hangs self fr g :
  (0 < nb_streamlines_per_chunk self)%Z → step self fr g ≠ Hangs.
Proof.
  intros Hchunk. destruct fr as [ids mask|ids mask subjs mx it]; cbn [step].
  - unfold select_subjects.
    destruct (negb _); [done|]. destruct (_ =? 0); [done|].
    destruct (truthy _).
    + unfold choice_p. destruct (_ <? 0)%Z; [done|].
      destruct (negb _); [done|]. destruct (_ <? _)%Z; [done|].
      destruct (draw_distinct _ _ _). cbn [bind].
      unfold py_truediv. destruct (_ =? _)%Z; [done|]. by destruct (round64 _).
    + unfold py_truediv. destruct (_ =? _)%Z; [done|]. by destruct (round64 _).
  - unfold one_cycle.
    assert (∀ b, for_subjs self ids mx subjs mask g b ≠ Hang) as Hf.
    { revert mask g. induction subjs as [|subj rest IH]; intros mask g b;
        cbn [for_subjs]; [done|].
      unfold _sample_streamlines_for_subj at 1.
      destruct (dict_getitem ids subj) as [sl| |] eqn:Ed; cbn [bind]; [|done|].
      2: { unfold dict_getitem in Ed. by destruct (ids !! subj). }
      pose proof (subj_loop_terminates self sl mx (S (length mask)) mask
                    (Fin 0) [] g Hchunk) as Ht.
      pose proof (count_ones_le_length mask).
      destruct (subj_loop _ _ _ _ _ _ _ _) as [[[sampled mask1] g1]| |];
        cbn [bind]; [apply IH|done|]. exfalso. apply Ht; [lia|done]. }
    specialize (Hf []).
    destruct (for_subjs _ _ _ _ _ _ _) as [[[b mask1] g1]| |];
      destruct it as [[|n]|]; try done.
    + by destruct (length b =? 0).
    + by destruct (length b =? 0).
Qed.

(** ** The batches depend on the generator through its draws only *)

Lemma same_draws_refl g : same_draws g g.
Proof. by split. Qed.















Lemma scenario_A_init mt seed w self :
  (__init__ mt scenario_A_dataset "streamlines" 5 "nb_streamlines" 5 seed
            (Some 1%Z) (Some 1%Z) w).1 = Ok self →
  scenario_A_config self.
Proof.
  destruct (__init__ _ _ _ _ _ _ _ _ _ _) as [r w'] eqn:E. cbn [fst].
  intros ->. apply init_ok_inv in E as (_&_&?&?&?&?&?&_). by split.
Qed.

(** * The properties of the sampler *)

(** C1 (what the code does).  For a subject whose slice has no unused id,
    the chunk sampler reports "no streamlines remaining" through its
    four-component return, and the subject loop, which unpacks five
    names, raises ValueError. *)
Theorem exhausted_subject_raises self subj ids s mask mx g fuel :
  ids !! subj = Some s →
  unused_ids mask s = [] →
  _get_a_chunk_of_streamlines self s mask (Fin 0) mx g
    = Ok (Return4 [] [] true false, g)
  ∧ _sample_streamlines_for_subj (S fuel) self subj ids mask mx g
    = Raise ValueError.
Proof.
  intros Hs Hu. split; [by apply get_a_chunk_empty|].
  unfold _sample_streamlines_for_subj, dict_getitem. rewrite Hs.
  cbn [bind subj_loop]. by rewrite get_a_chunk_empty.
Qed.

Lemma exhausted_subject_raises_witness :
  _get_a_chunk_of_streamlines (scenario_C_sampler scenario_C_draws 1000)
    (0, 3) [false; false; false] (Fin 0) (Fin 1000)
    (seeded scenario_C_draws 1234)
  = Ok (Return4 [] [] true false, seeded scenario_C_draws 1234)
  ∧ _sample_streamlines_for_subj 4
      (scenario_C_sampler scenario_C_draws 1000) 0 [(0, 3)]
      [false; false; false] (Fin 1000) (seeded scenario_C_draws 1234)
    = Raise ValueError.
Proof.
  apply (exhausted_subject_raises _ 0 [(0, 3)] (0, 3)); reflexivity.
Defined.

(** The whole iteration on that input: lengths [50, 60, 5], budget 1000,
    chunk [0, 1, 2].  The chunk does not reach the budget, the subject
    loop asks for another chunk, and the iteration ends on ValueError
    before any batch is yielded. *)
Example exhausted_subject_stops_iteration :
  __iter__ 3 (scenario_C_sampler scenario_C_draws 1000)
  = ([], Failed ValueError).
Proof. vm_compute. reflexivity. Qed.

(** C2 (as the code has it).  Within one epoch, no global id occurs in
    two different batches: the ids of a later batch were all unused when
    it was drawn, and the ids of an earlier batch were marked used before
    it was yielded.  (Inside one batch an id can occur more than once,
    since a chunk is drawn with replacement.) *)
Theorem no_reuse_across_batches self fuel ids i j bi bj x :
  getitem (streamline_ids_per_subj (dataset self)) (streamline_group_idx self)
    = Ok ids →
  i < j →
  (__iter__ fuel self).1 !! i = Some bi →
  (__iter__ fuel self).1 !! j = Some bj →
  x ∈ batch_global_ids ids bi →
  x ∉ batch_global_ids ids bj.
Proof.
  intros Hids Hij. unfold __iter__.
  destruct (iter_start self) as [fr| |] eqn:E; try done.
  apply iter_start_inv in E as (total & ids' & _ & Hids' & ->).
  assert (ids' = ids) as -> by congruence.
  by apply (run_disjoint self fuel (AtSelect ids _)).
Qed.

Lemma no_reuse_across_batches_witness :
  1 ∉ batch_global_ids [(0, 10); (10, 15)] [(0, [5; 6; 7; 8])].
Proof.
  apply (no_reuse_across_batches
           (scenario_A_sampler (stream_of [0; 1; 2; 3; 4; 5; 6; 7; 8; 9; 10; 11]))
           5 [(0, 10); (10, 15)] 0 1 [(0, [1; 2; 3; 4])] [(0, [5; 6; 7; 8])] 1);
    [reflexivity | lia | by vm_compute | by vm_compute | left].
Defined.

(** C2 (as stated) fails inside a batch: with two streamlines, a count
    budget of 3 and draws that repeat, the first batch holds id 0
    twice. *)
Lemma id_repeated_within_batch :
  (__iter__ 2 repeated_draw_sampler).1 = [[(0, [0; 0])]]
  ∧ ¬ NoDup (concat (batch_global_ids [(0, 2)]
                       <$> (__iter__ 2 repeated_draw_sampler).1)).
Proof.
  assert ((__iter__ 2 repeated_draw_sampler).1 = [[(0, [0; 0])]]) as E
    by (by vm_compute).
  split; [done|]. rewrite E.
  change (¬ NoDup [0; 0]). intros H. apply NoDup_cons in H as [H _].
  apply H. left.
Qed.

(** With a budget of one streamline, a cycle trims its chunk to nothing,
    yields the batch [(0, [])] and leaves the frame as it was. *)
Lemma tiny_budget_step mt g :
  step (tiny_budget_sampler mt) (AtCycle [(0, 1)] [true] [0] (Fin 1) None) g
  = Yield [(0, [])] (AtCycle [(0, 1)] [true] [0] (Fin 1) None)
      {| raw := raw g; pos := S (pos g) |}.
Proof. by vm_compute. Qed.

Lemma tiny_budget_cycle mt fuel g :
  run fuel (tiny_budget_sampler mt)
      (AtCycle [(0, 1)] [true] [0] (Fin 1) None) g
  = (replicate fuel [(0, [])], Suspended).
Proof.
  revert g. induction fuel as [|fuel IH]; intros g; [done|].
  cbn [run replicate]. rewrite tiny_budget_step. by rewrite IH.
Qed.

Lemma tiny_budget_select mt g :
  step (tiny_budget_sampler mt) (AtSelect [(0, 1)] [true]) g
  = Continue (AtCycle [(0, 1)] [true] [0] (Fin 1) None) g.
Proof. by vm_compute. Qed.

(** C3 (what the code does).  One subject with one streamline and a
    budget of one streamline: after any number of steps the iteration is
    still running and every batch it has yielded is [(0, [])]; the test
    [len(batch_ids_per_subj) == 0] never holds, no id is ever consumed
    and the epoch never ends. *)
Theorem tiny_budget_never_ends mt fuel :
  __iter__ (S fuel) (tiny_budget_sampler mt)
  = (replicate fuel [(0, [])], Suspended).
Proof.
  unfold __iter__.
  change (iter_start (tiny_budget_sampler mt))
    with (Ok (AtSelect [(0, 1)] [true])).
  cbn [run]. rewrite tiny_budget_select. apply tiny_budget_cycle.
Qed.

(** Scenario B with cycles unset (one subject, 3 streamlines, count
    budget 10): the first batch uses the three ids, and the next cycle
    ends the iteration on ValueError instead of a clean stop. *)
Example exhaustion_raises_when_cycles_unset :
  __iter__ 3 (sampler_on scenario_C_draws (single_group [(0, 3)] 3 [])
                10 "nb_streamlines" 10 None None)
  = ([[(0, [0; 1; 2; 0; 0; 0; 0; 0; 0])]], Failed ValueError).
Proof. vm_compute. reflexivity. Qed.

(** C4 (as the code has it).  In scenario A (slices [0,10) and [10,15),
    count budget 5, one subject per batch, one cycle), every batch the
    sampler yields has exactly one pair and that pair holds exactly 4
    relative ids: the 5 draws of the chunk cut to the prefix whose count
    stays strictly below 5. *)
Theorem scenario_A_batches mt seed w self fuel b :
  (__init__ mt scenario_A_dataset "streamlines" 5 "nb_streamlines" 5 seed
            (Some 1%Z) (Some 1%Z) w).1 = Ok self →
  b ∈ (__iter__ fuel self).1 →
  ∃ subj rel, b = [(subj, rel)] ∧ length rel = 4.
Proof.
  intros Hcfg%scenario_A_init. unfold __iter__.
  destruct (iter_start self) as [fr| |] eqn:E;
    try no_batch.
  apply iter_start_inv in E as (total & ids & _ & _ & ->).
  by apply scenario_A_run.
Qed.

Lemma scenario_A_batches_witness :
  ∃ subj rel, [(0, [1; 2; 3; 4])] = [(subj, rel)] ∧ length rel = 4.
Proof.
  apply (scenario_A_batches (stream_of [0; 1; 2; 3; 4; 5]) 1234 fresh_process
           (scenario_A_sampler (stream_of [0; 1; 2; 3; 4; 5])) 2
           [(0, [1; 2; 3; 4])]); [reflexivity|].
  vm_compute. left.
Defined.

(** C4 (as stated) fails: subject 0 has all of its 10 streamlines left
    and the first batch holds 4 relative ids, not 5. *)
Lemma scenario_A_first_batch :
  (__iter__ 2 (scenario_A_sampler (stream_of [0; 1; 2; 3; 4; 5]))).1
  = [[(0, [1; 2; 3; 4])]]
  ∧ ¬ (∀ b,
         b ∈ (__iter__ 2 (scenario_A_sampler (stream_of [0; 1; 2; 3; 4; 5]))).1 →
         ∃ subj rel, b = [(subj, rel)] ∧ length rel = 5).
Proof.
  split; [by vm_compute|]. intros H.
  destruct (H [(0, [1; 2; 3; 4])]) as (subj & rel & [= _ <-] & Hlen).
  - vm_compute. left.
  - discriminate.
Qed.

(** C5 (as the code has it).  When the realized size plus the size of
    the chunk reaches the subject's budget, the chunk is cut to its
    longest prefix, in draw order, whose running sums stay strictly
    below what is left of the budget, and the subject is marked as
    having reached it.  The sizes are float64 numbers: the size of the
    chunk is their [np.sum], the running sums are their [np.cumsum],
    what is left is the float64 difference of the budget and the
    realized size, and the tests are float64 comparisons. *)
Theorem trim_to_longest_prefix self s mask cur mx g chosen g1 sizes :
  unused_ids mask s ≠ [] →
  choice (unused_ids mask s) (nb_streamlines_per_chunk self) g
    = Ok (chosen, g1) →
  _compute_and_adjust_batch_size self chosen = Ok sizes →
  Forall nonneg_float sizes →
  fleb mx (fadd cur (np_sum sizes)) = true →
  let k := longest_prefix_below (fsub mx cur) (cumsum sizes) in
  _get_a_chunk_of_streamlines self s mask cur mx g
    = Ok (Return5 (take k chosen)
                  ((fun i => i - slice_start s) <$> take k chosen)
                  (np_sum (take k sizes)) false true, g1)
  ∧ (∀ j c, j < k → cumsum sizes !! j = Some c →
       fltb c (fsub mx cur) = true)
  ∧ (∀ c, cumsum sizes !! k = Some c → fltb c (fsub mx cur) = false).
Proof.
  intros Hne Hc Hs Hnn Hq k. split; [|split].
  - unfold _get_a_chunk_of_streamlines. fold (unused_ids mask s).
    destruct (unused_ids mask s) as [|u us] eqn:Eu; [done|].
    cbn [length Nat.eqb]. rewrite Hc. cbn [bind]. rewrite Hs.
    cbn [bind]. rewrite Hq.
    fold (selected (fsub mx cur) (cumsum sizes)).
    by rewrite !bool_index_prefix.
  - intros j c. apply prefix_below.
  - intros c. apply prefix_longest.
Qed.

(** Scenario C: lengths [50, 60, 5], budget 100, chunk drawn as
    [0, 1, 2]: relative id 0 alone is kept, for a size of 50. *)
Lemma trim_to_longest_prefix_witness :
  _get_a_chunk_of_streamlines (scenario_C_sampler scenario_C_draws 100)
    (0, 3) [true; true; true] (Fin 0) (Fin 100)
    (seeded scenario_C_draws 1234)
  = Ok (Return5 [0] [0] (Fin 50) false true,
        {| raw := scenario_C_draws 1234; pos := 3 |}).
Proof.
  refine (proj1 (trim_to_longest_prefix
    (scenario_C_sampler scenario_C_draws 100) (0, 3) [true; true; true]
    (Fin 0) (Fin 100) (seeded scenario_C_draws 1234)
    [0; 1; 2] {| raw := scenario_C_draws 1234; pos := 3 |}
    [Fin 50; Fin 60; Fin 5] _ _ _ _ _)).
  - discriminate.
  - reflexivity.
  - reflexivity.
  - repeat constructor; (discriminate || by vm_compute).
  - by vm_compute.
Defined.

(** C5 (as stated) fails on the exact costs: ten streamlines of 0.1 mm
    under a budget of 1 mm, drawn in one chunk.  The [np.sum] of the
    chunk is 1.0 and reaches the budget; the ten running sums of
    [np.cumsum] end at 0.9999999999999999, each below 1.0, and the ten
    ids are kept, for a size of 1.0.  The cost of the kept prefix is
    not below what was left of the budget: not in float64, and not
    exactly, the ten lengths adding up to more than 1. *)
Lemma ten_tenths_all_kept :
  _get_a_chunk_of_streamlines ten_tenths_sampler (0, 10) (replicate 10 true)
    (Fin 0) (Fin 1) (np_rng ten_tenths_sampler)
  = Ok (Return5 (seq 0 10) (seq 0 10) (Fin 1) false true,
        {| raw := raw (np_rng ten_tenths_sampler); pos := 10 |})
  ∧ fltb (np_sum (cost ten_tenths_sampler <$> seq 0 10))
         (fsub (Fin 1) (Fin 0)) = false
  ∧ ¬ (exact_sum (cost ten_tenths_sampler <$> seq 0 10) < 1 - 0)%Q.
Proof.
  split; [by vm_compute|]. split; [by vm_compute|].
  intros H. by vm_compute in H.
Qed.

(** C6 (as the code has it).  With the unit 'nb_streamlines' and a chunk
    size that differs from the batch size, construction does not fail:
    when the other checks pass (a positive batch size, subjects per
    batch given when cycles are, a known streamline group and a seed
    that numpy accepts), it logs a warning, ignores the given chunk size
    and uses the batch size as the chunk size. *)
Theorem count_chunk_mismatch_is_ignored mt d name bs chunk seed nsub cyc w idx :
  (0 < bs)%Z →
  chunk ≠ bs →
  truthy cyc && negb (truthy nsub) = false →
  list_index name (streamline_groups d) = Ok idx →
  (0 <= seed < 2 ^ 32)%Z →
  ∃ s,
    __init__ mt d name bs "nb_streamlines" chunk seed nsub cyc w
    = (Ok s, torch_manual_seed seed
               (logging_warning chunk_ignored_warning w))
    ∧ nb_streamlines_per_chunk s = bs.
Proof.
  intros Hbs Hne Hcyc Hidx Hseed. unfold __init__, np_random_RandomState.
  assert ((bs <=? 0)%Z = false) as -> by lia.
  assert ((chunk =? bs)%Z = false) as -> by lia.
  assert ((seed <? 0)%Z || (2 ^ 32 <=? seed)%Z = false) as Hs.
  { apply orb_false_intro; lia. }
  cbn. rewrite Hcyc, Hidx. cbn in Hs. rewrite Hs. eexists. split; done.
Qed.

Lemma count_chunk_mismatch_is_ignored_witness :
  ∃ s,
    __init__ (stream_of []) scenario_A_dataset "streamlines" 5
             "nb_streamlines" 3 1234 (Some 1%Z) (Some 1%Z) fresh_process
    = (Ok s, torch_manual_seed 1234
               (logging_warning chunk_ignored_warning fresh_process))
    ∧ nb_streamlines_per_chunk s = 5%Z.
Proof.
  apply (count_chunk_mismatch_is_ignored _ _ _ _ _ _ _ _ _ 0);
    [lia | lia | reflexivity | reflexivity | lia].
Defined.

(** C6 (as stated) fails: count budget 5 with chunk size 3 constructs a
    sampler. *)
Lemma count_chunk_mismatch_constructs :
  ∃ s,
    (__init__ (stream_of []) scenario_A_dataset "streamlines" 5
              "nb_streamlines" 3 1234 (Some 1%Z) (Some 1%Z) fresh_process).1
    = Ok s
    ∧ (__init__ (stream_of []) scenario_A_dataset "streamlines" 5
                "nb_streamlines" 3 1234 (Some 1%Z) (Some 1%Z) fresh_process).1
      ≠ Raise ValueError.
Proof. eexists. split; [reflexivity|discriminate]. Qed.



(** The draws do reach the batches: on scenario A, two streams that
    differ give different first batches. *)
Example other_draws_other_batches :
  (__iter__ 2 (scenario_A_sampler (stream_of [0; 1; 2; 3; 4; 5]))).1
  = [[(0, [1; 2; 3; 4])]]
  ∧ (__iter__ 2 (scenario_A_sampler (stream_of [0; 9; 8; 7; 6; 5]))).1
    = [[(0, [9; 8; 7; 6])]].
Proof. split; by vm_compute. Qed.

(** C8 (as the code has it).  A batch has one pair per subject selected
    for its round.  In every batch of a sampler that [__init__] built,
    with B_subj the batch size over the number of subjects of the
    batch: counted in streamlines, each pair holds at most ceil(B_subj)
    ids; counted in mm, with lengths that are not negative, the ids of
    each pair are whole chunks followed by what is kept of a last chunk,
    where in float64 arithmetic the total of the whole chunks stays
    strictly below B_subj and each running sum of the kept ids stays
    strictly below B_subj minus that total. *)
Theorem budget_respect
    mt d name bs units chunk seed nsub cyc w self fuel ids b subj rel :
  (__init__ mt d name bs units chunk seed nsub cyc w).1 = Ok self →
  getitem (streamline_ids_per_subj d) (streamline_group_idx self) = Ok ids →
  b ∈ (__iter__ fuel self).1 →
  (subj, rel) ∈ b →
  (units = "nb_streamlines"%string →
   (Z.of_nat (length rel)
    <= Qceiling (inject_Z bs / inject_Z (Z.of_nat (length b))))%Z)
  ∧ (units = "length_mm"%string →
     lengths_nonneg self →
     ∃ s B_subj,
       ids !! subj = Some s
       ∧ py_truediv bs (Z.of_nat (length b)) = Ok B_subj
       ∧ gathered self B_subj (Fin 0) ((fun r => r + slice_start s) <$> rel)).
Proof.
  destruct (__init__ _ _ _ _ _ _ _ _ _ _) as [r w'] eqn:E. cbn [fst].
  intros ->. apply init_ok_inv in E as (Hbs & <- & <- & <- & _ & _ & Hc & _).
  intros Hids Hb Hp. split.
  - intros Hu. rewrite Hu in Hc. cbn in Hc.
    pose proof (iter_invariant self (budget_split self)
      (fun b => Forall (fun p =>
         Z.of_nat (length p.2)
         = (Qceiling (inject_Z (batch_size self)
                      / inject_Z (Z.of_nat (length b))) - 1)%Z) b)) as Hinv.
    eapply Forall_forall in Hinv; [| | |exact Hb].
    + rewrite Forall_forall in Hinv. specialize (Hinv _ Hp). cbn in Hinv. lia.
    + intros fr g Hfr. by apply count_step.
    + by intros fr (total & ids' & _ & _ & ->)%iter_start_inv.
  - intros _ Hnn. unfold __iter__ in Hb.
    destruct (iter_start self) as [fr| |] eqn:E;
      try (by apply elem_of_nil in Hb).
    apply iter_start_inv in E as (total & ids' & _ & Hids' & ->).
    assert (ids' = ids) as -> by congruence.
    apply (run_within_budget self fuel (AtSelect ids _)) in Hb; [|done..].
    destruct Hb as (mx & Hmx & Hb). rewrite Forall_forall in Hb.
    destruct (Hb _ Hp) as [[s Hs] Hg].
    unfold pair_global_ids in Hg. cbn [fst snd] in *. rewrite Hs in Hg.
    by exists s, mx.
Qed.

Lemma budget_respect_witness :
  let self := scenario_C_sampler scenario_C_draws 100 in
  (("length_mm" : string) = "nb_streamlines"%string →
   (Z.of_nat (length [0])
    <= Qceiling (inject_Z 100 / inject_Z (Z.of_nat (length [(0, [0])]))))%Z)
  ∧ (("length_mm" : string) = "length_mm"%string →
     lengths_nonneg self →
     ∃ s B_subj,
       [(0, 3)] !! 0 = Some s
       ∧ py_truediv 100 (Z.of_nat (length [(0, [0])])) = Ok B_subj
       ∧ gathered self B_subj (Fin 0) ((fun r => r + slice_start s) <$> [0])).
Proof.
  apply (budget_respect scenario_C_draws scenario_C_dataset "streamlines" 100
           "length_mm" 3 1234 None None fresh_process
           (scenario_C_sampler scenario_C_draws 100)
           2 [(0, 3)] [(0, [0])] 0 [0]).
  - reflexivity.
  - reflexivity.
  - vm_compute. left.
  - left.
Defined.

(** C8 (as stated) fails on the exact costs: one streamline of 2^53 mm,
    fifteen of 1 mm and one of 4 mm under a budget of 2^53 + 2 mm, drawn
    in this order in one chunk.  The first sixteen running sums of
    [np.cumsum] stay at 2^53, below the budget, the last one is above
    it, and the first sixteen ids are kept.  Their lengths add up to
    2^53 + 15, which is not below the budget plus the length of an id at
    the trim boundary: 1 mm for the last id kept, 4 mm for the id
    dropped. *)
Lemma long_and_short_batch :
  (__iter__ 2 long_and_short_sampler).1 = [[(0, seq 0 16)]]
  ∧ cost long_and_short_sampler 15 = Fin 1
  ∧ cost long_and_short_sampler 16 = Fin 4
  ∧ ¬ (exact_sum (cost long_and_short_sampler <$> seq 0 16)
       < inject_Z (2 ^ 53 + 2) / inject_Z 1
         + exact (cost long_and_short_sampler 15))%Q
  ∧ ¬ (exact_sum (cost long_and_short_sampler <$> seq 0 16)
       < inject_Z (2 ^ 53 + 2) / inject_Z 1
         + exact (cost long_and_short_sampler 16))%Q.
Proof.
  split; [by vm_compute|]. split; [done|]. split; [done|].
  split; intros H; by vm_compute in H.
Qed.

(** C9 (what the code does).  A streamline of length 200 under a budget
    of 100: the chunk trims to nothing and the batch still carries the
    pair of the subject, with an empty list. *)
Theorem empty_pair_is_yielded mt :
  ∃ b,
    (__iter__ 2 (long_streamline_sampler mt)).1 = [b]
    ∧ (0, []) ∈ b.
Proof. exists [(0, [])]. split; [by vm_compute|by left]. Qed.

(** C10.  A successful construction builds the sampler's own numpy
    generator from the seed and sets the process-wide torch seed; a second
    construction replaces the torch seed left by the first. *)
Theorem init_reseeds_torch
    mt d1 name1 bs1 units1 chunk1 seed1 nsub1 cyc1
    d2 name2 bs2 units2 chunk2 seed2 nsub2 cyc2 w s1 w1 s2 w2 :
  __init__ mt d1 name1 bs1 units1 chunk1 seed1 nsub1 cyc1 w = (Ok s1, w1) →
  __init__ mt d2 name2 bs2 units2 chunk2 seed2 nsub2 cyc2 w1 = (Ok s2, w2) →
  np_random_RandomState mt seed1 = Ok (np_rng s1)
  ∧ np_random_RandomState mt seed2 = Ok (np_rng s2)
  ∧ torch_seed w1 = Some seed1
  ∧ torch_seed w2 = Some seed2.
Proof.
  intros H1 H2.
  apply init_ok_inv in H1 as (_&_&_&_&_&_&_&_&_&?&?).
  apply init_ok_inv in H2 as (_&_&_&_&_&_&_&_&_&?&?). done.
Qed.

Lemma init_reseeds_torch_witness :
  ∃ s1 w1 s2 w2,
    __init__ (stream_of []) scenario_A_dataset "streamlines" 5
             "nb_streamlines" 5 1234 (Some 1%Z) (Some 1%Z) fresh_process
    = (Ok s1, w1)
    ∧ __init__ (stream_of []) scenario_C_dataset "streamlines" 100
               "length_mm" 3 42 None None w1 = (Ok s2, w2)
    ∧ torch_seed w1 = Some 1234%Z
    ∧ torch_seed w2 = Some 42%Z.
Proof.
  eexists _, _, _, _. split; [reflexivity|]. split; [reflexivity|].
  pose proof (init_reseeds_torch (stream_of [])
    scenario_A_dataset "streamlines" 5 "nb_streamlines" 5 1234
    (Some 1%Z) (Some 1%Z)
    scenario_C_dataset "streamlines" 100 "length_mm" 3 42 None None
    fresh_process _ _ _ _ eq_refl eq_refl) as (_ & _ & H1 & H2).
  split; [exact H1|exact H2].
Defined.

(** * Further properties

    Properties of the sampler beyond the ones above, and of the checks
    that [HDF5Creator] makes on its configuration
    ([dwi_ml/data/hdf5/hdf5_creation.py]). *)

(** ** The subjects of a batch *)

Lemma all_subjects_step self fr g :
  truthy (nb_subjects_per_batch self) = false →
  all_subjects_frame fr →
  match step self fr g with
  | Yield b fr' _ => b.*1 = seq 0 (length (frame_ids fr)) ∧ all_subjects_frame fr'
  | Continue fr' _ => all_subjects_frame fr'
  | _ => True
  end.
Proof.
  intros Hn Hfr. destruct fr as [ids mask|ids mask subjs mx it]; cbn [step].
  - destruct (select_subjects self ids mask g) as [b fr' g'|fr' g'| | |] eqn:E;
      try done.
    + by apply select_never_yields in E.
    + apply select_subjects_spec in E as (subjs & nb & mx & -> & _ & _ & _ & Hs).
      by rewrite Hn in Hs.
  - cbn in Hfr. subst subjs.
    destruct (one_cycle _ _ _ _ _ _ _) as [b fr' g'|fr' g'| | |] eqn:E; try done.
    + apply one_cycle_yield in E as (Hb & _ & mask1 & it' & -> & _). done.
    + by apply one_cycle_continue in E as (mask1 & ->).
Qed.

Lemma draw_distinct_NoDup cands size g :
  NoDup cands → NoDup (draw_distinct cands size g).1.
Proof.
  revert cands g. induction size as [|n IH]; intros cands g Hnd;
    cbn [draw_distinct]; [constructor|].
  destruct cands as [|c cs]; [constructor|].
  unfold next_raw. cbv beta iota zeta. set (cands := c :: cs) in *.
  set (i := raw g (pos g) mod length cands).
  assert (Hi : i < length cands)
    by (apply Nat.mod_upper_bound; subst cands; cbn; lia).
  pose proof (draw_distinct_spec (delete i cands) n
                {| raw := raw g; pos := S (pos g) |}) as [_ Hsub].
  specialize (IH (delete i cands) {| raw := raw g; pos := S (pos g) |}).
  destruct (draw_distinct (delete i cands) n _) as [xs g2]. cbn [fst] in *.
  apply NoDup_cons. split; [|apply IH].
  - intros Hx%Hsub.
    destruct (lookup_lt_is_Some_2 cands i Hi) as [x Hxi].
    rewrite (nth_lookup_Some _ _ 0 _ Hxi) in Hx.
    apply list_elem_of_lookup_1 in Hx as [j Hj].
    destruct (decide (j < i)) as [Hlt|Hge].
    + rewrite list_lookup_delete_lt in Hj by done.
      pose proof (NoDup_lookup _ _ _ _ Hnd Hj Hxi). lia.
    + rewrite list_lookup_delete_ge in Hj by lia.
      pose proof (NoDup_lookup _ _ _ _ Hnd Hj Hxi). lia.
  - eapply sublist_NoDup; [exact Hnd|apply sublist_delete].
Qed.

Lemma select_subjects_few self ids mask g k ids' mask' subjs mx it g' :
  nb_subjects_per_batch self = Some k → k ≠ 0%Z →
  select_subjects self ids mask g = Continue (AtCycle ids' mask' subjs mx it) g' →
  (Z.of_nat (length subjs) <= k)%Z ∧ NoDup subjs
  ∧ Forall (fun subj => subj < length ids) subjs.
Proof.
  intros Hk Hk0 E.
  assert (truthy (nb_subjects_per_batch self) = true) as Ht.
  { rewrite Hk. cbn. by apply negb_true_iff, Z.eqb_neq. }
  pose proof E as (subjs0 & nb & mx0 & Heq & _ & _ & Hlen & Hs)%select_subjects_spec.
  injection Heq as E1 E2 E3 E4 E5. subst ids' mask' subjs0.
  rewrite Ht, Hk in Hs. cbn in Hs. destruct Hs as [Hle _].
  split; [lia|]. revert E. unfold select_subjects.
  destruct (negb _); [done|]. destruct (_ =? 0); [done|]. rewrite Ht.
  destruct (choice_p _ _ _ _) as [[subjs1 g1]| |] eqn:Ec; cbn [bind]; [|done..].
  destruct (py_truediv _ _); [|done..]. intros [= <- _].
  split.
  - revert Ec. unfold choice_p. destruct (_ <? 0)%Z; [done|].
    destruct (negb _); [done|]. destruct (_ <? _)%Z; [done|].
    intros [= Hd].
    pose proof (draw_distinct_NoDup
      (filter (fun i => Qnonzero (nth i
         ((fun c => (QofNat c / QofNat (sum_list
            ((fun s => count_ones (get_slice mask s)) <$> ids)))%Q) <$>
          ((fun s => count_ones (get_slice mask s)) <$> ids)) 0%Q) = true)
         (seq 0 (subjs_data_list (dataset self))))
      (Z.to_nat (Z.min (default 0%Z (nb_subjects_per_batch self))
         (Z.of_nat (count_nonzero
           ((fun c => (QofNat c / QofNat (sum_list
              ((fun s => count_ones (get_slice mask s)) <$> ids)))%Q) <$>
            ((fun s => count_ones (get_slice mask s)) <$> ids))))))
      g) as Hnd.
    rewrite Hd in Hnd. apply Hnd. apply NoDup_filter, NoDup_seq.
  - apply choice_p_spec in Ec as [_ Hf].
    eapply Forall_impl; [exact Hf|]. intros i [Hi _].
    by rewrite !length_fmap in Hi.
Qed.

Lemma few_subjects_step self k fr g :
  nb_subjects_per_batch self = Some k → k ≠ 0%Z →
  few_subjects_frame k fr →
  match step self fr g with
  | Yield b fr' _ =>
      (b ≠ [] ∧ (Z.of_nat (length b) <= k)%Z ∧ NoDup b.*1
       ∧ Forall (fun subj => subj < length (frame_ids fr)) b.*1)
      ∧ few_subjects_frame k fr'
  | Continue fr' _ => few_subjects_frame k fr'
  | _ => True
  end.
Proof.
  intros Hk Hk0 Hfr. destruct fr as [ids mask|ids mask subjs mx it]; cbn [step].
  - destruct (select_subjects self ids mask g) as [b fr' g'|fr' g'| | |] eqn:E;
      try done.
    + by apply select_never_yields in E.
    + pose proof E as (subjs & nb & mx & -> & _)%select_subjects_spec.
      by apply (select_subjects_few _ _ _ _ k) in E.
  - destruct Hfr as (Hlen & Hnd & Hin).
    destruct (one_cycle _ _ _ _ _ _ _) as [b fr' g'|fr' g'| | |] eqn:E; try done.
    + apply one_cycle_yield in E as (Hb & Hne & mask1 & it' & -> & _).
      cbn [frame_ids few_subjects_frame]. rewrite Hb.
      repeat split; try done. by rewrite <- Hb, length_fmap in Hlen.
    + by apply one_cycle_continue in E as (mask1 & ->).
Qed.

(** X1.  When [nb_subjects_per_batch] is unset, every batch has one pair
    per subject of the dataset, in the order of the subjects. *)
Theorem batch_lists_all_subjects self fuel ids b :
  truthy (nb_subjects_per_batch self) = false →
  getitem (streamline_ids_per_subj (dataset self)) (streamline_group_idx self)
    = Ok ids →
  b ∈ (__iter__ fuel self).1 →
  b.*1 = seq 0 (length ids).
Proof.
  intros Hn Hids Hb.
  pose proof (iter_invariant self
    (fun fr => frame_ids fr = ids ∧ all_subjects_frame fr)
    (fun b => b.*1 = seq 0 (length ids))) as Hinv.
  eapply Forall_forall in Hinv; [exact Hinv| | |exact Hb].
  - intros fr g [<- Hfr]. pose proof (all_subjects_step self fr g Hn Hfr) as Hs.
    pose proof (step_spec self fr g) as Hsp.
    destruct (step self fr g); try done.
    + destruct Hs, Hsp as (-> & _). done.
    + destruct Hsp as (-> & _). done.
  - intros fr (total & ids' & _ & Hids' & ->)%iter_start_inv.
    split; [cbn; congruence|done].
Qed.

Lemma batch_lists_all_subjects_witness :
  [(0, [0; 0]); (1, [0; 0])].*1 = seq 0 (length [(0, 10); (10, 15)]).
Proof.
  apply (batch_lists_all_subjects all_subjects_sampler 2 [(0, 10); (10, 15)]
           [(0, [0; 0]); (1, [0; 0])]); [reflexivity | reflexivity|].
  vm_compute. left.
Defined.

(** X2.  When [nb_subjects_per_batch] is k (not 0), every batch has at
    least one and at most k pairs, on distinct subjects of the
    dataset. *)
Theorem batch_subjects_bounded self fuel ids k b :
  nb_subjects_per_batch self = Some k →
  k ≠ 0%Z →
  getitem (streamline_ids_per_subj (dataset self)) (streamline_group_idx self)
    = Ok ids →
  b ∈ (__iter__ fuel self).1 →
  b ≠ [] ∧ (Z.of_nat (length b) <= k)%Z ∧ NoDup b.*1
  ∧ Forall (fun subj => subj < length ids) b.*1.
Proof.
  intros Hk Hk0 Hids Hb.
  pose proof (iter_invariant self
    (fun fr => frame_ids fr = ids ∧ few_subjects_frame k fr)
    (fun b => b ≠ [] ∧ (Z.of_nat (length b) <= k)%Z ∧ NoDup b.*1
              ∧ Forall (fun subj => subj < length ids) b.*1)) as Hinv.
  eapply Forall_forall in Hinv; [exact Hinv| | |exact Hb].
  - intros fr g [<- Hfr].
    pose proof (few_subjects_step self k fr g Hk Hk0 Hfr) as Hs.
    pose proof (step_spec self fr g) as Hsp.
    destruct (step self fr g); try done.
    + destruct Hs, Hsp as (-> & _). done.
    + destruct Hsp as (-> & _). done.
  - intros fr (total & ids' & _ & Hids' & ->)%iter_start_inv.
    split; [cbn; congruence|done].
Qed.

Lemma batch_subjects_bounded_witness :
  let b := [(0, [0; 0; 0; 0])] in
  b ≠ [] ∧ (Z.of_nat (length b) <= 1)%Z ∧ NoDup b.*1
  ∧ Forall (fun subj => subj < length [(0, 10); (10, 15)]) b.*1.
Proof.
  apply (batch_subjects_bounded (scenario_A_sampler (stream_of [])) 2
           [(0, 10); (10, 15)] 1 [(0, [0; 0; 0; 0])]);
    [reflexivity | lia | reflexivity|].
  vm_compute. left.
Defined.

(** ** Ids stay in their slice *)

Lemma elem_of_unused_lt (mask : list bool) (s : slice) (x : nat) :
  x ∈ unused_ids mask s → x < snd s.
Proof.
  unfold unused_ids. intros (i & -> & Hi)%list_elem_of_fmap.
  unfold flatnonzero in Hi. apply list_elem_of_filter in Hi as [Hi _].
  unfold get_slice in Hi. apply lookup_take_Some in Hi as [_ Hi].
  unfold slice_start. lia.
Qed.

Lemma subj_loop_in_slice fuel self s mask mx total sampled g sampled' mask' g' :
  subj_loop fuel self s mask mx total sampled g = Ok (sampled', mask', g') →
  Forall (fun r => r + fst s < snd s) sampled →
  Forall (fun r => r + fst s < snd s) sampled'.
Proof.
  revert mask total sampled g.
  induction fuel as [|fuel IH]; intros mask total sampled g; [done|].
  cbn [subj_loop].
  destruct (_get_a_chunk_of_streamlines self s mask total mx g)
    as [[ret g1]| |] eqn:E; cbn [bind]; [|done..].
  apply get_a_chunk_inv in E
    as [(_ & -> & ->)|(chosen & Hne & Hc & _ & Hret)]; [done|].
  apply choice_spec in Hc as [_ Hc].
  assert (Hrel : ∀ l, (∀ x, x ∈ l → x ∈ chosen) →
            Forall (fun r => r + fst s < snd s)
                   ((fun i => i - slice_start s) <$> l)).
  { intros l Hl. apply Forall_fmap, Forall_forall. intros x Hx%Hl%Hc.
    pose proof (elem_of_unused_lt _ _ _ Hx).
    apply elem_of_unused in Hx as [_ Hx]. unfold slice_start in *. cbn. lia. }
  cbv zeta in Hret. destruct (fleb _ _); subst ret; cbn.
  - intros [= <- <- <-] Hs. apply Forall_app. split; [done|].
    apply Hrel. intros x. apply bool_index_elem.
  - intros H Hs. apply IH in H; [done|].
    apply Forall_app. split; [done|]. by apply Hrel.
Qed.

Lemma for_subjs_in_range self ids mx subjs mask g b b' mask' g' :
  for_subjs self ids mx subjs mask g b = Ok (b', mask', g') →
  ids_in_range ids (length mask) b →
  ids_in_range ids (length mask) b'.
Proof.
  revert mask g b. induction subjs as [|subj rest IH]; intros mask g b; cbn.
  - by intros [= <- <- <-].
  - destruct (_sample_streamlines_for_subj _ _ _ _ _ _ _)
      as [[[sampled mask1] g1]| |] eqn:E; cbn [bind]; [|done..].
    pose proof E as (Hav & [Hlen _] & [s Hs] & _)%sample_spec.
    intros H Hb. apply IH in H; [by rewrite Hlen in H|].
    rewrite Hlen. unfold ids_in_range. apply Forall_app. split; [done|].
    constructor; [|constructor]. exists s. split; [done|]. cbn [snd].
    unfold _sample_streamlines_for_subj, dict_getitem in E. rewrite Hs in E.
    cbn [bind] in E. apply subj_loop_in_slice in E; [|constructor].
    unfold pair_global_ids in Hav. cbn [fst snd] in Hav. rewrite Hs in Hav.
    apply Forall_fmap in Hav. unfold slice_start in Hav.
    apply Forall_forall. intros r Hr.
    rewrite Forall_forall in E, Hav. split; [by apply E|].
    destruct (Hav r Hr) as [Ha _]. cbn in Ha. by apply lookup_lt_Some in Ha.
Qed.

(** X3.  Every relative id of a yielded batch belongs to the slice of
    its subject, and the global id it stands for is an id of the
    dataset. *)
Theorem sampled_ids_in_range self fuel ids total b subj rel r :
  getitem (streamline_ids_per_subj (dataset self)) (streamline_group_idx self)
    = Ok ids →
  getitem (total_nb_streamlines (dataset self)) (streamline_group_idx self)
    = Ok total →
  b ∈ (__iter__ fuel self).1 →
  (subj, rel) ∈ b →
  r ∈ rel →
  ∃ start stop,
    ids !! subj = Some (start, stop) ∧ start + r < stop ∧ start + r < total.
Proof.
  intros Hids Htotal Hb Hp Hr.
  pose proof (iter_invariant self
    (fun fr => frame_ids fr = ids ∧ length (frame_mask fr) = total)
    (ids_in_range ids total)) as Hinv.
  eapply Forall_forall in Hinv; [| | |exact Hb].
  - unfold ids_in_range in Hinv. rewrite Forall_forall in Hinv.
    destruct (Hinv _ Hp) as ([start stop] & Hs & Hin).
    rewrite Forall_forall in Hin. destruct (Hin r Hr). cbn in *.
    exists start, stop. repeat split; [done|lia..].
  - intros fr g [<- <-]. pose proof (step_spec self fr g) as Hsp.
    destruct (step self fr g) as [b0 fr' g'|fr' g'| | |] eqn:E; try done.
    + destruct Hsp as (Hi & [Hl _] & _). split; [|done].
      destruct fr as [ids0 mask|ids0 mask subjs mx it]; cbn [step] in E.
      { by apply select_never_yields in E. }
      apply one_cycle_yield in E as (_ & _ & mask1 & it' & -> & E).
      by apply for_subjs_in_range in E; [|constructor].
    + by destruct Hsp as (-> & [-> _]).
  - intros fr (total' & ids' & Ht & Hids' & ->)%iter_start_inv.
    cbn. split; [congruence|]. rewrite length_replicate. congruence.
Qed.

Lemma sampled_ids_in_range_witness :
  ∃ start stop,
    [(0, 10); (10, 15)] !! 1 = Some (start, stop)
    ∧ start + 4 < stop ∧ start + 4 < 15.
Proof.
  apply (sampled_ids_in_range (scenario_A_sampler (stream_of [])) 47
           [(0, 10); (10, 15)] 15 [(1, [4; 4; 4; 4])] 1 [4; 4; 4; 4] 4);
    [reflexivity | reflexivity | | left | left].
  vm_compute. do 14 right. left.
Defined.

(** ** What a clean end has consumed *)

Lemma mask_out_keep mask ids x :
  avail mask x → x ∉ ids → avail (mask_out mask ids) x.
Proof.
  unfold mask_out, avail. revert mask.
  induction ids as [|i ids IH]; intros mask Hx Hni; cbn [foldl]; [done|].
  apply not_elem_of_cons in Hni as [Hne Hni].
  apply IH; [|done]. by rewrite list_lookup_insert_ne.
Qed.

Lemma mask_out_split mask ids x :
  avail mask x → avail (mask_out mask ids) x ∨ x ∈ ids.
Proof.
  intros Hx. destruct (decide (x ∈ ids)); [by right|left].
  by apply mask_out_keep.
Qed.

Lemma subj_loop_consumed fuel self s mask mx total sampled g sampled' mask' g' x :
  subj_loop fuel self s mask mx total sampled g = Ok (sampled', mask', g') →
  avail mask x →
  avail mask' x ∨ ∃ r, r ∈ sampled' ∧ r + fst s = x.
Proof.
  revert mask total sampled g.
  induction fuel as [|fuel IH]; intros mask total sampled g; [done|].
  cbn [subj_loop].
  destruct (_get_a_chunk_of_streamlines self s mask total mx g)
    as [[ret g1]| |] eqn:E; cbn [bind]; [|done..].
  apply get_a_chunk_inv in E
    as [(_ & -> & ->)|(chosen & Hne & Hc & _ & Hret)]; [done|].
  apply choice_spec in Hc as [_ Hc].
  assert (Hrel : ∀ l : list nat, (∀ y, y ∈ l → y ∈ chosen) → x ∈ l →
            ∃ r, r ∈ (fun i => i - slice_start s) <$> l ∧ r + fst s = x).
  { intros l Hl Hx. exists (x - slice_start s). split.
    - by apply (list_elem_of_fmap_2 (fun i => i - slice_start s)).
    - apply Hl, Hc, elem_of_unused in Hx as [_ Hx].
      unfold slice_start in *. lia. }
  cbv zeta in Hret. destruct (fleb _ _); subst ret; cbn.
  - intros [= <- <- <-] Hx.
    match goal with
    | |- context [mask_out mask ?l] =>
        destruct (mask_out_split mask l x Hx) as [?|Hin]; [by left|right]
    end.
    destruct (Hrel _ (bool_index_elem chosen _) Hin) as (r & Hr & Hrx).
    exists r. split; [|done]. apply elem_of_app. by right.
  - intros H Hx.
    destruct (mask_out_split mask chosen x Hx) as [Hx1|Hin].
    + by apply (IH _ _ _ _ H).
    + right. destruct (Hrel chosen (fun _ H => H) Hin) as (r & Hr & Hrx).
      exists r. split; [|done].
      apply subj_loop_spec in H as (gids & -> & _).
      apply elem_of_app. left. apply elem_of_app. by right.
Qed.

Lemma elem_of_batch_global_ids (ids : list slice) (b : batch) subj rel
    (s : slice) r :
  (subj, rel) ∈ b → ids !! subj = Some s → r ∈ rel →
  r + fst s ∈ batch_global_ids ids b.
Proof.
  intros Hp Hs Hr. unfold batch_global_ids. apply list_elem_of_bind.
  exists (subj, rel). split; [|done].
  unfold pair_global_ids. simpl. rewrite Hs.
  by apply (list_elem_of_fmap_2 (fun r => r + slice_start s)).
Qed.

Lemma for_subjs_consumed self ids mx subjs mask g b b' mask' g' x :
  for_subjs self ids mx subjs mask g b = Ok (b', mask', g') →
  avail mask x →
  avail mask' x ∨ x ∈ batch_global_ids ids b'.
Proof.
  revert mask g b. induction subjs as [|subj rest IH]; intros mask g b; cbn.
  - intros [= <- <- <-]. by left.
  - destruct (_sample_streamlines_for_subj _ _ _ _ _ _ _)
      as [[[sampled mask1] g1]| |] eqn:E; cbn [bind]; [|done..].
    intros H Hx.
    unfold _sample_streamlines_for_subj, dict_getitem in E.
    destruct (ids !! subj) as [s|] eqn:Hs; cbn [bind] in E; [|done].
    destruct (subj_loop_consumed _ _ _ _ _ _ _ _ _ _ _ x E Hx)
      as [Hx1|(r & Hr & <-)].
    + by apply (IH _ _ _ H).
    + right. apply for_subjs_spec in H as (newb & -> & _).
      apply (elem_of_batch_global_ids ids _ subj sampled s r); [|done..].
      apply elem_of_app. left. apply elem_of_app. right. by left.
Qed.

Lemma step_consumed self fr g x :
  avail (frame_mask fr) x →
  match step self fr g with
  | Yield b fr' _ =>
      avail (frame_mask fr') x ∨ x ∈ batch_global_ids (frame_ids fr) b
  | Continue fr' _ => avail (frame_mask fr') x
  | StopIteration => False
  | _ => True
  end.
Proof.
  destruct fr as [ids mask|ids mask subjs mx it]; cbn [step frame_mask frame_ids];
    intros Hx.
  - pose proof (select_subjects_inv self ids mask g) as Hi.
    destruct (select_subjects self ids mask g) as [b fr' g'|fr' g'| | |] eqn:E;
      try done.
    + apply select_subjects_spec in E as (subjs & nb & mx & -> & _). done.
    + revert E. unfold select_subjects.
      destruct (negb _) eqn:E1; [done|].
      destruct (sum_list _ =? 0) eqn:E2.
      2: { destruct (truthy _); [destruct (choice_p _ _ _ _) as [[? ?]| |]|];
           cbn [bind]; try done; by_truediv. }
      intros _. apply negb_false_iff, Nat.eqb_eq in E1.
      apply Nat.eqb_eq in E2. rewrite E2 in E1. symmetry in E1.
      unfold count_ones in E1. apply nil_length_inv in E1.
      apply list_elem_of_lookup_2 in Hx.
      assert (true ∈ filter (fun b => b = true) mask) as Hin
        by (by apply list_elem_of_filter).
      rewrite E1 in Hin. by apply elem_of_nil in Hin.
  - unfold one_cycle.
    destruct (for_subjs _ _ _ _ _ _ _) as [[[b mask1] g1]| |] eqn:E.
    2,3: by destruct it as [[|?]|].
    pose proof (for_subjs_consumed _ _ _ _ _ _ _ _ _ _ x E Hx) as Hc.
    destruct it as [[|n]|]; [done|..];
      (destruct (length b =? 0) eqn:El; cbn [frame_mask]; [|done]);
      apply Nat.eqb_eq, nil_length_inv in El; subst b;
      (destruct Hc as [?|Hc]; [done|]); by apply elem_of_nil in Hc.
Qed.

Lemma run_covers self fuel fr g bs x :
  run fuel self fr g = (bs, Exhausted) →
  avail (frame_mask fr) x →
  ∃ b, b ∈ bs ∧ x ∈ batch_global_ids (frame_ids fr) b.
Proof.
  revert fr g bs. induction fuel as [|fuel IH]; intros fr g bs; cbn [run];
    [done|].
  intros Hrun Hx. pose proof (step_consumed self fr g x Hx) as Hc.
  pose proof (step_spec self fr g) as Hs.
  destruct (step self fr g) as [b fr' g'|fr' g'| | |]; try done.
  - destruct Hs as (Hids & _).
    destruct (run fuel self fr' g') as [bs' st] eqn:E.
    injection Hrun as <- ->.
    destruct Hc as [Hx'|Hin].
    + destruct (IH _ _ _ E Hx') as (b' & Hb' & Hxb').
      exists b'. split; [by right|]. by rewrite <- Hids.
    + exists b. split; [by left|done].
  - destruct Hs as (Hids & _).
    destruct (IH _ _ _ Hrun Hc) as (b' & Hb' & Hxb').
    exists b'. split; [done|]. by rewrite <- Hids.
Qed.

(** X4.  When an epoch ends by itself (the generator returns), every
    streamline of the dataset has been yielded in some batch. *)
Theorem clean_end_covers_all self fuel ids total bs x :
  getitem (streamline_ids_per_subj (dataset self)) (streamline_group_idx self)
    = Ok ids →
  getitem (total_nb_streamlines (dataset self)) (streamline_group_idx self)
    = Ok total →
  __iter__ fuel self = (bs, Exhausted) →
  x < total →
  ∃ b, b ∈ bs ∧ x ∈ batch_global_ids ids b.
Proof.
  intros Hids Htotal. unfold __iter__.
  destruct (iter_start self) as [fr| |] eqn:E; try done.
  apply iter_start_inv in E as (total' & ids' & Ht & Hi & ->).
  assert (ids' = ids) as -> by congruence.
  assert (total' = total) as -> by congruence.
  intros Hrun Hx. apply (run_covers _ _ _ _ _ x) in Hrun; [done|].
  cbn. by apply lookup_replicate_2.
Qed.

Lemma clean_end_covers_all_witness :
  ∃ b, b ∈ (__iter__ 47 (scenario_A_sampler (stream_of []))).1
       ∧ 12 ∈ batch_global_ids [(0, 10); (10, 15)] b.
Proof.
  apply (clean_end_covers_all (scenario_A_sampler (stream_of [])) 47
           [(0, 10); (10, 15)] 15
           (__iter__ 47 (scenario_A_sampler (stream_of []))).1 12);
    [reflexivity | reflexivity | vm_compute; reflexivity | lia].
Defined.

(** ** Counting budgets: the exact size of a pair *)

(** X5.  A sampler built with the unit 'nb_streamlines' puts in every
    pair of every batch exactly ceil(batch_size / n) - 1 relative ids,
    where n is the number of pairs of the batch. *)
Theorem count_budget_pair_size
    mt d name bs chunk seed nsub cyc w self fuel b subj rel :
  (__init__ mt d name bs "nb_streamlines" chunk seed nsub cyc w).1 = Ok self →
  b ∈ (__iter__ fuel self).1 →
  (subj, rel) ∈ b →
  Z.of_nat (length rel)
  = (Qceiling (inject_Z bs / inject_Z (Z.of_nat (length b))) - 1)%Z.
Proof.
  destruct (__init__ _ _ _ _ _ _ _ _ _ _) as [r w'] eqn:E. cbn [fst].
  intros ->. apply init_ok_inv in E as (Hbs & _ & <- & Hu & _ & _ & Hc & _).
  intros Hb Hp.
  pose proof (iter_invariant self (budget_split self)
    (fun b => Forall (fun p =>
       Z.of_nat (length p.2)
       = (Qceiling (inject_Z (batch_size self)
                    / inject_Z (Z.of_nat (length b))) - 1)%Z) b)) as Hinv.
  eapply Forall_forall in Hinv; [| | |exact Hb].
  - rewrite Forall_forall in Hinv. exact (Hinv _ Hp).
  - intros fr g Hfr. by apply count_step.
  - by intros fr (total & ids & _ & _ & ->)%iter_start_inv.
Qed.

Lemma count_budget_pair_size_witness :
  Z.of_nat (length [0; 0])
  = (Qceiling (inject_Z 5
               / inject_Z (Z.of_nat (length [(0, [0; 0]); (1, [0; 0])]))) - 1)%Z.
Proof.
  apply (count_budget_pair_size (stream_of []) scenario_A_dataset "streamlines"
           5 5 1234 None None fresh_process all_subjects_sampler 2
           [(0, [0; 0]); (1, [0; 0])] 0 [0; 0]);
    [reflexivity | | left].
  vm_compute. left.
Defined.

(** ** The first step *)

Lemma count_ones_replicate n : count_ones (replicate n true) = n.
Proof.
  unfold count_ones. induction n as [|n IH]; [done|].
  cbn [replicate]. rewrite filter_cons_True by done. cbn. by rewrite IH.
Qed.

Lemma get_slice_replicate {A} n (x : A) s :
  get_slice (replicate n x) s = replicate (slice_length n s) x.
Proof.
  unfold get_slice, slice_length.
  by rewrite drop_replicate, take_replicate.
Qed.

Lemma initial_counts total (ids : list slice) :
  (fun s => count_ones (get_slice (replicate total true) s)) <$> ids
  = slice_length total <$> ids.
Proof.
  apply list_fmap_ext. intros _ s _.
  by rewrite get_slice_replicate, count_ones_replicate.
Qed.

(** X6.  When the slices of the subjects, cut to the array, do not add
    up to the number of streamlines of the group, the first step of the
    iteration fails on its assertion and no batch is yielded. *)
Theorem uncovered_ids_fail_assertion self ids total fuel :
  getitem (streamline_ids_per_subj (dataset self)) (streamline_group_idx self)
    = Ok ids →
  getitem (total_nb_streamlines (dataset self)) (streamline_group_idx self)
    = Ok total →
  sum_list (slice_length total <$> ids) ≠ total →
  __iter__ (S fuel) self = ([], Failed AssertionError).
Proof.
  intros Hids Htotal Hsum. unfold __iter__, iter_start.
  rewrite Htotal, Hids. cbn [bind run step]. unfold select_subjects.
  rewrite initial_counts, count_ones_replicate.
  by apply Nat.eqb_neq in Hsum as ->.
Qed.

Lemma uncovered_ids_fail_assertion_witness :
  __iter__ 1 gapped_sampler = ([], Failed AssertionError).
Proof.
  apply (uncovered_ids_fail_assertion gapped_sampler [(0, 2); (3, 4)] 4 0);
    [reflexivity | reflexivity|].
  vm_compute. lia.
Defined.

Lemma counts_of_empty_mask (ids : list slice) :
  sum_list ((fun s : slice => count_ones (get_slice [] s)) <$> ids) = 0.
Proof.
  induction ids as [|s ids IH]; [done|].
  rewrite fmap_cons. cbn [sum_list]. rewrite IH.
  unfold get_slice. by rewrite drop_nil, take_nil.
Qed.

(** X7.  A group without streamlines gives an epoch without batches
    that ends at once, whatever the configuration. *)
Theorem empty_group_ends_at_once self ids fuel :
  getitem (streamline_ids_per_subj (dataset self)) (streamline_group_idx self)
    = Ok ids →
  getitem (total_nb_streamlines (dataset self)) (streamline_group_idx self)
    = Ok 0 →
  __iter__ (S fuel) self = ([], Exhausted).
Proof.
  intros Hids Htotal. unfold __iter__, iter_start.
  rewrite Htotal, Hids. cbn [bind run step replicate]. unfold select_subjects.
  by rewrite counts_of_empty_mask.
Qed.

Lemma empty_group_ends_at_once_witness :
  __iter__ 1 empty_group_sampler = ([], Exhausted).
Proof.
  apply (empty_group_ends_at_once empty_group_sampler [] 0);
    reflexivity.
Defined.

(** ** How a run can stand *)

Lemma run_status_invariant self (I : frame → Prop) (S : status → Prop) :
  S Suspended →
  (∀ fr g, I fr →
     match step self fr g with
     | Yield _ fr' _ | Continue fr' _ => I fr'
     | StopIteration => S Exhausted
     | Raises e => S (Failed e)
     | Hangs => S Diverged
     end) →
  ∀ fuel fr g, I fr → S (run fuel self fr g).2.
Proof.
  intros Hsusp Hstep. induction fuel as [|fuel IH]; intros fr g Hfr; cbn [run];
    [done|].
  specialize (Hstep fr g Hfr).
  destruct (step self fr g) as [b fr' g'|fr' g'| | |]; try done.
  - specialize (IH fr' g' Hstep). by destruct (run fuel self fr' g').
  - by apply IH.
Qed.

(** ** The assertion on the counts *)

Lemma count_ones_app l1 l2 : count_ones (l1 ++ l2) = count_ones l1 + count_ones l2.
Proof. unfold count_ones. by rewrite filter_app, length_app. Qed.

Lemma partition_from_le start total ids :
  partition_from start total ids → start ≤ total.
Proof.
  revert start. induction ids as [|s ids IH]; intros start; cbn.
  - lia.
  - intros (<- & Hle & H%IH). lia.
Qed.

Lemma partition_counts mask start ids :
  partition_from start (length mask) ids →
  sum_list ((fun s => count_ones (get_slice mask s)) <$> ids)
  = count_ones (drop start mask).
Proof.
  revert start. induction ids as [|s ids IH]; intros start; cbn [partition_from].
  - intros ->. by rewrite drop_all.
  - intros (<- & Hle & Hrest). rewrite fmap_cons. cbn [sum_list].
    rewrite (IH _ Hrest). unfold get_slice.
    rewrite <- (take_drop (snd s - fst s) (drop (fst s) mask)) at 2.
    rewrite count_ones_app, drop_drop. do 3 f_equal. lia.
Qed.

Lemma get_a_chunk_no_assertion self s mask cur mx g :
  _get_a_chunk_of_streamlines self s mask cur mx g ≠ Raise AssertionError.
Proof.
  unfold _get_a_chunk_of_streamlines. destruct (_ =? 0); [done|].
  unfold choice. destruct (_ <? 0)%Z; [done|]. destruct (_ && _); [done|].
  destruct (2 ^ 63 <=? _)%Z; [done|]. destruct (2 ^ 60 <=? _)%Z; [done|].
  destruct (max_array_length <=? _)%Z; [done|].
  cbn [bind]. destruct (draw_many _ _ _) as [chosen g1].
  assert (_compute_and_adjust_batch_size self chosen ≠ Raise AssertionError)
    as Hc.
  { unfold _compute_and_adjust_batch_size, getitem.
    destruct (String.eqb _ _); [|done].
    destruct (_ !! _) as [l|]; [|done]. cbn [bind].
    induction chosen as [|i chosen IH]; cbn; [done|].
    destruct (l !! i); [|done]. by destruct (fancy_index l chosen) as [?|[]|]. }
  destruct (_compute_and_adjust_batch_size self chosen) as [?|[]|]; try done.
  all: cbn [bind]; by destruct (fleb _ _).
Qed.

Lemma subj_loop_no_assertion fuel self s mask mx total sampled g :
  subj_loop fuel self s mask mx total sampled g ≠ Raise AssertionError.
Proof.
  revert mask total sampled g.
  induction fuel as [|fuel IH]; intros mask total sampled g; [done|].
  cbn [subj_loop].
  pose proof (get_a_chunk_no_assertion self s mask total mx g) as Hn.
  destruct (_get_a_chunk_of_streamlines self s mask total mx g)
    as [[ret g1]|[]|]; cbn [bind]; try done.
  destruct ret as [? ? ? ?|? ? ? [] []]; done || apply IH.
Qed.

Lemma for_subjs_no_assertion self ids mx subjs mask g b :
  for_subjs self ids mx subjs mask g b ≠ Raise AssertionError.
Proof.
  revert mask g b. induction subjs as [|subj rest IH]; intros mask g b;
    cbn [for_subjs]; [done|].
  unfold _sample_streamlines_for_subj at 1. unfold dict_getitem.
  destruct (ids !! subj) as [s|]; cbn [bind]; [|done].
  pose proof (subj_loop_no_assertion (S (length mask)) self s mask mx (Fin 0) [] g).
  destruct (subj_loop _ _ _ _ _ _ _ _) as [[[sampled mask1] g1]|[]|];
    cbn [bind]; done || apply IH.
Qed.

Lemma partition_step self ids fr g :
  frame_ids fr = ids →
  partition_from 0 (length (frame_mask fr)) ids →
  match step self fr g with
  | Yield _ fr' _ | Continue fr' _ =>
      frame_ids fr' = ids ∧ length (frame_mask fr') = length (frame_mask fr)
  | Raises e => e ≠ AssertionError
  | _ => True
  end.
Proof.
  intros Hids Hp. pose proof (step_spec self fr g) as Hs.
  destruct (step self fr g) as [b fr' g'|fr' g'| |e|] eqn:E; try done.
  - destruct Hs as (-> & [-> _] & _). done.
  - destruct Hs as (-> & [-> _]). done.
  - intros ->. destruct fr as [ids0 mask|ids0 mask subjs mx it];
      cbn [step frame_ids frame_mask] in *; subst ids0.
    + revert E. unfold select_subjects.
      rewrite (partition_counts mask 0 ids Hp), drop_0, Nat.eqb_refl.
      cbn [negb]. destruct (_ =? 0); [done|].
      destruct (truthy _).
      * unfold choice_p. destruct (_ <? 0)%Z; [done|].
        destruct (negb _); [done|]. destruct (_ <? _)%Z; [done|].
        destruct (draw_distinct _ _ _). cbn [bind]. by_truediv.
      * by_truediv.
    + revert E. unfold one_cycle.
      pose proof (for_subjs_no_assertion self ids mx subjs mask g []) as Hn.
      destruct (for_subjs _ _ _ _ _ _ _) as [[[b mask1] g1]|[]|];
        destruct it as [[|n]|]; try done; by destruct (length b =? 0).
Qed.

(** X8.  When the slices of the subjects follow one another from 0 to
    the number of streamlines of the group, the assertion on the counts
    never fails, at any step of the epoch. *)
Theorem partition_keeps_assertion self ids total fuel :
  getitem (streamline_ids_per_subj (dataset self)) (streamline_group_idx self)
    = Ok ids →
  getitem (total_nb_streamlines (dataset self)) (streamline_group_idx self)
    = Ok total →
  partition_from 0 total ids →
  (__iter__ fuel self).2 ≠ Failed AssertionError.
Proof.
  intros Hids Htotal Hp. unfold __iter__, iter_start.
  rewrite Htotal, Hids. cbn [bind].
  apply (run_status_invariant self
           (fun fr => frame_ids fr = ids ∧ length (frame_mask fr) = total)
           (fun st => st ≠ Failed AssertionError)); [done| |].
  - intros fr g [Hi Hl]. rewrite <- Hl in Hp.
    pose proof (partition_step self ids fr g Hi Hp) as Hs.
    destruct (step self fr g) as [b fr' g'|fr' g'| |e|]; try done.
    + destruct Hs. split; [done|congruence].
    + destruct Hs. split; [done|congruence].
    + congruence.
  - cbn. by rewrite length_replicate.
Qed.

Lemma partition_keeps_assertion_witness :
  (__iter__ 47 (scenario_A_sampler (stream_of []))).2 ≠ Failed AssertionError.
Proof.
  apply (partition_keeps_assertion (scenario_A_sampler (stream_of [])) 
           [(0, 10); (10, 15)] 15 47); [reflexivity | reflexivity|].
  simpl. lia.
Defined.

(** ** Without cycles *)

Lemma endless_cycle_step self fr g :
  endless_cycle_frame fr →
  match step self fr g with
  | Yield _ fr' _ => endless_cycle_frame fr'
  | Continue _ _ | StopIteration => False
  | _ => True
  end.
Proof.
  destruct fr as [ids mask|ids mask subjs mx it]; [done|].
  intros [Hne ->]. cbn [step].
  destruct (one_cycle _ _ _ _ _ _ _) as [b fr' g'|fr' g'| | |] eqn:E; try done.
  - revert E. unfold one_cycle.
    destruct (for_subjs _ _ _ _ _ _ _) as [[[b0 mask1] g1]| |]; [|done..].
    destruct (length b0 =? 0); [done|]. by intros [= _ <- _].
  - revert E. unfold one_cycle.
    destruct (for_subjs _ _ _ _ _ _ _) as [[[b0 mask1] g1]| |] eqn:Ef; [|done..].
    apply for_subjs_spec in Ef as (newb & -> & Hsub & _).
    destruct newb; [by destruct subjs|done].
  - revert E. unfold one_cycle.
    destruct (for_subjs _ _ _ _ _ _ _) as [[[b0 mask1] g1]| |]; [|done..].
    by destruct (length b0 =? 0).
Qed.

(** X9.  When [cycles] is unset (or 0) and the group has streamlines,
    the epoch never ends by itself: however long it runs, the generator
    has not returned; it is still yielding or an exception has left it. *)
Theorem no_cycles_no_clean_end self total fuel :
  truthy (cycles self) = false →
  getitem (total_nb_streamlines (dataset self)) (streamline_group_idx self)
    = Ok total →
  0 < total →
  (__iter__ fuel self).2 ≠ Exhausted.
Proof.
  intros Hcyc Htotal Hpos. unfold __iter__.
  destruct (iter_start self) as [fr| |] eqn:E; try done.
  apply iter_start_inv in E as (total' & ids & Ht & _ & ->).
  assert (total' = total) as -> by congruence.
  destruct fuel as [|fuel]; [done|]. cbn [run step].
  assert (avail (replicate total true) 0) as H0
    by (by apply lookup_replicate_2).
  pose proof (step_consumed self (AtSelect ids (replicate total true))
                (np_rng self) 0 H0) as Hc. cbn [step] in Hc.
  destruct (select_subjects _ _ _ _) as [b fr' g'|fr' g'| | |] eqn:Es; try done.
  - by apply select_never_yields in Es.
  - apply select_subjects_spec in Es as (subjs & nb & mx & -> & _ & Hnb & Hlen & _).
    rewrite Hcyc.
    apply (run_status_invariant self endless_cycle_frame
             (fun st => st ≠ Exhausted)); [done| |].
    + intros fr g Hfr. pose proof (endless_cycle_step self fr g Hfr) as Hs.
      by destruct (step self fr g).
    + split; [|done]. intros ->. cbn in Hlen. lia.
Qed.

Lemma no_cycles_no_clean_end_witness :
  (__iter__ 5 all_subjects_sampler).2 ≠ Exhausted.
Proof.
  apply (no_cycles_no_clean_end all_subjects_sampler 15 5);
    [reflexivity | reflexivity | lia].
Defined.

(** ** Epochs that end *)

Lemma mask_le_cons b' m' b m :
  mask_le (b' :: m') (b :: m) → (b' = true → b = true) ∧ mask_le m' m.
Proof.
  intros [Hl H]. split.
  - intros ->. specialize (H 0 eq_refl). by injection H.
  - split; [by injection Hl|]. intros x Hx. exact (H (S x) Hx).
Qed.

Lemma count_ones_cons b m :
  count_ones (b :: m) = (if b then 1 else 0) + count_ones m.
Proof.
  unfold count_ones. rewrite filter_cons.
  destruct b; case_decide; done.
Qed.

Lemma mask_le_count m' m : mask_le m' m → count_ones m' ≤ count_ones m.
Proof.
  revert m. induction m' as [|b' m' IH]; intros [|b m] Hle.
  1: done. 1,2: by destruct Hle as [[=] _].
  apply mask_le_cons in Hle as [Hb Hle]. specialize (IH _ Hle).
  rewrite !count_ones_cons. destruct b', b; lia || by specialize (Hb eq_refl).
Qed.

Lemma mask_le_count_lt m' m x :
  mask_le m' m → avail m x → m' !! x = Some false →
  count_ones m' < count_ones m.
Proof.
  revert m x. induction m' as [|b' m' IH]; intros [|b m] x Hle.
  1: done. 1,2: by destruct Hle as [[=] _].
  pose proof (mask_le_count _ _ (proj2 (mask_le_cons _ _ _ _ Hle))) as Hc.
  apply mask_le_cons in Hle as [Hb Hle].
  unfold avail. rewrite !count_ones_cons.
  destruct x as [|x]; cbn.
  - intros [= ->] [= ->]. lia.
  - intros Hx Hx'. specialize (IH _ _ Hle Hx Hx').
    destruct b', b; lia || by specialize (Hb eq_refl).
Qed.

Lemma Qceiling_above_one (bs nb : Z) :
  (0 < nb < bs)%Z → (2 <= Qceiling (inject_Z bs / inject_Z nb))%Z.
Proof.
  intros H.
  assert (inject_Z 1 < inject_Z bs / inject_Z nb)%Q as Hlt
    by (apply Qdiv_Z_lt; lia).
  apply Qlt_inject_ceiling in Hlt. lia.
Qed.

(** A subject that gets ids takes at least one unused id out of the
    mask. *)
Lemma count_sample_consumes self subj ids mask mx nb fuel g sampled mask' g' :
  batch_size_units self = "nb_streamlines"%string →
  nb_streamlines_per_chunk self = batch_size self →
  (0 < nb < batch_size self)%Z →
  py_truediv (batch_size self) nb = Ok mx →
  _sample_streamlines_for_subj (S fuel) self subj ids mask mx g
    = Ok (sampled, mask', g') →
  count_ones mask' < count_ones mask.
Proof.
  intros Hu Hchunk Hnb Hmx. unfold _sample_streamlines_for_subj.
  destruct (dict_getitem ids subj) as [s| |]; cbn [bind]; [|done..].
  intros E. pose proof E as Hlen.
  apply (count_subj_loop _ _ _ _ nb) in Hlen; [|done|done|lia|lia|done].
  apply subj_loop_spec in E as (gids & -> & Ha & Hu' & Hml & _).
  pose proof (Qceiling_above_one _ _ Hnb).
  destruct gids as [|x gids]; [cbn in Hlen; lia|].
  apply Forall_cons in Ha as [[Hx _] _]. apply Forall_cons in Hu' as [Hx' _].
  by apply (mask_le_count_lt _ _ x).
Qed.

Lemma for_subjs_mask_le self ids mx subjs mask g b b' mask' g' :
  for_subjs self ids mx subjs mask g b = Ok (b', mask', g') →
  mask_le mask' mask.
Proof. by intros (newb & _ & _ & _ & Hle & _)%for_subjs_spec. Qed.

Lemma count_cycle_consumes self ids mx nb subjs mask g b mask' g' :
  batch_size_units self = "nb_streamlines"%string →
  nb_streamlines_per_chunk self = batch_size self →
  (0 < nb < batch_size self)%Z →
  py_truediv (batch_size self) nb = Ok mx →
  subjs ≠ [] →
  for_subjs self ids mx subjs mask g [] = Ok (b, mask', g') →
  count_ones mask' < count_ones mask ∧ b ≠ [].
Proof.
  intros Hu Hchunk Hnb Hmx Hne. destruct subjs as [|subj rest]; [done|].
  cbn [for_subjs].
  destruct (_sample_streamlines_for_subj _ _ _ _ _ _ _)
    as [[[sampled mask1] g1]| |] eqn:E; cbn [bind]; [|done..].
  eapply count_sample_consumes in E; [|done..].
  intros H. pose proof (for_subjs_mask_le _ _ _ _ _ _ _ _ _ _ H) as Hml.
  apply mask_le_count in Hml. split; [lia|].
  apply for_subjs_spec in H as (newb & -> & _). by destruct newb.
Qed.

Lemma consuming_select self k c ids mask g fr' g' :
  counted_config self k c →
  select_subjects self ids mask g = Continue fr' g' →
  consuming_frame self fr'
  ∧ ∃ subjs mx j, fr' = AtCycle ids mask subjs mx (Some (S j)).
Proof.
  intros [Hu Hchunk Hk Hc Hkk Hcc] E.
  apply select_subjects_spec in E as (subjs & nb & mx & -> & Hmx & Hnb & Hlen & Hs).
  rewrite Hk in Hs. cbn in Hs.
  assert ((k =? 0)%Z = false) as Hk0 by lia. rewrite Hk0 in Hs.
  cbn in Hs. destruct Hs as [Hle _].
  rewrite Hc. cbn. assert ((c =? 0)%Z = false) as -> by lia. cbn.
  assert (0 < length subjs) as Hpos by lia.
  split.
  - split; [by destruct subjs|]. rewrite Hlen. split; [lia|]. by split.
  - destruct (Z.to_nat c) as [|j] eqn:Ej; [lia|]. eauto.
Qed.

Lemma consuming_step self k c fr g :
  counted_config self k c →
  consuming_frame self fr →
  match step self fr g with
  | Yield b fr' _ =>
      consuming_frame self fr' ∧ steps_left fr' < steps_left fr
      ∧ count_ones (frame_mask fr') < count_ones (frame_mask fr)
  | Continue fr' _ =>
      consuming_frame self fr' ∧ steps_left fr' < steps_left fr
      ∧ count_ones (frame_mask fr') ≤ count_ones (frame_mask fr)
  | Hangs => False
  | _ => True
  end.
Proof.
  intros Hcfg Hfr. pose proof Hcfg as [Hu Hchunk Hk Hc Hkk Hcc].
  assert (0 < nb_streamlines_per_chunk self)%Z as Hpos by lia.
  pose proof (step_never_hangs self fr g Hpos) as Hh.
  destruct fr as [ids mask|ids mask subjs mx it]; cbn [step] in *.
  - destruct (select_subjects self ids mask g) as [b fr' g'|fr' g'| | |] eqn:E;
      try done.
    + by apply select_never_yields in E.
    + apply (consuming_select self k c) in E
        as [Hfr' (subjs & mx & j & ->)]; [|done].
      split; [done|]. cbn. split; lia.
  - destruct Hfr as (Hne & Hle & Hmx & [j ->]).
    unfold one_cycle in *. destruct j as [|j].
    { cbn. split; [done|]. split; lia. }
    destruct (for_subjs _ _ _ _ _ _ _) as [[[b mask1] g1]| |] eqn:E; try done.
    eapply count_cycle_consumes in E as [Hlt Hb]; [|done|done| |done..].
    2: { split; [|done]. destruct subjs; [done|cbn; lia]. }
    destruct b as [|p b]; [done|]. cbn [length Nat.eqb fmap option_fmap option_map].
    cbn [frame_mask]. split; [by repeat split; eauto|].
    split; [|done]. destruct j; cbn; lia.
Qed.

Lemma consuming_run self k c fuel fr g :
  counted_config self k c →
  consuming_frame self fr →
  steps_left fr ≤ fuel →
  finished (run fuel self fr g).2
  ∧ length (run fuel self fr g).1 ≤ count_ones (frame_mask fr).
Proof.
  intros Hcfg. revert fr g. induction fuel as [|fuel IH]; intros fr g Hfr Hf.
  - destruct fr as [? ?|? ? ? ? [[|?]|]]; cbn in Hf; lia.
  - cbn [run]. pose proof (consuming_step self k c fr g Hcfg Hfr) as Hs.
    destruct (step self fr g) as [b fr' g'|fr' g'| |e|]; try done.
    + destruct Hs as (Hfr' & Hlt & Hc).
      destruct (IH fr' g' Hfr') as [Hfin Hlen]; [lia|].
      destruct (run fuel self fr' g') as [bs st]. cbn in *. split; [done|lia].
    + destruct Hs as (Hfr' & Hlt & Hc).
      destruct (IH fr' g' Hfr') as [Hfin Hlen]; [lia|]. split; [done|lia].
    + split; [by left|cbn; lia].
    + split; [right; eauto|cbn; lia].
Qed.

Lemma init_counted_config mt d name bs chunk seed k c w self :
  (__init__ mt d name bs "nb_streamlines" chunk seed (Some k) (Some c) w).1
    = Ok self →
  (0 < k < bs)%Z → (0 < c)%Z →
  counted_config self k c ∧ dataset self = d.
Proof.
  destruct (__init__ _ _ _ _ _ _ _ _ _ _) as [r w'] eqn:E. cbn [fst].
  intros -> Hk Hc.
  apply init_ok_inv in E as (_ & Hd & Hbs & Hu & Hn & Hcy & Hch & _).
  split; [|done]. split; try done; rewrite ?Hbs; try done.
Qed.

(** X10.  A sampler built with the unit 'nb_streamlines', at most k
    subjects per batch with 0 < k < batch_size, and c > 0 cycles: every
    batch takes at least one unused streamline, so an epoch over a group
    of [total] streamlines yields at most [total] batches and is over
    (the generator returned, or an exception left it) within
    3 * total + 2 steps. *)
Theorem counted_epoch_ends
    mt d name bs chunk seed k c w self total fuel :
  (__init__ mt d name bs "nb_streamlines" chunk seed (Some k) (Some c) w).1
    = Ok self →
  (0 < k < bs)%Z →
  (0 < c)%Z →
  getitem (total_nb_streamlines d) (streamline_group_idx self) = Ok total →
  3 * total + 2 ≤ fuel →
  finished (__iter__ fuel self).2
  ∧ length (__iter__ fuel self).1 ≤ total.
Proof.
  intros Hinit Hk Hc Htotal Hfuel.
  apply init_counted_config in Hinit as [Hcfg <-]; [|done..].
  unfold __iter__.
  destruct (iter_start self) as [fr| |] eqn:E.
  - apply iter_start_inv in E as (total' & ids & Ht & _ & ->).
    assert (total' = total) as -> by congruence.
    pose proof (consuming_run self k c fuel
                  (AtSelect ids (replicate total true)) (np_rng self) Hcfg I)
      as Hrun.
    cbn [steps_left frame_mask] in Hrun.
    rewrite count_ones_replicate in Hrun. by apply Hrun.
  - split; [right; eauto|cbn; lia].
  - unfold iter_start, getitem in E.
    destruct (_ !! _); cbn in E; [|done]. by destruct (_ !! _).
Qed.

Lemma counted_epoch_ends_witness :
  finished (__iter__ 47 (scenario_A_sampler (stream_of []))).2
  ∧ length (__iter__ 47 (scenario_A_sampler (stream_of []))).1 ≤ 15.
Proof.
  apply (counted_epoch_ends (stream_of []) scenario_A_dataset "streamlines"
           5 5 1234 1 1 fresh_process (scenario_A_sampler (stream_of []))
           15 47); [reflexivity | lia | lia | reflexivity | lia].
Defined.

(** ** Epochs that end by themselves *)

Lemma elem_of_unused_2 (mask : list bool) (s : slice) (x : nat) :
  avail mask x → fst s ≤ x < snd s → x ∈ unused_ids mask s.
Proof.
  intros Hx [Hlo Hhi]. unfold unused_ids, slice_start.
  assert (get_slice mask s !! (x - fst s) = Some true) as Hi.
  { unfold get_slice. apply lookup_take_Some. split; [|lia].
    rewrite lookup_drop. unfold avail in Hx.
    by replace (fst s + (x - fst s)) with x by lia. }
  replace x with ((x - fst s) + fst s) at 1 by lia.
  apply (list_elem_of_fmap_2 (fun i => i + fst s)).
  unfold flatnonzero. apply list_elem_of_filter. split; [done|].
  apply elem_of_seq. apply lookup_lt_Some in Hi. lia.
Qed.

Lemma partition_from_lookup start total (ids : list slice) j (sj : slice) :
  partition_from start total ids → ids !! j = Some sj →
  start ≤ fst sj ∧ fst sj ≤ snd sj.
Proof.
  revert start j. induction ids as [|s ids IH]; intros start j; [done|].
  cbn [partition_from]. intros (<- & Hle & Hrest). destruct j as [|j]; cbn.
  - by intros [= <-].
  - intros Hj. destruct (IH _ _ Hrest Hj). lia.
Qed.

Lemma partition_from_ordered start total (ids : list slice) i j
    (si sj : slice) :
  partition_from start total ids →
  ids !! i = Some si → ids !! j = Some sj → i < j → snd si ≤ fst sj.
Proof.
  revert start i j. induction ids as [|s ids IH]; intros start i j; [done|].
  cbn [partition_from]. intros (<- & Hle & Hrest).
  destruct i as [|i], j as [|j]; cbn; try lia.
  - intros [= <-] Hj _. by destruct (partition_from_lookup _ _ _ _ _ Hrest Hj).
  - intros Hi Hj Hij. apply (IH _ i j Hrest Hi Hj). lia.
Qed.

Lemma partition_from_disjoint total (ids : list slice) i j (si sj : slice) x :
  partition_from 0 total ids →
  ids !! i = Some si → ids !! j = Some sj → i ≠ j →
  fst si ≤ x < snd si → ¬ (fst sj ≤ x < snd sj).
Proof.
  intros Hp Hi Hj Hij Hx Hx'.
  destruct (decide (i < j)).
  - pose proof (partition_from_ordered _ _ _ _ _ _ _ Hp Hi Hj). lia.
  - pose proof (partition_from_ordered _ _ _ _ _ _ _ Hp Hj Hi). lia.
Qed.

(** With a budget counted in streamlines, a subject with unused
    streamlines gets its ids, all from its own unused ids. *)
Lemma count_sample_ok self subj (ids : list slice) (s : slice) mask mx nb
    fuel g :
  batch_size_units self = "nb_streamlines"%string →
  nb_streamlines_per_chunk self = batch_size self →
  (0 < batch_size self < 2 ^ 52)%Z →
  (0 < nb)%Z →
  py_truediv (batch_size self) nb = Ok mx →
  ids !! subj = Some s →
  unused_ids mask s ≠ [] →
  ∃ sampled gids g1,
    _sample_streamlines_for_subj (S fuel) self subj ids mask mx g
      = Ok (sampled, mask_out mask gids, g1)
    ∧ ∀ x, x ∈ gids → x ∈ unused_ids mask s.
Proof.
  intros Hu Hchunk Hbs Hnb Hmx Hs Hne.
  unfold _sample_streamlines_for_subj, dict_getitem. rewrite Hs.
  cbn [bind subj_loop].
  assert (∃ ret g1, _get_a_chunk_of_streamlines self s mask (Fin 0) mx g
                    = Ok (ret, g1)) as (ret & g1 & E).
  { unfold _get_a_chunk_of_streamlines. fold (unused_ids mask s).
    destruct (unused_ids mask s) as [|u us] eqn:Eu; [done|].
    cbn [length Nat.eqb]. unfold choice, max_array_length. rewrite Hchunk.
    assert ((batch_size self <? 0)%Z = false) as -> by lia.
    cbn [bool_decide decide_rel andb]. rewrite bool_decide_eq_false_2 by done.
    cbn [andb].
    assert ((2 ^ 63 <=? batch_size self)%Z = false) as -> by lia.
    assert ((2 ^ 60 <=? batch_size self)%Z = false) as -> by lia.
    assert ((2 ^ 52 <=? batch_size self)%Z = false) as -> by lia.
    cbn [bind]. destruct (draw_many _ _ _) as [chosen g1].
    unfold _compute_and_adjust_batch_size. rewrite Hu. cbn [bind].
    change (String.eqb "nb_streamlines" "length_mm") with false.
    cbv iota. cbn [bind]. destruct (fleb _ _); eauto. }
  rewrite E. cbn [bind].
  apply get_a_chunk_inv in E
    as [(Hnil & _)|(chosen & _ & Hc & _ & Hret)]; [done|].
  apply choice_spec in Hc as [Hlen Hc]. rewrite Hchunk in Hlen.
  destruct (truediv_nonneg _ _ _ Hnb (proj1 Hbs) Hmx) as (Hnn & Hle & v & ->).
  rewrite round64_Z in Hle by lia.
  rewrite (cost_ones self _ Hu) in Hret. cbv zeta in Hret.
  rewrite np_sum_replicate_ones in Hret by lia.
  rewrite fadd_0_l in Hret by (apply nonneg_of_Z; lia).
  assert (of_nat (length chosen) = of_Z (batch_size self)) as Hn.
  { unfold of_nat. by rewrite Hlen, Z2Nat.id by lia. }
  rewrite Hn, Hle in Hret. subst ret. cbv iota beta zeta.
  eexists _, _, _. split; [done|].
  intros x Hx%bool_index_elem. by apply Hc.
Qed.

Lemma count_for_subjs_ok self total (ids : list slice) mx nb subjs mask g b :
  batch_size_units self = "nb_streamlines"%string →
  nb_streamlines_per_chunk self = batch_size self →
  (0 < batch_size self < 2 ^ 52)%Z →
  (0 < nb)%Z →
  py_truediv (batch_size self) nb = Ok mx →
  partition_from 0 total ids →
  NoDup subjs →
  Forall (has_supply ids mask) subjs →
  ∃ b' mask' g', for_subjs self ids mx subjs mask g b = Ok (b', mask', g').
Proof.
  intros Hu Hchunk Hbs Hnb Hmx Hp. revert mask g b.
  induction subjs as [|subj rest IH]; intros mask g b Hnd Hsup;
    cbn [for_subjs]; [eauto|].
  apply NoDup_cons in Hnd as [Hni Hnd].
  apply Forall_cons in Hsup as [(s & Hs & Hne) Hsup].
  destruct (count_sample_ok self subj ids s mask mx nb (length mask) g
              Hu Hchunk Hbs Hnb Hmx Hs Hne) as (sampled & gids & g1 & -> & Hg).
  cbn [bind]. apply IH; [done|].
  apply Forall_forall. intros subj' Hin.
  rewrite Forall_forall in Hsup.
  destruct (Hsup subj' Hin) as (s' & Hs' & Hne').
  exists s'. split; [done|].
  destruct (unused_ids mask s') as [|x xs] eqn:Ex; [done|].
  assert (x ∈ unused_ids mask s') as Hx by (rewrite Ex; left).
  pose proof (elem_of_unused_lt _ _ _ Hx) as Hhi.
  pose proof Hx as [Hav Hlo]%elem_of_unused. unfold slice_start in Hlo.
  assert (x ∈ unused_ids (mask_out mask gids) s') as Hx'.
  { apply elem_of_unused_2; [|lia]. apply mask_out_keep; [done|].
    intros Hxg%Hg. pose proof (elem_of_unused_lt _ _ _ Hxg).
    apply elem_of_unused in Hxg as [_ Hxlo]. unfold slice_start in Hxlo.
    apply (partition_from_disjoint total ids subj subj' s s' x);
      first [done | lia | by intros ->]. }
  intros Hnil. rewrite Hnil in Hx'. by apply elem_of_nil in Hx'.
Qed.

Lemma weight_nonzero_2 c tot :
  c ≠ 0 → tot ≠ 0 → Qnonzero (QofNat c / QofNat tot) = true.
Proof.
  intros Hc Ht. unfold Qnonzero. apply negb_true_iff.
  destruct (Qeq_bool _ _) eqn:E; [|done]. apply Qeq_bool_eq in E.
  exfalso. unfold Qdiv in E. apply Qmult_integral in E as [E|E].
  - unfold QofNat, Qeq in E. cbn in E. lia.
  - assert (¬ QofNat tot == 0)%Q as Hn.
    { unfold QofNat, Qeq. cbn. lia. }
    apply Hn. rewrite <- (Qinv_involutive (QofNat tot)), E. reflexivity.
Qed.

Lemma count_nonzero_pos (counts : list nat) :
  sum_list counts ≠ 0 →
  0 < count_nonzero
        ((fun c => (QofNat c / QofNat (sum_list counts))%Q) <$> counts).
Proof.
  intros Hsum.
  assert (∃ c, c ∈ counts ∧ c ≠ 0) as (c & Hin & Hc).
  { clear -Hsum. induction counts as [|c counts IH]; [done|].
    cbn in Hsum. destruct (decide (c = 0)) as [->|Hc].
    - destruct IH as (c' & ? & ?); [done|]. exists c'. split; [by right|done].
    - exists c. split; [by left|done]. }
  unfold count_nonzero.
  assert ((QofNat c / QofNat (sum_list counts))%Q
          ∈ filter (fun w => Qnonzero w = true)
              ((fun c => (QofNat c / QofNat (sum_list counts))%Q) <$> counts))
    as Hw.
  { apply list_elem_of_filter. split; [by apply weight_nonzero_2|].
    by apply (list_elem_of_fmap_2
                (fun c => (QofNat c / QofNat (sum_list counts))%Q)). }
  destruct (filter _ _); [by apply elem_of_nil in Hw|cbn; lia].
Qed.

Lemma single_cycle_select self k ids mask g :
  counted_config self k 1 →
  (batch_size self < 2 ^ 52)%Z →
  subjs_data_list (dataset self) = length ids →
  partition_from 0 (length mask) ids →
  match select_subjects self ids mask g with
  | Continue fr' _ =>
      frame_ids fr' = ids ∧ single_cycle_frame self (length mask) fr'
  | StopIteration => True
  | _ => False
  end.
Proof.
  intros Hcfg Hsmall Hn Hp. pose proof Hcfg as [Hu Hchunk Hk Hc Hkk Hcc].
  destruct (select_subjects self ids mask g) as [b fr' g'|fr' g'| |e|] eqn:E;
    try done.
  - pose proof (select_subjects_inv self ids mask g) as H. by rewrite E in H.
  - pose proof (consuming_select _ _ _ _ _ _ _ _ Hcfg E)
      as [Hcons (subjs & mx & j & ->)].
    cbn [frame_ids]. split; [done|]. split; [done|]. right.
    pose proof (select_subjects_few _ _ _ _ _ _ _ _ _ _ _ Hk
                  ltac:(lia) E) as (_ & Hnd & _).
    pose proof E as (subjs0 & nb & mx0 & Heq & Hmx & _ & Hlen & Hs)%select_subjects_spec.
    injection Heq as E3 E4 E5. subst subjs0.
    rewrite Hk, Hc in *. cbn in Hs, E5.
    assert ((k =? 0)%Z = false) as Hk0 by lia. rewrite Hk0 in Hs. cbn in Hs.
    destruct Hs as [_ Hs]. destruct Hcons as (Hne & _ & Hdiv & _).
    injection E5 as <-. done.
  - revert E. unfold select_subjects.
    rewrite (partition_counts mask 0 ids Hp), drop_0, Nat.eqb_refl.
    cbn [negb]. destruct (count_ones mask =? 0) eqn:E0; [done|].
    apply Nat.eqb_neq in E0.
    rewrite Hk. cbn [truthy default].
    assert ((k =? 0)%Z = false) as -> by lia. cbn [negb].
    set (counts := (fun s => count_ones (get_slice mask s)) <$> ids).
    assert (sum_list counts = count_ones mask) as Hsum.
    { unfold counts. by rewrite (partition_counts mask 0 ids Hp), drop_0. }
    rewrite <- Hsum in E0 |- *.
    pose proof (count_nonzero_pos counts E0) as Hpos.
    set (weights := (fun c => (QofNat c / QofNat (sum_list counts))%Q)
                      <$> counts) in *.
    unfold choice_p, id.
    assert ((Z.min k (Z.of_nat (count_nonzero weights)) <? 0)%Z = false)
      as -> by lia.
    assert (length weights = subjs_data_list (dataset self)) as ->.
    { unfold weights, counts. by rewrite !length_fmap. }
    rewrite Nat.eqb_refl. cbn [negb].
    assert ((Z.of_nat (count_nonzero weights)
             <? Z.min k (Z.of_nat (count_nonzero weights)))%Z = false)
      as -> by lia.
    destruct (draw_distinct _ _ _). cbn [bind].
    destruct (truediv_ok (batch_size self)
                (Z.min k (Z.of_nat (count_nonzero weights)))) as [v ->];
      [lia|lia|done].
  - assert (0 < nb_streamlines_per_chunk self)%Z as Hpos by lia.
    by pose proof (step_never_hangs self (AtSelect ids mask) g Hpos).
Qed.

Lemma single_cycle_step self k ids total fr g :
  counted_config self k 1 →
  (batch_size self < 2 ^ 52)%Z →
  subjs_data_list (dataset self) = length ids →
  partition_from 0 total ids →
  frame_ids fr = ids → single_cycle_frame self total fr →
  match step self fr g with
  | Yield _ fr' _ | Continue fr' _ =>
      frame_ids fr' = ids ∧ single_cycle_frame self total fr'
  | StopIteration => True
  | _ => False
  end.
Proof.
  intros Hcfg Hsmall Hn Hp Hids [Hlen Hfr].
  pose proof Hcfg as [Hu Hchunk Hk Hc Hkk Hcc].
  destruct fr as [ids0 mask|ids0 mask subjs mx it];
    cbn [step frame_ids frame_mask] in *; subst ids0 total.
  - pose proof (single_cycle_select self k ids mask g Hcfg Hsmall Hn Hp) as H.
    by destruct (select_subjects self ids mask g).
  - destruct Hfr as [->|(-> & Hnd & Hsup & Hne & Hmx)]; [done|].
    unfold one_cycle.
    assert (0 < Z.of_nat (length subjs))%Z as Hnb
      by (destruct subjs; [done|cbn; lia]).
    destruct (count_for_subjs_ok self (length mask) ids mx _ subjs mask g []
                Hu Hchunk ltac:(lia) Hnb Hmx Hp Hnd Hsup)
      as (b & mask1 & g1 & E).
    rewrite E.
    pose proof E as (newb & _ & _ & _ & [Hl _] & _)%for_subjs_spec.
    destruct (length b =? 0); cbn [frame_ids]; (split; [done|]);
      (split; [done|]); [done|by left].
Qed.

(** X11.  A sampler built with the unit 'nb_streamlines', a batch size
    below 2^52 (so that numpy can hold a chunk of batch_size draws and
    batch_size / nb_subjects does not overflow), at most k subjects per
    batch with 0 < k < batch_size and one cycle, on a group whose
    subjects' slices follow one another from 0 to the number of
    streamlines: the epoch raises nothing and the generator returns by
    itself within 3 * total + 2 steps. *)
Theorem single_cycle_epoch_is_clean
    mt d name bs chunk seed k w self ids total fuel :
  (__init__ mt d name bs "nb_streamlines" chunk seed (Some k) (Some 1%Z) w).1
    = Ok self →
  (0 < k < bs)%Z →
  (bs < 2 ^ 52)%Z →
  getitem (streamline_ids_per_subj d) (streamline_group_idx self) = Ok ids →
  getitem (total_nb_streamlines d) (streamline_group_idx self) = Ok total →
  subjs_data_list d = length ids →
  partition_from 0 total ids →
  3 * total + 2 ≤ fuel →
  (__iter__ fuel self).2 = Exhausted.
Proof.
  intros Hinit Hk Hsmall Hids Htotal Hn Hp Hfuel.
  assert (batch_size self = bs) as Hbs.
  { destruct (__init__ _ _ _ _ _ _ _ _ _ _) as [r0 w'] eqn:E0.
    cbn [fst] in Hinit. subst r0.
    by apply init_ok_inv in E0 as (_ & _ & ? & _). }
  rewrite <- Hbs in Hsmall.
  apply init_counted_config in Hinit as [Hcfg <-]; [|done..].
  unfold __iter__, iter_start. rewrite Htotal, Hids. cbn [bind].
  set (fr := AtSelect ids (replicate total true)).
  pose proof (consuming_run self k 1 fuel fr (np_rng self) Hcfg I) as Hfin.
  cbn [steps_left fr] in Hfin. rewrite count_ones_replicate in Hfin.
  destruct (Hfin Hfuel) as [Hf _].
  pose proof (run_status_invariant self
    (fun fr => frame_ids fr = ids ∧ single_cycle_frame self total fr)
    (fun st => st = Suspended ∨ st = Exhausted) (or_introl eq_refl)) as Hinv.
  assert (∀ fr0 g0,
    frame_ids fr0 = ids ∧ single_cycle_frame self total fr0 →
    match step self fr0 g0 with
    | Yield _ fr' _ | Continue fr' _ =>
        frame_ids fr' = ids ∧ single_cycle_frame self total fr'
    | StopIteration => Exhausted = Suspended ∨ Exhausted = Exhausted
    | Raises e => Failed e = Suspended ∨ Failed e = Exhausted
    | Hangs => Diverged = Suspended ∨ Diverged = Exhausted
    end) as Hstep.
  { intros fr0 g0 [Hi Hs].
    pose proof (single_cycle_step self k ids total fr0 g0 Hcfg Hsmall Hn Hp
                  Hi Hs) as Hst.
    destruct (step self fr0 g0); try done. by right. }
  assert (frame_ids fr = ids ∧ single_cycle_frame self total fr) as Hfr.
  { split; [done|]. split; [|done]. cbn. by rewrite length_replicate. }
  destruct (Hinv Hstep fuel fr (np_rng self) Hfr) as [Hs|Hs]; [|done].
  destruct Hf as [Hf|[e Hf]]; congruence.
Qed.

Lemma single_cycle_epoch_is_clean_witness :
  (__iter__ 47 (scenario_A_sampler (stream_of []))).2 = Exhausted.
Proof.
  apply (single_cycle_epoch_is_clean (stream_of []) scenario_A_dataset
           "streamlines" 5 5 1234 1 fresh_process
           (scenario_A_sampler (stream_of [])) [(0, 10); (10, 15)] 15 47);
    [reflexivity | lia | lia | reflexivity | reflexivity | reflexivity | | lia].
  simpl. lia.
Defined.

(** ** The constructor *)

Lemma list_index_elem x l : x ∈ l → ∃ i, list_index x l = Ok i.
Proof.
  induction l as [|y l IH]; [by intros ?%elem_of_nil|].
  intros Hx. cbn [list_index]. destruct (String.eqb y x) eqn:E; [eauto|].
  apply String.eqb_neq in E.
  apply elem_of_cons in Hx as [->|Hx]; [done|].
  destruct (IH Hx) as [i ->]. cbn. eauto.
Qed.

Lemma list_index_Ok x l i :
  list_index x l = Ok i → l !! i = Some x ∧ ∀ j, j < i → l !! j ≠ Some x.
Proof.
  revert i. induction l as [|y l IH]; intros i; [done|].
  cbn [list_index]. destruct (String.eqb y x) eqn:E.
  - apply String.eqb_eq in E as ->. intros [= <-]. split; [done|]. lia.
  - apply String.eqb_neq in E.
    destruct (list_index x l) as [i'| |]; cbn; [|done..].
    intros [= <-]. destruct (IH i' eq_refl) as [Hi Hj]. split; [done|].
    intros [|j] Hlt; cbn; [congruence|]. apply Hj. lia.
Qed.

Lemma list_index_not_elem x l : x ∉ l → list_index x l = Raise ValueError.
Proof.
  induction l as [|y l IH]; [done|]. intros Hx.
  apply not_elem_of_cons in Hx as [Hne Hx]. cbn [list_index].
  destruct (String.eqb y x) eqn:E.
  - apply String.eqb_eq in E. congruence.
  - by rewrite (IH Hx).
Qed.

(** X12.  [__init__] builds a sampler exactly when the batch size is
    positive, the unit is 'nb_streamlines' or 'length_mm', cycles is not
    given without a number of subjects per batch, the group name is one
    of the dataset's streamline groups, and the seed is one that numpy
    accepts, from 0 to 2^32 - 1; in every other case it raises
    ValueError and torch's global seed is left as it was. *)
Theorem init_outcome mt d name bs units chunk seed nsub cyc w :
  (valid_arguments d name bs units seed nsub cyc
   ∧ ∃ self,
       (__init__ mt d name bs units chunk seed nsub cyc w).1 = Ok self
       ∧ streamline_groups d !! streamline_group_idx self = Some name)
  ∨ (¬ valid_arguments d name bs units seed nsub cyc
     ∧ (__init__ mt d name bs units chunk seed nsub cyc w).1 = Raise ValueError
     ∧ torch_seed (__init__ mt d name bs units chunk seed nsub cyc w).2
       = torch_seed w).
Proof.
  unfold __init__, valid_arguments, np_random_RandomState.
  destruct (bs <=? 0)%Z eqn:Ebs.
  { right. split; [|done]. intros (? & _). lia. }
  destruct (String.eqb units "nb_streamlines") eqn:Eu1;
    [|destruct (String.eqb units "length_mm") eqn:Eu2]; cbn [orb negb andb].
  3: { right. apply String.eqb_neq in Eu1, Eu2. split; [|done].
       by intros (_ & [?|?] & _). }
  all: assert (units = "nb_streamlines"%string ∨ units = "length_mm"%string)
         as Hu by (first [apply String.eqb_eq in Eu1; by left
                         |apply String.eqb_eq in Eu2; by right]).
  all: destruct (truthy cyc) eqn:Ec, (truthy nsub) eqn:En; cbn [negb andb].
  all: try (right; split; [by intros (_ & _ & H & _); specialize (H eq_refl)|];
            split; [done|]; first [done | by destruct (_ =? _)%Z]).
  all: destruct (decide (name ∈ streamline_groups d)) as [Hin|Hni].
  all: try (right; rewrite (list_index_not_elem _ _ Hni);
            split; [by intros (_ & _ & _ & ? & _)|]; split; [done|];
            first [done | by destruct (_ =? _)%Z]).
  all: destruct (list_index_elem _ _ Hin) as [i Hi]; rewrite Hi.
  all: destruct ((seed <? 0)%Z || (2 ^ 32 <=? seed)%Z) eqn:Es.
  all: try (right; apply orb_true_iff in Es;
            split; [intros (_ & _ & _ & _ & ?); lia|]; split; [done|];
            first [done | by destruct (_ =? _)%Z]).
  all: left; apply orb_false_iff in Es;
    (split; [split; [lia|split; [done|split; [done|split; [done|lia]]]]|]);
    eexists; split; [done|]; cbn; by apply list_index_Ok in Hi as [? _].
Qed.

(** A seed of 2^32 is refused, and nothing of the process changes. *)
Example seed_out_of_range_is_refused :
  __init__ (stream_of []) scenario_A_dataset "streamlines" 5
           "nb_streamlines" 5 (2 ^ 32) None None fresh_process
  = (Raise ValueError, fresh_process).
Proof. reflexivity. Qed.

(** X13.  The [params] of a sampler that [__init__] built are enough to
    build it again on the same dataset: calling [__init__] with the
    values read from the dict gives the same sampler, and logs no
    warning. *)
Theorem params_rebuild_sampler
    mt d name bs units chunk seed nsub cyc w self w' :
  (__init__ mt d name bs units chunk seed nsub cyc w).1 = Ok self →
  ∃ name' bs' units' chunk' seed' nsub' cyc',
    dict_get (params self) "streamline_group_name" = Some (PyStr name')
    ∧ dict_get (params self) "batch_size" = Some (PyInt bs')
    ∧ dict_get (params self) "batch_size_units" = Some (PyStr units')
    ∧ dict_get (params self) "nb_streamlines_per_chunk" = Some (PyInt chunk')
    ∧ dict_get (params self) "rng" = Some (PyInt seed')
    ∧ dict_get (params self) "nb_subjects_per_batch"
      = Some (py_optional_int nsub')
    ∧ dict_get (params self) "cycles" = Some (py_optional_int cyc')
    ∧ __init__ mt d name' bs' units' chunk' seed' nsub' cyc' w'
      = (Ok self, torch_manual_seed seed' w').
Proof.
  destruct (__init__ mt d name bs units chunk seed nsub cyc w) as [r w1] eqn:E.
  cbn [fst]. intros ->.
  exists (streamline_group_name self), (batch_size self),
    (batch_size_units self), (nb_streamlines_per_chunk self), (rng self),
    (nb_subjects_per_batch self), (cycles self).
  do 7 (split; [reflexivity|]).
  revert E. unfold __init__.
  destruct (bs <=? 0)%Z eqn:Ebs; [done|].
  destruct (negb _) eqn:Eu; [done|].
  destruct (truthy cyc && _) eqn:Ec; [done|].
  destruct (list_index name _) as [idx| |] eqn:Ei; [|done..].
  destruct (np_random_RandomState mt seed) as [np_rng| |] eqn:Eg; [|done..].
  intros [= <- _]. cbn. rewrite Ebs, Eu, Ec, Ei, Eg. cbn.
  destruct (String.eqb units "nb_streamlines"); cbn;
    rewrite ?Z.eqb_refl; done.
Qed.

Lemma params_rebuild_sampler_witness :
  let self := scenario_A_sampler (stream_of []) in
  ∃ name' bs' units' chunk' seed' nsub' cyc',
    dict_get (params self) "streamline_group_name" = Some (PyStr name')
    ∧ dict_get (params self) "batch_size" = Some (PyInt bs')
    ∧ dict_get (params self) "batch_size_units" = Some (PyStr units')
    ∧ dict_get (params self) "nb_streamlines_per_chunk" = Some (PyInt chunk')
    ∧ dict_get (params self) "rng" = Some (PyInt seed')
    ∧ dict_get (params self) "nb_subjects_per_batch"
      = Some (py_optional_int nsub')
    ∧ dict_get (params self) "cycles" = Some (py_optional_int cyc')
    ∧ __init__ (stream_of []) scenario_A_dataset name' bs' units' chunk'
               seed' nsub' cyc' fresh_process
      = (Ok self, torch_manual_seed seed' fresh_process).
Proof.
  apply (params_rebuild_sampler (stream_of []) scenario_A_dataset "streamlines"
           5 "nb_streamlines" 3 1234 (Some 1%Z) (Some 1%Z) fresh_process
           (scenario_A_sampler (stream_of [])) fresh_process).
  reflexivity.
Defined.

(** ** The checks of the HDF5 creator *)

Lemma json_is_true v s : json_is v s = true ↔ v = JStr s.
Proof.
  destruct v; cbn; try (split; [done|by intros [=]]).
  rewrite String.eqb_eq. split; [by intros ->|by intros [= ->]].
Qed.

Lemma std_choice_ok std :
  existsb (json_is std) std_choices = true
  ↔ ∃ s, std = JStr s ∧ s ∈ std_choices.
Proof.
  rewrite existsb_exists. split.
  - intros (s & Hin & ->%json_is_true). exists s. split; [done|].
    by apply list_elem_of_In.
  - intros (s & -> & Hin). exists s. split; [by apply list_elem_of_In|].
    by apply json_is_true.
Qed.

Lemma groups_of_type_cons ty g groups :
  groups_of_type ty (g :: groups)
  = (if group_has_type ty g then [g.1] else []) ++ groups_of_type ty groups.
Proof.
  unfold groups_of_type. rewrite filter_cons.
  destruct (group_has_type ty g); case_decide; done.
Qed.

Lemma json_contains_dict key m :
  json_contains key (JObj m) = Ok (if m !! key then true else false).
Proof.
  cbn [json_contains]. destruct (m !! key) eqn:E.
  - by rewrite bool_decide_eq_true_2.
  - rewrite bool_decide_eq_false_2; [done|]. by intros [? ?].
Qed.

(** The pass of the loop over a group that is a dict. *)
Lemma analyse_groups_dict group m rest vg sg :
  analyse_groups ((group, JObj m) :: rest) vg sg
  = match m !! "type"%string with
    | None => Raise KeyError
    | Some ty =>
        match m !! "files"%string with
        | None => Raise KeyError
        | Some _ =>
            if json_is ty "volume" then
              match m !! "standardization"%string with
              | None => Raise KeyError
              | Some std =>
                  if negb (existsb (json_is std) std_choices)
                  then Raise KeyError
                  else analyse_groups rest (vg ++ [group]) sg
              end
            else if json_is ty "streamlines" then
              analyse_groups rest vg (sg ++ [group])
            else Raise ValueError
        end
    end.
Proof.
  cbn [analyse_groups]. rewrite !json_contains_dict.
  cbn [bind json_getitem].
  destruct (m !! "type"%string) as [ty|]; cbn [negb bind]; [|done].
  destruct (m !! "files"%string) as [fl|]; cbn [negb bind]; [|done].
  destruct (json_is ty "volume"); [|done].
  by destruct (m !! "standardization"%string) as [std|].
Qed.

(** The pass of the loop over a group that is not a dict: it raises. *)
Lemma analyse_groups_not_dict group cfg rest vg sg :
  (∀ m, cfg ≠ JObj m) →
  (analyse_groups ((group, cfg) :: rest) vg sg = Raise KeyError
   ∧ lacks_name (group, cfg))
  ∨ (analyse_groups ((group, cfg) :: rest) vg sg = Raise TypeError
     ∧ (not_iterable (group, cfg) ∨ holds_both_names (group, cfg))).
Proof.
  intros Hnd. unfold lacks_name, not_iterable, holds_both_names.
  destruct cfg as [|b|q|s|l|m]; cbn [analyse_groups json_contains bind snd].
  - right. split; [done|by left].
  - right. split; [done|by left].
  - right. split; [done|by left].
  - destruct (str_contains "type" s) eqn:E1; cbn [negb];
      [|left; split; [done|by left]].
    destruct (str_contains "files" s) eqn:E2; cbn [negb];
      [|left; split; [done|by right]].
    right. split; [done|by right].
  - destruct (existsb (λ x, json_is x "type") l) eqn:E1; cbn [negb];
      [|left; split; [done|by left]].
    destruct (existsb (λ x, json_is x "files") l) eqn:E2; cbn [negb];
      [|left; split; [done|by right]].
    right. split; [done|by right].
  - by destruct (Hnd m).
Qed.

Lemma not_dict_not_well_formed group cfg :
  (∀ m, cfg ≠ JObj m) → ¬ well_formed_group (group, cfg).
Proof.
  intros Hnd [[x Hx] _]. unfold group_entry in Hx. cbn [snd] in Hx.
  destruct cfg; try done. by destruct (Hnd m).
Qed.

Lemma analyse_groups_Ok groups vg sg vg' sg' :
  analyse_groups groups vg sg = Ok (vg', sg')
  ↔ Forall well_formed_group groups
    ∧ vg' = vg ++ groups_of_type "volume" groups
    ∧ sg' = sg ++ groups_of_type "streamlines" groups.
Proof.
  revert vg sg. induction groups as [|[group cfg] rest IH]; intros vg sg.
  { cbn. rewrite !app_nil_r. split; [by intros [= <- <-]|by intros (_ & -> & ->)]. }
  assert ((∃ m, cfg = JObj m) ∨ ∀ m, cfg ≠ JObj m) as [[m ->]|Hnd]
    by (destruct cfg; eauto).
  2: { pose proof (not_dict_not_well_formed group cfg Hnd) as Hn.
       destruct (analyse_groups_not_dict group cfg rest vg sg Hnd)
         as [[-> _]|[-> _]]; (split; [done|]);
         by intros [[? _]%Forall_cons _]. }
  rewrite analyse_groups_dict, !groups_of_type_cons, Forall_cons.
  unfold well_formed_group at 1. unfold group_has_type at 1 2 3 4.
  unfold group_entry. cbn [fst snd].
  destruct (m !! "type"%string) as [ty|] eqn:Ety.
  2: { split; [done|]. by intros (((_ & [?|[? _]]) & _) & _). }
  destruct (m !! "files"%string) as [fl|] eqn:Efl.
  2: { split; [done|]. by intros ((([? ?] & _) & _) & _). }
  destruct (json_is ty "volume") eqn:Ev.
  - assert (json_is ty "streamlines" = false) as Es.
    { apply json_is_true in Ev as ->. done. }
    rewrite Es. cbn [app].
    destruct (m !! "standardization"%string) as [std|] eqn:Estd.
    2: { split; [done|]. by intros (((_ & [?|(_ & ? & ? & _)]) & _) & _). }
    destruct (existsb (json_is std) std_choices) eqn:Ech; cbn [negb].
    + rewrite IH, <- !app_assoc. cbn [app].
      apply std_choice_ok in Ech as (s & -> & Hs).
      split.
      * intros (? & -> & ->). repeat split; eauto.
      * intros ((_ & ?) & -> & ->). done.
    + split; [done|]. intros (((_ & [?|(_ & s & [= ->] & Hs)]) & _) & _); [done|].
      assert (existsb (json_is (JStr s)) std_choices = true) as Ht
        by (apply std_choice_ok; eauto).
      congruence.
  - destruct (json_is ty "streamlines") eqn:Es.
    + rewrite IH, <- !app_assoc. cbn [app]. split.
      * intros (? & -> & ->). repeat split; eauto.
      * intros ((_ & ?) & -> & ->). done.
    + split; [done|]. by intros (((_ & [?|[? _]]) & _) & _).
Qed.

(** X14.  [_analyse_config_file] returns exactly when every group of the
    config has its files and is either of type 'streamlines' or of type
    'volume' with one of the four standardizations; it then returns the
    names of the volume groups and the names of the streamline groups,
    each in the order of the config. *)
Theorem analyse_config_file_result groups vg sg :
  _analyse_config_file groups = Ok (vg, sg)
  ↔ Forall well_formed_group groups
    ∧ vg = groups_of_type "volume" groups
    ∧ sg = groups_of_type "streamlines" groups.
Proof. unfold _analyse_config_file. by rewrite analyse_groups_Ok. Qed.

Lemma analyse_groups_error groups vg sg e :
  analyse_groups groups vg sg = Raise e →
  ∃ before g after,
    groups = before ++ g :: after
    ∧ Forall well_formed_group before
    ∧ raises_for e g.
Proof.
  revert vg sg. induction groups as [|[group cfg] rest IH]; intros vg sg;
    [done|].
  assert (∀ vg1 sg1, well_formed_group (group, cfg) →
            analyse_groups rest vg1 sg1 = Raise e →
            ∃ before g after,
              (group, cfg) :: rest = before ++ g :: after
              ∧ Forall well_formed_group before
              ∧ raises_for e g) as Hrec.
  { intros vg1 sg1 Hwf (before & g & after & -> & Hb & He)%IH.
    exists ((group, cfg) :: before), g, after.
    split; [done|]. split; [by constructor|done]. }
  assert (raises_for e (group, cfg) →
          ∃ before g after,
            (group, cfg) :: rest = before ++ g :: after
            ∧ Forall well_formed_group before
            ∧ raises_for e g) as Hhere.
  { intros He. exists [], (group, cfg), rest. by split. }
  assert ((∃ m, cfg = JObj m) ∨ ∀ m, cfg ≠ JObj m) as [[m ->]|Hnd]
    by (destruct cfg; eauto).
  2: { destruct (analyse_groups_not_dict group cfg rest vg sg Hnd)
         as [[-> Hk]|[-> Ht]]; intros [= <-]; apply Hhere; [by left|done]. }
  rewrite analyse_groups_dict.
  unfold well_formed_group, raises_for, lacks_name, group_has_type,
    group_entry in Hrec, Hhere.
  cbn [fst snd] in Hrec, Hhere. rewrite !json_contains_dict in Hhere.
  destruct (m !! "type"%string) as [ty|] eqn:Ety.
  2: { intros [= <-]. apply Hhere. left. by left. }
  destruct (m !! "files"%string) as [fl|] eqn:Efl.
  2: { intros [= <-]. apply Hhere. left. by right. }
  destruct (json_is ty "volume") eqn:Ev.
  - destruct (m !! "standardization"%string) as [std|] eqn:Estd.
    2: { intros [= <-]. apply Hhere. right. split; [done|].
         intros (? & ? & _). congruence. }
    destruct (existsb (json_is std) std_choices) eqn:Ech; cbn [negb].
    + apply Hrec. split; [done|]. right. split; [done|].
      apply std_choice_ok in Ech as (s & -> & Hs). eauto.
    + intros [= <-]. apply Hhere. right. split; [done|].
      intros (s & [= ->] & Hin).
      assert (existsb (json_is (JStr s)) std_choices = true) as Ht
        by (apply std_choice_ok; eauto).
      congruence.
  - destruct (json_is ty "streamlines") eqn:Es.
    + apply Hrec. split; [done|]. by left.
    + intros [= <-]. apply Hhere. eauto.
Qed.

Lemma analyse_groups_well_formed g rest vg sg :
  well_formed_group g →
  analyse_groups (g :: rest) vg sg
  = analyse_groups rest
      (vg ++ if group_has_type "volume" g then [g.1] else [])
      (sg ++ if group_has_type "streamlines" g then [g.1] else []).
Proof.
  destruct g as [group cfg]. intros [[fl Hfl] Hty].
  unfold group_entry in Hfl. cbn [snd] in Hfl.
  destruct cfg as [| | | | |m]; try done.
  rewrite analyse_groups_dict.
  unfold group_has_type, group_entry in *. cbn [fst snd] in *. rewrite Hfl.
  destruct (m !! "type"%string) as [ty|]; [|by destruct Hty as [?|[? _]]].
  destruct Hty as [Hs|(Hv & std & Hstd & Hin)].
  - apply json_is_true in Hs as ->. cbn. by rewrite app_nil_r.
  - apply json_is_true in Hv as ->. rewrite Hstd.
    assert (existsb (json_is (JStr std)) std_choices = true) as ->
      by (apply std_choice_ok; eauto).
    cbn. by rewrite app_nil_r.
Qed.

Lemma analyse_groups_prefix before rest vg sg :
  Forall well_formed_group before →
  analyse_groups (before ++ rest) vg sg
  = analyse_groups rest (vg ++ groups_of_type "volume" before)
                        (sg ++ groups_of_type "streamlines" before).
Proof.
  intros Hb. revert vg sg.
  induction Hb as [|g before Hg Hb IH]; intros vg sg.
  { cbn. by rewrite !app_nil_r. }
  cbn [app]. rewrite (analyse_groups_well_formed g _ vg sg Hg), IH.
  by rewrite <- !app_assoc, !groups_of_type_cons.
Qed.

Lemma group_entry_not_dict group cfg key :
  (∀ m, cfg ≠ JObj m) → group_entry (group, cfg) key = None.
Proof.
  intros Hnd. unfold group_entry. cbn [snd].
  destruct cfg; try done. by destruct (Hnd m).
Qed.

Lemma lacks_name_iterable g :
  lacks_name g → ¬ (not_iterable g ∨ holds_both_names g).
Proof.
  unfold lacks_name, not_iterable, holds_both_names.
  destruct g as [group cfg]. cbn [snd].
  destruct cfg; cbn [json_contains]; intros [Hk|Hk] [Ht|Ht]; try done.
  all: destruct Ht as [H1 H2]; congruence.
Qed.

Lemma analyse_groups_raises g rest vg sg e :
  raises_for e g → analyse_groups (g :: rest) vg sg = Raise e.
Proof.
  destruct g as [group cfg].
  assert ((∃ m, cfg = JObj m) ∨ ∀ m, cfg ≠ JObj m) as [[m ->]|Hnd]
    by (destruct cfg; eauto).
  - rewrite analyse_groups_dict.
    unfold raises_for, lacks_name, not_iterable, holds_both_names,
      group_has_type, group_entry.
    cbn [fst snd]. rewrite !json_contains_dict.
    destruct e; try done.
    + intros (Hty & Hfl & Hv & Hs).
      destruct (m !! "type"%string) as [ty|]; [|by destruct Hty].
      destruct (m !! "files"%string) as [fl|]; [|by destruct Hfl].
      by rewrite Hv, Hs.
    + destruct (m !! "type"%string) as [ty|]; [|done].
      destruct (m !! "files"%string) as [fl|]; [|done].
      intros [[[=]|[=]]|[Hv Hstd]]. rewrite Hv.
      destruct (m !! "standardization"%string) as [std|]; [|done].
      destruct (existsb (json_is std) std_choices) eqn:Ech; [|done].
      exfalso. apply Hstd. apply std_choice_ok in Ech as (s & -> & Hs). eauto.
    + by intros [?|?].
  - intros He.
    assert (∀ key, group_entry (group, cfg) key = None) as Hent
      by (intros; by apply group_entry_not_dict).
    assert (group_has_type "volume" (group, cfg) = false) as Hv
      by (unfold group_has_type; by rewrite Hent).
    destruct (analyse_groups_not_dict group cfg rest vg sg Hnd)
      as [[-> Hk]|[-> Ht]]; destruct e; cbn [raises_for] in He; try done.
    + destruct He as [[x Hx] _]. by rewrite Hent in Hx.
    + by apply lacks_name_iterable in Hk.
    + destruct He as [[x Hx] _]. by rewrite Hent in Hx.
    + destruct He as [Hk|[Hv' _]]; [by apply lacks_name_iterable in Hk|].
      congruence.
Qed.

(** X15.  [_analyse_config_file] raises exactly for the first group of
    the config that is not as the doc describes it, and the groups after
    it are not examined.  It raises KeyError when this group has no
    'type' or no 'files' (a dict without the key, a str without the
    substring, a list without the element), or is a volume group without
    one of the four standardizations; ValueError when it is a dict with
    a type and files whose type is neither 'volume' nor 'streamlines';
    TypeError when it is a number, a bool or null, or a str or a list
    that holds both names; and nothing else. *)
Theorem analyse_config_file_error groups e :
  _analyse_config_file groups = Raise e
  ↔ ∃ before g after,
    groups = before ++ g :: after
    ∧ Forall well_formed_group before
    ∧ match e with
      | KeyError =>
          lacks_name g
          ∨ (group_has_type "volume" g = true
             ∧ ¬ ∃ std, group_entry g "standardization" = Some (JStr std)
                        ∧ std ∈ std_choices)
      | ValueError =>
          is_Some (group_entry g "type") ∧ is_Some (group_entry g "files")
          ∧ group_has_type "volume" g = false
          ∧ group_has_type "streamlines" g = false
      | TypeError => not_iterable g ∨ holds_both_names g
      | _ => False
      end.
Proof.
  split; [apply analyse_groups_error|].
  intros (before & g & after & -> & Hb & He). unfold _analyse_config_file.
  rewrite analyse_groups_prefix by done. by apply analyse_groups_raises.
Qed.

Lemma analyse_config_file_error_witness :
  ∃ before g after,
    example_groups_config ++ [bare_number_group] = before ++ g :: after
    ∧ Forall well_formed_group before
    ∧ (not_iterable g ∨ holds_both_names g).
Proof.
  apply (proj1 (analyse_config_file_error
                  (example_groups_config ++ [bare_number_group]) TypeError)).
  vm_compute. reflexivity.
Defined.

(** The three ways of raising, on the config of the doc followed by a
    group of an unknown type, by a group given as a number, and by a
    group given as a str that holds no 'type'. *)
Example analyse_config_file_raises :
  _analyse_config_file (example_groups_config ++ [mask_group])
  = Raise ValueError
  ∧ _analyse_config_file (example_groups_config ++ [bare_number_group])
    = Raise TypeError
  ∧ _analyse_config_file
      (example_groups_config ++ [("target"%string, JStr "streamlines")])
    = Raise KeyError
  ∧ _analyse_config_file
      (example_groups_config ++ [("target"%string, JStr "type, files")])
    = Raise TypeError.
Proof. repeat split; by vm_compute. Qed.

Lemma filter_not_elem_self (l : list string) : filter (fun s => s ∉ l) l = [].
Proof.
  assert (∀ l' : list string, (∀ s, s ∈ l' → s ∈ l) →
            filter (fun s => s ∉ l) l' = []) as H.
  { induction l' as [|x l' IH]; [done|]. intros Hsub.
    rewrite filter_cons. case_decide as Hx.
    - exfalso. apply Hx, Hsub. left.
    - apply IH. intros s Hs. apply Hsub. by right. }
  by apply H.
Qed.

(** X16.  [_verify_subjects_list] raises ValueError when the root folder
    holds no directory, and in every other case returns without
    reporting any subject, whatever the chosen subjects are: both
    comprehensions read the local list of the folder's directories, so a
    chosen subject without a folder is never rejected. *)
Theorem verify_subjects_list_outcome root_dirs chosen :
  _verify_subjects_list root_dirs chosen
  = if decide (root_dirs = []) then Raise ValueError else Ok [].
Proof.
  unfold _verify_subjects_list. rewrite filter_not_elem_self.
  destruct root_dirs; done.
Qed.
